(** * rsas: the RK4 integrator of age-ranked storage ([_rsas.pyx])

    A shallow embedding of [solve] and [_solve_RK4] and the properties
    their specification states about them.

    Numbers.  The source computes in [np.float64].  The code is
    embedded twice.  First over exact rationals ([Qc], canonical
    fractions, so that equality is Leibniz equality and the model
    runs): this embedding carries the statements about the array
    algebra and the control flow of the integrator (which entries are
    written, clamped, guarded or zero, the shapes, what is raised),
    none of which depends on rounding; the one place where the
    non-finite values of float64 matter there, the quotient under
    [np.where], keeps them (type [quot]).  Then, in [Module F64], over
    Rocq's primitive binary64 floats, operation by operation: this
    embedding carries the statements about the exact value of what is
    computed.

    Arrays.  A 1-D array is a list.  An array with an outflow or a
    solute axis is stored as the list of its columns along that axis,
    the age axis innermost: [PQ1[a,q]] is [nth a (nth q PQ1 []) 0].
    The output arrays carry the time axis outermost: [ST[a,t]] is
    [nth a (nth t ST []) 0].  The accessors below fix the index order
    of the source. *)

From Stdlib Require Import ZArith QArith Qcanon List Lia Lqa Bool Arith.
From Stdlib Require PrimFloat.
Import ListNotations.
Open Scope Qc_scope.

(** ** Scalars *)

Definition qc (n : Z) (d : positive) : Qc := Q2Qc (n # d).

(** An [int] used in float arithmetic. *)
Definition of_nat (n : nat) : Qc := Q2Qc (inject_Z (Z.of_nat n)).

(** [x <= y] and [x == y] on floats. *)
Definition leb (x y : Qc) : bool := Qle_bool x y.
Definition eqb (x y : Qc) : bool := Qeq_bool x y.

(** [x > 0] and [x == 0]. *)
Definition gt0 (x : Qc) : bool := negb (leb x 0).
Definition is0 (x : Qc) : bool := eqb x 0.

(** [cdef inline float64_max(a, b): return a if a >= b else b] *)
Definition float64_max (a b : Qc) : Qc := if leb b a then a else b.
Definition float64_min (a b : Qc) : Qc := if leb a b then a else b.

(** ** The numpy operations the solver uses *)

Module Np.

Definition zeros (n : nat) : list Qc := repeat 0 n.

Fixpoint zipWith {A B C} (f : A -> B -> C) (l : list A) (l' : list B) : list C :=
  match l, l' with
  | x :: t, y :: t' => f x y :: zipWith f t t'
  | _, _ => []
  end.

Definition add (u v : list Qc) : list Qc := zipWith Qcplus u v.
Definition scale (c : Qc) (v : list Qc) : list Qc := map (fun x => c * x) v.

Definition sum (l : list Qc) : Qc := fold_right Qcplus 0 l.

(** [np.diff(l)]: [l[j+1] - l[j]]. *)
Definition diff (l : list Qc) : list Qc :=
  zipWith (fun b a => b - a) (tl l) l.

Fixpoint cumsum_from (acc : Qc) (l : list Qc) : list Qc :=
  match l with
  | [] => []
  | x :: t => (acc + x) :: cumsum_from (acc + x) t
  end.

(** [np.cumsum(l)]. *)
Definition cumsum (l : list Qc) : list Qc := cumsum_from 0 l.

(** [l.repeat(n, axis=0)]: every entry [n] times in a row. *)
Definition repeat_each (n : nat) (l : list Qc) : list Qc :=
  flat_map (fun x => repeat x n) l.

(** [np.roll(l, 1)]. *)
Definition roll1 (l : list Qc) : list Qc :=
  match l with
  | [] => []
  | _ => last l 0 :: removelast l
  end.

(** [l[0:stop:n]] for [n >= 1]. *)
Definition every (n stop : nat) (l : list Qc) : list Qc :=
  let l' := firstn stop l in
  map (fun j => nth (j * n) l' 0) (seq 0 ((length l' + n - 1) / n)).

(** [l[lo:hi]]. *)
Definition slice (lo hi : nat) (l : list Qc) : list Qc :=
  firstn (hi - lo) (skipn lo l).

(** [np.sum(np.reshape(l, (rows, n)), axis=1)]. *)
Definition row_sums (rows n : nat) (l : list Qc) : list Qc :=
  map (fun r => sum (slice (r * n) (r * n + n) l)) (seq 0 rows).

(** [np.dot(w, P.T)] for a matrix stored by columns: the vector
    [sum_q w[q] * P[:,q]] of length [len]. *)
Definition dot (w : list Qc) (P : list (list Qc)) (len : nat) : list Qc :=
  fold_left (fun acc wc => add acc (scale (fst wc) (snd wc)))
            (combine w P) (zeros len).

(** [np.sum(P, axis=1)] for a matrix stored by columns. *)
Definition sum_cols (P : list (list Qc)) (len : nat) : list Qc :=
  fold_left add P (zeros len).

(** The value of a float64 division.  Dividing by [0.0] does not raise
    in numpy: it yields [inf] or [nan]; [NonFinite] stands for either. *)
Inductive quot : Type :=
| Finite (x : Qc)
| NonFinite.

Definition divide1 (x y : Qc) : quot :=
  if is0 y then NonFinite else Finite (x / y).

(** [u / v], elementwise, evaluated for every index. *)
Definition divide (u v : list Qc) : list quot := zipWith divide1 u v.

(** [np.where(c, x, y)] with a scalar [y]: a select over values that
    were all computed beforehand. *)
Definition where_ (c : list bool) (x : list quot) (y : Qc) : list quot :=
  zipWith (fun (b : bool) v => if b then v else Finite y) c x.

(** The float stored from a selected value; the solver never selects a
    non-finite one (lemma [nth_flux_select]). *)
Definition value (v : quot) : Qc :=
  match v with Finite x => x | NonFinite => 0 end.

End Np.

(** ** The collaborators and the arguments *)

(** An rSAS function object: [cdf_i(ST, i)] gives the cumulative
    distribution at every entry of the age-ranked storage [ST] at
    timestep [i] ([cdf_all] is not called by the solver). *)
Record rSASFunctionClass : Type := {
  cdf_i : list Qc -> nat -> list Qc
}.

(** How a call ends when it does not return.  The first five are Python
    exceptions.  [SegmentationFault] is not one: the compiled code reads
    through the buffer of an argument that is [None] (Cython's
    [nonecheck] is off, so nothing tests for it) and the process is
    killed. *)
Inductive exn : Type :=
| TypeError
| ZeroDivisionError
| ValueError
| IndexError
| AttributeError
| SegmentationFault.

(** The arguments of [solve] and of [_solve_RK4].  [None] is Python's
    [None].  Index order as in the source: [Q[i][q]], [C_J[i][s]],
    [alpha[i][q][s]], [k1[i][s]], [C_eq[i][s]], [CS_init[a][s]]. *)
Record args : Type := {
  J : list Qc;
  Q : list (list Qc);
  rSAS_fun : list rSASFunctionClass;
  ST_init : option (list Qc);
  dt : Qc;
  n_substeps : nat;
  full_outputs : bool;
  CS_init : option (list (list Qc));
  C_J : option (list (list Qc));
  alpha : option (list (list (list Qc)));
  k1 : option (list (list Qc));
  C_eq : option (list (list Qc));
  C_old : option (list Qc)
}.

Definition get1 (v : list Qc) (i : nat) : Qc := nth i v 0.
Definition get2 (m : list (list Qc)) (i j : nat) : Qc := nth j (nth i m []) 0.
Definition get3 (m : list (list (list Qc))) (i j k : nat) : Qc :=
  nth k (nth j (nth i m []) []) 0.

(** Column [s] of an array stored by rows. *)
Definition column (m : list (list Qc)) (s : nat) : list Qc :=
  map (fun row => nth s row 0) m.

Module NpAux.

Fixpoint zipWith3 {A B C D} (f : A -> B -> C -> D)
         (l1 : list A) (l2 : list B) (l3 : list C) : list D :=
  match l1, l2, l3 with
  | x :: t1, y :: t2, z :: t3 => f x y z :: zipWith3 f t1 t2 t3
  | _, _, _ => []
  end.

(** [l[0] = x] *)
Definition set_first (x : Qc) (l : list Qc) : list Qc :=
  match l with
  | [] => []
  | _ :: t => x :: t
  end.

(** [l[0] += x] *)
Definition add_first (x : Qc) (l : list Qc) : list Qc :=
  match l with
  | [] => []
  | a :: t => (a + x) :: t
  end.

(** [(A + 2*B + 2*C + D) / 6.] *)
Definition rk4_mean (A B C D : list Qc) : list Qc :=
  map (fun x => x / qc 6 1)
      (Np.add (Np.add (Np.add A (Np.scale (qc 2 1) B)) (Np.scale (qc 2 1) C)) D).

End NpAux.

(** ** The working state of the substep loop *)

(** The arrays that live across substeps.  [STn] and [STp] are the two
    storage buffers the loop swaps; [PQn] is [PQn[:,q]] by outflow and
    [mSn] is [mSn[:,s]] by solute. *)
Record state : Type := {
  STn : list Qc;
  STp : list Qc;
  sTn : list Qc;
  PQn : list (list Qc);
  mSn : list (list Qc)
}.

(** Column [i+1] of the output arrays while the substeps of timestep [i]
    add to it, and row [i] of [C_Q]. *)
Record accum : Type := {
  PQ_acc : list (list Qc);
  MQ_acc : list (list (list Qc));
  MR_acc : list (list Qc);
  CQ_acc : list (list Qc)
}.

(** Everything the four stages of one substep compute (lines 367-427). *)
Record stages : Type := {
  mSp : list (list Qc);
  sTt1 : list Qc;
  PQ1 : list (list Qc);
  pQt1 : list (list Qc);
  mQ1 : list (list (list Qc));
  STt1 : list Qc;
  mR1 : list (list Qc);
  mSt1 : list (list Qc);
  PQ2 : list (list Qc);
  sTt2 : list Qc;
  pQt2 : list (list Qc);
  mQ2 : list (list (list Qc));
  STt2 : list Qc;
  mR2 : list (list Qc);
  mSt2 : list (list Qc);
  PQ3 : list (list Qc);
  sTt3 : list Qc;
  pQt3 : list (list Qc);
  mQ3 : list (list (list Qc));
  STt3 : list Qc;
  mR3 : list (list Qc);
  mSt3 : list (list Qc);
  PQ4 : list (list Qc);
  sTt4 : list Qc;
  pQt4 : list (list Qc);
  mQ4 : list (list (list Qc));
  mR4 : list (list Qc)
}.

Section Substep.

(** The run's constants and the data of timestep [i]: [Ji = J[i]],
    [Qi = Q[i,:]], [alpha_i = alpha[i,:,:]], [k1_i = k1[i,:]],
    [C_eq_i = C_eq[i,:]], [C_J_i = C_J[i,:]]. *)
Variable funs : list rSASFunctionClass.
Variables M max_age numflux numsol n : nat.
Variables h : Qc.
Variable full : bool.
Variable i : nat.
Variable Ji : Qc.
Variable Qi : list Qc.
Variable alpha_i : list (list Qc).
Variables k1_i C_eq_i C_J_i : list Qc.

(** [for q in range(numflux): PQj[:,q] = rSAS_fun[q].cdf_i(S, i)] *)
Definition eval_cdf (S : list Qc) : list (list Qc) :=
  map (fun f => cdf_i f S i) funs.

(** [pQt[1:,:] = np.diff(PQj[0:M,:], axis=0); pQt[0,:] = P0[0,:]] *)
Definition density (PQj P0 : list (list Qc)) : list (list Qc) :=
  Np.zipWith (fun col col0 => nth 0 col0 0 :: Np.diff (firstn M col)) PQj P0.

(** [sTt[1:] = np.diff(STt[0:M], axis=0); sTt[0] = STt[0]] *)
Definition increments (STt : list Qc) : list Qc :=
  nth 0 STt 0 :: Np.diff (firstn M STt).

(** [mS[:,s] * alpha[i,q,s] * Q[i,q] * pQt[:,q] / sTt]: the quotient
    array numpy evaluates before [np.where] selects from it. *)
Definition flux_quotient (sTt mS_s pQt_q : list Qc) (q s : nat) : list Np.quot :=
  Np.divide
    (Np.zipWith (fun m p => m * get2 alpha_i q s * get1 Qi q * p) mS_s pQt_q)
    sTt.

(** [np.where(sTt>0, mS[:,s] * alpha[i,q,s] * Q[i,q] * pQt[:,q] / sTt, 0.)] *)
Definition flux_select (sTt mS_s pQt_q : list Qc) (q s : nat) : list Np.quot :=
  Np.where_ (map gt0 sTt) (flux_quotient sTt mS_s pQt_q q s) 0.

(** [for q: for s: mQj[:,q,s] = np.where(...)] *)
Definition flux (sTt : list Qc) (mS pQt : list (list Qc)) : list (list (list Qc)) :=
  map (fun q =>
         map (fun s =>
                map Np.value (flux_select sTt (nth s mS []) (nth q pQt []) q s))
             (seq 0 numsol))
      (seq 0 numflux).

(** [STt[:] = np.maximum(0., STp + (J[i] - np.dot(Q[i,:], PQj.T)) * h/2)] *)
Definition trial_storage (STp_ : list Qc) (PQj : list (list Qc)) : list Qc :=
  map (float64_max 0)
      (Np.zipWith (fun sp d => sp + (Ji - d) * h / qc 2 1) STp_
                  (Np.dot Qi PQj (M + 1))).

(** [for s: mRj[:,s] = k1[i,s] * (C_eq[i,s] * sTt - mS[:,s])] *)
Definition reaction (sTt : list Qc) (mS : list (list Qc)) : list (list Qc) :=
  map (fun s =>
         Np.zipWith (fun st m => get1 k1_i s * (get1 C_eq_i s * st - m))
                    sTt (nth s mS []))
      (seq 0 numsol).

(** [np.sum(mQj[:,:,s], axis=1)] *)
Definition flux_total (mQj : list (list (list Qc))) (s : nat) : list Qc :=
  Np.sum_cols (map (fun mq => nth s mq []) mQj) M.

(** [for s: mSt[:,s] = mSp[:,s] - np.sum(mQj[:,:,s], axis=1) * h/2 + mRj[:,s] * h/2;
            mSt[0,s] += inject s] *)
Definition trial_mass (inject : nat -> Qc) (mSp_ : list (list Qc))
           (mQj : list (list (list Qc))) (mRj : list (list Qc)) : list (list Qc) :=
  map (fun s =>
         NpAux.add_first (inject s)
           (NpAux.zipWith3 (fun m out r => m - out * h / qc 2 1 + r * h / qc 2 1)
                           (nth s mSp_ []) (flux_total mQj s) (nth s mRj [])))
      (seq 0 numsol).

(** Lines 367-427, on the state after the swap [STn, STp = STp, STn]:
    [STp_] is the profile accepted by the previous substep. *)
Definition rk4_stages (STp_ sTn_ : list Qc) (mSn_ : list (list Qc)) : stages :=
  (* sTt = np.roll(sTn,1); sTt[0] = h * J[i] *)
  let sTt1_ := NpAux.set_first (h * Ji) (Np.roll1 sTn_) in
  (* mSp[1:M,:] = mSn[0:M-1,:]; mSp[0,:] = 0. *)
  let mSp_ := map (fun s => 0 :: Np.slice 0 (M - 1) (nth s mSn_ [])) (seq 0 numsol) in
  (* K1 *)
  let PQ1_ := eval_cdf STp_ in
  let pQt1_ := density PQ1_ PQ1_ in
  let mQ1_ := flux sTt1_ mSp_ pQt1_ in
  let STt1_ := trial_storage STp_ PQ1_ in
  let mR1_ := reaction sTt1_ mSp_ in
  let mSt1_ := trial_mass (fun s => Ji * get1 C_J_i s * h / qc 2 1) mSp_ mQ1_ mR1_ in
  (* K2 *)
  let PQ2_ := eval_cdf STt1_ in
  let sTt2_ := increments STt1_ in
  let pQt2_ := density PQ2_ PQ2_ in
  let mQ2_ := flux sTt2_ mSt1_ pQt2_ in
  let STt2_ := trial_storage STp_ PQ2_ in
  let mR2_ := reaction sTt2_ mSt1_ in
  let mSt2_ := trial_mass (fun s => Ji * get1 C_J_i s * h / qc 2 1) mSp_ mQ2_ mR2_ in
  (* K3; line 407 reads pQt[0,:] = PQ2[0,:] *)
  let PQ3_ := eval_cdf STt2_ in
  let sTt3_ := increments STt2_ in
  let pQt3_ := density PQ3_ PQ2_ in
  let mQ3_ := flux sTt3_ mSt2_ pQt3_ in
  let STt3_ := trial_storage STp_ PQ3_ in
  let mR3_ := reaction sTt3_ mSt2_ in
  let mSt3_ := trial_mass (fun s => Ji * get1 C_J_i s * h) mSp_ mQ3_ mR3_ in
  (* K4; line 422 reads pQt[0,:] = PQ2[0,:] *)
  let PQ4_ := eval_cdf STt3_ in
  let sTt4_ := increments STt3_ in
  let pQt4_ := density PQ4_ PQ2_ in
  let mQ4_ := flux sTt4_ mSt3_ pQt4_ in
  let mR4_ := reaction sTt4_ mSt3_ in
  {| mSp := mSp_; sTt1 := sTt1_;
     PQ1 := PQ1_; pQt1 := pQt1_; mQ1 := mQ1_; STt1 := STt1_; mR1 := mR1_; mSt1 := mSt1_;
     PQ2 := PQ2_; sTt2 := sTt2_; pQt2 := pQt2_; mQ2 := mQ2_; STt2 := STt2_;
     mR2 := mR2_; mSt2 := mSt2_;
     PQ3 := PQ3_; sTt3 := sTt3_; pQt3 := pQt3_; mQ3 := mQ3_; STt3 := STt3_;
     mR3 := mR3_; mSt3 := mSt3_;
     PQ4 := PQ4_; sTt4 := sTt4_; pQt4 := pQt4_; mQ4 := mQ4_; mR4 := mR4_ |}.

End Substep.

Section Timestep.

Variable funs : list rSASFunctionClass.
Variables M max_age numflux numsol n : nat.
Variable h : Qc.
Variable full : bool.
Variable i : nat.
Variable Ji : Qc.
Variable Qi : list Qc.
Variable alpha_i : list (list Qc).
Variables k1_i C_eq_i C_J_i : list Qc.

(** Lines 429-432: [PQn[1:M+1,:] = (PQ1 + 2*PQ2 + 2*PQ3 + PQ4)[:M,:] / 6.],
    then [PQn[:,q] = 0.] for every [q] with [Q[i,q]==0]. *)
Definition combine_PQ (PQn_ : list (list Qc)) (g : stages) : list (list Qc) :=
  map (fun q =>
         if is0 (get1 Qi q) then Np.zeros (M + 1)
         else nth 0 (nth q PQn_ []) 0
              :: Np.slice 0 M (NpAux.rk4_mean (nth q (PQ1 g) []) (nth q (PQ2 g) [])
                                              (nth q (PQ3 g) []) (nth q (PQ4 g) [])))
      (seq 0 numflux).

(** Line 433: [STn[1:M+1] = STp[0:M] + h * (J[i] - np.dot(Q[i,:], PQn[1:M+1,:].T))];
    [STn[0]] keeps the value of the buffer that is overwritten. *)
Definition advance_storage (STn_buf STp_ : list Qc) (PQn' : list (list Qc)) : list Qc :=
  nth 0 STn_buf 0
  :: Np.zipWith (fun sp d => sp + h * (Ji - d)) (Np.slice 0 M STp_)
                (Np.dot Qi (map (Np.slice 1 (M + 1)) PQn') M).

(** Lines 437-438. *)
Definition combine_mQ (g : stages) : list (list (list Qc)) :=
  map (fun q =>
         map (fun s => NpAux.rk4_mean (nth s (nth q (mQ1 g) []) []) (nth s (nth q (mQ2 g) []) [])
                                      (nth s (nth q (mQ3 g) []) []) (nth s (nth q (mQ4 g) []) []))
             (seq 0 numsol))
      (seq 0 numflux).

Definition combine_mR (g : stages) : list (list Qc) :=
  map (fun s => NpAux.rk4_mean (nth s (mR1 g) []) (nth s (mR2 g) [])
                               (nth s (mR3 g) []) (nth s (mR4 g) []))
      (seq 0 numsol).

(** Lines 440-443: [mSn[:,s] = mSp[:,s] + mRn[:,s] * h; mSn[0,s] += J[i] * C_J[i,s] * h;
    for q: mSn[:,s] += - mQn[:,q,s] * h]. *)
Definition advance_mass (g : stages) (mQn : list (list (list Qc)))
           (mRn : list (list Qc)) : list (list Qc) :=
  map (fun s =>
         fold_left (fun acc q =>
                      Np.zipWith (fun x m => x + (- m) * h) acc (nth s (nth q mQn []) []))
                   (seq 0 numflux)
                   (NpAux.add_first (Ji * get1 C_J_i s * h)
                      (Np.zipWith (fun m r => m + r * h) (nth s (mSp g) []) (nth s mRn []))))
      (seq 0 numsol).

(** Lines 444-445: [if Q[i,q]>0: C_Q[i,q,s] += np.sum(mQn[:,q,s]) / Q[i,q] / n_substeps]. *)
Definition accumulate_CQ (CQ : list (list Qc)) (mQn : list (list (list Qc))) : list (list Qc) :=
  map (fun q =>
         map (fun s =>
                if gt0 (get1 Qi q)
                then get2 CQ q s + Np.sum (nth s (nth q mQn []) []) / get1 Qi q / of_nat n
                else get2 CQ q s)
             (seq 0 numsol))
      (seq 0 numflux).

(** The substep cells one output age bin takes from the substep array [v]
    at substep [k]: bin 1 the cells [0..k], bin [a >= 2] the [n] cells
    from [k+1+(a-2)*n] on (bin 0 takes none). *)
Definition owned (k a : nat) (v : list Qc) : list Qc :=
  match a with
  | O => []
  | S O => Np.slice 0 (k + 1) v
  | S (S r) => Np.slice (k + 1 + r * n) (k + 1 + r * n + n) v
  end.

(** Lines 448-449, for one column [X = PQ[:, i+1, q]] and [v = pQn[:,q]]:
    [X[1] += np.sum(v[:k+1])/n_substeps;
     X[2:max_age+1] += np.sum(np.reshape(v[k+1:M-(n_substeps-k-1)],
                                         (max_age-1,n_substeps)), axis=1)/n_substeps] *)
Definition fold_bins (k : nat) (v X : list Qc) : list Qc :=
  match X with
  | x0 :: x1 :: rest =>
      x0 :: (x1 + Np.sum (Np.slice 0 (k + 1) v) / of_nat n)
         :: Np.zipWith (fun x r => x + r / of_nat n) rest
              (Np.row_sums (max_age - 1) n (Np.slice (k + 1) (M - (n - k - 1)) v))
  | _ => X
  end.

(** One pass of the substep loop body (lines 367-455). *)
Definition substep (k : nat) (sa : state * accum) : state * accum :=
  let st := fst sa in
  let acc := snd sa in
  (* STn, STp = STp, STn *)
  let STp_ := STn st in
  let STn_buf := STp st in
  let g := rk4_stages funs M numflux numsol h i Ji Qi alpha_i k1_i C_eq_i C_J_i
                      STp_ (sTn st) (mSn st) in
  let PQn' := combine_PQ (PQn st) g in
  let STn' := advance_storage STn_buf STp_ PQn' in
  (* sTn = np.diff(STn, axis=0); pQn = np.diff(PQn, axis=0) *)
  let sTn' := Np.diff STn' in
  let pQn := map Np.diff PQn' in
  let mQn := combine_mQ g in
  let mRn := combine_mR g in
  let mSn' := advance_mass g mQn mRn in
  let CQ' := accumulate_CQ (CQ_acc acc) mQn in
  let acc' :=
    if full then
      {| PQ_acc := map (fun q => fold_bins k (nth q pQn []) (nth q (PQ_acc acc) []))
                       (seq 0 numflux);
         MQ_acc := map (fun q =>
                          map (fun s => fold_bins k (nth s (nth q mQn []) [])
                                                  (nth s (nth q (MQ_acc acc) []) []))
                              (seq 0 numsol))
                       (seq 0 numflux);
         MR_acc := map (fun s => fold_bins k (nth s mRn []) (nth s (MR_acc acc) []))
                       (seq 0 numsol);
         CQ_acc := CQ' |}
    else
      {| PQ_acc := PQ_acc acc; MQ_acc := MQ_acc acc; MR_acc := MR_acc acc; CQ_acc := CQ' |}
  in
  ({| STn := STn'; STp := STp_; sTn := sTn'; PQn := PQn'; mSn := mSn' |}, acc').

(** Column [i+1] of the output arrays and row [i] of [C_Q] before the
    substeps of timestep [i]: all zero. *)
Definition accum0 : accum :=
  {| PQ_acc := repeat (Np.zeros (max_age + 1)) numflux;
     MQ_acc := repeat (repeat (Np.zeros (max_age + 1)) numsol) numflux;
     MR_acc := repeat (Np.zeros (max_age + 1)) numsol;
     CQ_acc := repeat (Np.zeros numsol) numflux |}.

(** [for k in range(upto)]: the first [upto] substeps of timestep [i]. *)
Definition substeps (upto : nat) (st : state) : state * accum :=
  fold_left (fun sa k => substep k sa) (seq 0 upto) (st, accum0).

End Timestep.

(** ** The time loop and the result *)

(** What timestep [i] stores: column [i+1] of [ST], [PQ], [MS], [MQ],
    [MR], column [i] of [WaterBalance] and [SoluteBalance], row [i] of
    [C_Q]. *)
Record column_out : Type := {
  ST_col : list Qc;
  PQ_col : list (list Qc);
  WB_col : list Qc;
  MS_col : list (list Qc);
  MQ_col : list (list (list Qc));
  MR_col : list (list Qc);
  CQ_row : list (list Qc);
  SB_col : list (list Qc)
}.

(** The returned dict.  Index order: [ST[t][a]], [PQ[t][q][a]],
    [WaterBalance[i][a]], [MS[t][s][a]], [MQ[t][q][s][a]], [MR[t][s][a]],
    [C_Q[i][q][s]], [SoluteBalance[i][s][a]]; [with_solutes] tells
    whether the five solute keys are present. *)
Record result : Type := {
  ST : list (list Qc);
  PQ : list (list (list Qc));
  WaterBalance : list (list Qc);
  with_solutes : bool;
  MS : list (list (list Qc));
  MQ : list (list (list (list Qc)));
  MR : list (list (list Qc));
  C_Q : list (list (list Qc));
  SoluteBalance : list (list (list Qc))
}.

(** The entries of the result in the index order of the source:
    [ST[a,t]], [PQ[a,t,q]], [WaterBalance[a,i]], [C_Q[i,q,s]]. *)
Definition ST_at (r : result) (a t : nat) : Qc := nth a (nth t (ST r) []) 0.
Definition PQ_at (r : result) (a t q : nat) : Qc :=
  nth a (nth q (nth t (PQ r) []) []) 0.
Definition WB_at (r : result) (a i : nat) : Qc := nth a (nth i (WaterBalance r) []) 0.

(** [np.dot(w, v)] of two vectors. *)
Definition dot1 (w v : list Qc) : Qc := Np.sum (Np.zipWith Qcmult w v).

(** The state carried from one timestep to the next: the working arrays
    and the columns [ST[:, i]], [MS[:, i, :]] stored last, which the
    balance of timestep [i] reads back from the output arrays. *)
Record loop_state : Type := {
  work : state;
  ST_last : list Qc;
  MS_last : list (list Qc)
}.

Section Run.

Variable a : args.
Variable ST0 : list Qc.
Variable alpha_ : list (list (list Qc)).
Variables k1_ C_eq_ C_J_ : list (list Qc).
Variable C_old_ : list Qc.

(** Lines 292-301.  [numflux] is [Q.shape[1]], which [solve] makes sure
    is [len(rSAS_fun)]; [numsol] is [C_J.shape[1]], here the length of the
    first row of [C_J]. *)
Definition numflux_ : nat := length (rSAS_fun a).
Definition timeseries_length : nat := length (J a).
Definition max_age_ : nat := length ST0 - 1.
Definition M_ : nat := max_age_ * n_substeps a.
Definition h_ : Qc := dt a / of_nat (n_substeps a).
Definition numsol_ : nat :=
  match C_J a with
  | Some c => length (hd [] c)
  | None => O
  end.

(** Lines 303-351: the working arrays after the initial conditions. *)
Definition STn_init : list Qc :=
  0 :: map (fun x => x / of_nat (n_substeps a))
           (Np.cumsum (Np.repeat_each (n_substeps a) (Np.diff ST0))).

Definition mSn_init : list (list Qc) :=
  match CS_init a with
  | Some cs =>
      map (fun s =>
             map (fun x => x / of_nat (n_substeps a))
                 (Np.repeat_each (n_substeps a)
                    (Np.diff (Np.zipWith Qcmult (column cs s) ST0))))
          (seq 0 numsol_)
  | None => repeat (Np.zeros M_) numsol_
  end.

Definition state_init : state :=
  {| STn := STn_init;
     STp := Np.zeros (M_ + 1);
     sTn := Np.diff STn_init;
     PQn := map (fun f => cdf_i f STn_init 0) (rSAS_fun a);
     mSn := mSn_init |}.

(** [np.r_[np.zeros((1, numsol)), np.cumsum(mSn, axis=0)][0:M+1:n_substeps]] *)
Definition MS_sample (mSn_ : list (list Qc)) : list (list Qc) :=
  map (fun s => Np.every (n_substeps a) (M_ + 1) (0 :: Np.cumsum (nth s mSn_ [])))
      (seq 0 numsol_).

(** Lines 355-359: column 0 of [ST], [PQ] and [MS]. *)
Definition ST_first : list Qc := Np.every (n_substeps a) (M_ + 1) (STn state_init).
Definition PQ_first : list (list Qc) :=
  map (Np.every (n_substeps a) (M_ + 1)) (PQn state_init).
Definition MS_first : list (list Qc) := MS_sample (mSn state_init).

Definition loop_init : loop_state :=
  {| work := state_init; ST_last := ST_first; MS_last := MS_first |}.

(** The substeps of timestep [i]. *)
Definition run_substeps (i upto : nat) (st : state) : state * accum :=
  substeps (rSAS_fun a) M_ max_age_ numflux_ numsol_ (n_substeps a) h_ (full_outputs a)
           i (get1 (J a) i) (nth i (Q a) []) (nth i alpha_ [])
           (nth i k1_ []) (nth i C_eq_ []) (nth i C_J_ []) upto st.

(** Lines 456-477: what is stored after the substeps of timestep [i].
    The test [if full_outputs:] of line 456 is the source's; no call
    reaches it with [False] (line 344 raises first, see [_solve_RK4]). *)
Definition store (i : nat) (ls : loop_state) (st' : state) (acc : accum) : column_out :=
  let Ji := get1 (J a) i in
  let Qi := nth i (Q a) [] in
  if full_outputs a then
    (* ST[:max_age+1, i+1] = STn[:M+1:n_substeps] *)
    let STc := Np.every (n_substeps a) (M_ + 1) (STn st') in
    (* PQ[:,i+1,:] = np.cumsum(PQ[:,i+1,:], axis=0) *)
    let PQc := map Np.cumsum (PQ_acc acc) in
    let WB_rest :=
      NpAux.zipWith3 (fun x y z => x - y - dt a * z)
        (Np.diff (Np.slice 0 max_age_ (ST_last ls)))
        (Np.diff (Np.slice 1 (max_age_ + 1) STc))
        (Np.dot Qi (map (fun col => Np.diff (skipn 1 col)) PQc) (max_age_ - 1)) in
    let WB0 :=
      Ji * dt a - nth 1 STc 0
      - dt a * dot1 Qi (map (fun col => nth 1 col 0 - nth 0 col 0) PQc) in
    let MSc := MS_sample (mSn st') in
    let MRc := map Np.cumsum (MR_acc acc) in
    let MQc := map (map Np.cumsum) (MQ_acc acc) in
    (* C_Q[i,q,s] += alpha[i,q,s] * C_old[s] * (1 - PQ[max_age, i+1, q]) *)
    let CQ' :=
      map (fun q =>
             map (fun s =>
                    get2 (CQ_acc acc) q s
                    + get3 alpha_ i q s * get1 C_old_ s * (1 - nth max_age_ (nth q PQc []) 0))
                 (seq 0 numsol_))
          (seq 0 numflux_) in
    let SBc :=
      map (fun s =>
             let MQs := map (fun mq => nth s mq []) MQc in
             (get2 C_J_ i s * Ji * dt a - nth 1 (nth s MSc []) 0
              - dt a * Np.sum (map (fun col => nth 1 col 0 - nth 0 col 0) MQs)
              + dt a * (nth 1 (nth s MRc []) 0 - nth 0 (nth s MRc []) 0))
             :: Np.zipWith (fun xy zw => fst xy - snd xy + dt a * fst zw - dt a * snd zw)
                  (combine (Np.diff (Np.slice 0 max_age_ (nth s (MS_last ls) [])))
                           (Np.diff (Np.slice 1 (max_age_ + 1) (nth s MSc []))))
                  (combine (Np.diff (skipn 1 (nth s MRc [])))
                           (Np.sum_cols (map (fun col => Np.diff (skipn 1 col)) MQs)
                                        (max_age_ - 1))))
          (seq 0 numsol_) in
    {| ST_col := STc; PQ_col := PQc; WB_col := WB0 :: WB_rest;
       MS_col := MSc; MQ_col := MQc; MR_col := MRc; CQ_row := CQ'; SB_col := SBc |}
  else
    {| ST_col := []; PQ_col := []; WB_col := [];
       MS_col := []; MQ_col := []; MR_col := []; CQ_row := CQ_acc acc; SB_col := [] |}.

(** One pass of the time loop (lines 363-478). *)
Definition timestep (i : nat) (ls : loop_state) : loop_state * column_out :=
  let sa := run_substeps i (n_substeps a) (work ls) in
  let out := store i ls (fst sa) (snd sa) in
  ({| work := fst sa;
      ST_last := if full_outputs a then ST_col out else ST_last ls;
      MS_last := if full_outputs a then MS_col out else MS_last ls |}, out).

(** [for i in range(timeseries_length)], from timestep [hd ts] on. *)
Fixpoint time_loop (ts : list nat) (ls : loop_state) : list column_out :=
  match ts with
  | [] => []
  | i :: rest => snd (timestep i ls) :: time_loop rest (fst (timestep i ls))
  end.

(** The loop state on entry to timestep [i]. *)
Fixpoint state_at (i : nat) : loop_state :=
  match i with
  | O => loop_init
  | S j => fst (timestep j (state_at j))
  end.

(** The stages computed by substep [k] of timestep [i]. *)
Definition stages_at (i k : nat) : stages :=
  let st := fst (run_substeps i k (work (state_at i))) in
  rk4_stages (rSAS_fun a) M_ numflux_ numsol_ h_ i (get1 (J a) i) (nth i (Q a) [])
             (nth i alpha_ []) (nth i k1_ []) (nth i C_eq_ []) (nth i C_J_ [])
             (STn st) (sTn st) (mSn st).

(** [pQn[:,q]] as substep [k] of timestep [i] leaves it (line 435). *)
Definition pQn_at (i k q : nat) : list Qc :=
  Np.diff (nth q (PQn (fst (run_substeps i (S k) (work (state_at i))))) []).

(** Lines 331-339 and 481-485: the arrays of the returned dict, as
    allocated with [full_outputs] (without it the allocation of line 344
    raises, see [_solve_RK4]) and filled by the loop. *)
Definition assemble (outs : list column_out) : result :=
  let sol := (0 <? numsol_)%nat in
  {| ST := ST_first :: map ST_col outs;
     PQ := PQ_first :: map PQ_col outs;
     WaterBalance := map WB_col outs;
     with_solutes := sol;
     MS := if sol then MS_first :: map MS_col outs else [];
     MQ := if sol
           then repeat (repeat (Np.zeros (max_age_ + 1)) numsol_) numflux_
                :: map MQ_col outs
           else [];
     MR := if sol then repeat (Np.zeros (max_age_ + 1)) numsol_ :: map MR_col outs else [];
     C_Q := if sol then map CQ_row outs else [];
     SoluteBalance := if sol then map SB_col outs else [] |}.

Definition run : result :=
  assemble (time_loop (seq 0 timeseries_length) loop_init).

End Run.

(** ** [_solve_RK4] and [solve] *)

Definition is_none {A} (o : option A) : bool :=
  match o with
  | None => true
  | Some _ => false
  end.

Definition or_empty {A} (o : option (list A)) : list A :=
  match o with
  | Some l => l
  | None => []
  end.

(** [_solve_RK4].  The body is the pure computation [run]; what comes
    before it are the places where the source does not get through:
    [len(ST_init)] on [None] (line 294, [TypeError]); [dt / n_substeps]
    with [n_substeps == 0] (line 296; Cython checks the divisor);
    [np.zeros] of a negative length for an empty [ST_init] (lines
    303-311); with [full_outputs=False], line 344, which assigns the 2-D
    array [np.zeros((0,0))] to [PQ], declared [np.ndarray[dtype_t,
    ndim=3]] on line 276: the buffer check raises [ValueError] on every
    such call, before the loop; with [M == 0], in the first pass of the
    loop, [pQt[0,:] = PQ1[0,:]] on an array without rows (line 377,
    [IndexError]; before it line 369 has written [sTt[0]] outside its
    buffer, unchecked under [boundscheck(False)]); and
    indexing an optional array that is [None] once the loop reaches it
    ([alpha] on line 380, [k1] and [C_eq] on line 383, [C_old] on line
    471): an unchecked read through a null buffer. *)
Definition _solve_RK4 (a : args) : exn + result :=
  match ST_init a with
  | None => inl TypeError
  | Some ST0 =>
      let looping := (0 <? length (J a))%nat in
      let sol := (0 <? numsol_ a)%nat in
      let flx := (0 <? numflux_ a)%nat in
      if (n_substeps a =? 0)%nat then inl ZeroDivisionError
      else if (length ST0 =? 0)%nat then inl ValueError
      else if negb (full_outputs a) then inl ValueError
      else if looping && (length ST0 =? 1)%nat then inl IndexError
      else if looping && sol
              && ((flx && is_none (alpha a)) || is_none (k1 a) || is_none (C_eq a))
           then inl SegmentationFault
      else if looping && sol && flx && is_none (C_old a)
           then inl SegmentationFault
      else inr (run a ST0 (or_empty (alpha a)) (or_empty (k1 a)) (or_empty (C_eq a))
                    (or_empty (C_J a)) (or_empty (C_old a)))
  end.

Definition shape1 {A} (m : list (list A)) : nat := length (hd [] m).
Definition shape2 {A} (m : list (list (list A))) : nat := length (hd [] (hd [] m)).

(** The checks of [solve] (lines 140-226) on arguments that already are
    arrays of the right rank; [Some e] is the exception raised. *)
Definition check_Q (a : args) : option exn :=
  if negb (length (Q a) =? length (J a))%nat then Some TypeError else None.

Definition check_ST_init (a : args) : option exn :=
  match ST_init a with
  | Some [] => Some IndexError
  | Some (x :: _) => if is0 x then None else Some TypeError
  | None => None
  end.

Definition check_rSAS_fun (a : args) : option exn :=
  if negb (forallb (fun row => (length row =? length (rSAS_fun a))%nat) (Q a))
  then Some TypeError else None.

(** [(X.shape[1]!=C_J.shape[1]) and (X.shape[0]!=J.shape[0])] *)
Definition mismatch (a : args) (c : list (list Qc)) (x : option (list (list Qc))) : bool :=
  match x with
  | Some k => negb (shape1 k =? shape1 c)%nat && negb (length k =? length (J a))%nat
  | None => false
  end.

Definition check_solutes (a : args) : option exn :=
  match C_J a with
  | None => None
  | Some c =>
      if negb (length c =? length (J a))%nat then Some TypeError
      else if match alpha a with
              | Some al => negb (shape2 al =? shape1 c)%nat
                           && negb (shape1 al =? shape1 (Q a))%nat
              | None => false
              end then Some TypeError
      else if mismatch a c (k1 a) then Some TypeError
      else if mismatch a c (C_eq a) then Some TypeError
      else if match C_old a with
              | Some co => negb (length co =? shape1 c)%nat
              | None => false
              end then Some TypeError
      else
        match CS_init a with
        | Some cs =>
            if negb (shape1 cs =? shape1 c)%nat
            then match ST_init a with
                 | None => Some AttributeError
                 | Some s0 => if negb (length cs =? length s0)%nat
                              then Some TypeError else None
                 end
            else None
        | None => None
        end
  end.

Definition or_else (x y : option exn) : option exn :=
  match x with
  | Some e => Some e
  | None => y
  end.

Definition validate (a : args) : option exn :=
  or_else (check_Q a)
    (or_else (check_ST_init a) (or_else (check_rSAS_fun a) (check_solutes a))).

(** The defaults [solve] fills in when [C_J] is given: [alpha] all ones,
    [k1] and [C_eq] all zeros. *)
Definition with_defaults (a : args) : args :=
  match C_J a with
  | None => a
  | Some c =>
      let n := length (J a) in
      let ns := shape1 c in
      {| J := J a; Q := Q a; rSAS_fun := rSAS_fun a; ST_init := ST_init a;
         dt := dt a; n_substeps := n_substeps a; full_outputs := full_outputs a;
         CS_init := CS_init a; C_J := C_J a;
         alpha := match alpha a with
                  | Some al => Some al
                  | None => Some (repeat (repeat (repeat 1 ns) (shape1 (Q a))) n)
                  end;
         k1 := match k1 a with
               | Some k => Some k
               | None => Some (repeat (Np.zeros ns) n)
               end;
         C_eq := match C_eq a with
                 | Some k => Some k
                 | None => Some (repeat (Np.zeros ns) n)
                 end;
         C_old := C_old a |}
  end.

(** [solve] with [mode='RK4']: input checking, then [_solve_RK4]. *)
Definition solve (a : args) : exn + result :=
  match validate a with
  | Some e => inl e
  | None => _solve_RK4 (with_defaults a)
  end.

(** ** Sums and shapes *)

(** [Sigma n f] is [f 0 + ... + f (n-1)]: the sums over outflows and
    over substeps in the statements below. *)
Definition Sigma (n : nat) (f : nat -> Qc) : Qc := Np.sum (map f (seq 0 n)).

(** [cols n len P]: [P] has [n] columns of length [len]. *)
Definition cols (n len : nat) (P : list (list Qc)) : Prop :=
  length P = n /\ Forall (fun c => length c = len) P.

(** [fluxes n m len mQ]: [mQ] holds, for each of [n] outflows, [m]
    columns of length [len]. *)
Definition fluxes (n m len : nat) (mQ : list (list (list Qc))) : Prop :=
  length mQ = n /\ forall q, (q < n)%nat -> cols m len (nth q mQ []).

(** The shapes of the arrays of the four stages: [M] by solute for the
    masses and reactions, [M+1] by outflow for the cumulative
    distributions, [M] by outflow for the densities. *)
Record stages_shaped (M numflux numsol : nat) (g : stages) : Prop := {
  sh_mSp : cols numsol M (mSp g);
  sh_sTt1 : length (sTt1 g) = M;
  sh_PQ1 : cols numflux (M + 1) (PQ1 g);
  sh_pQt1 : cols numflux M (pQt1 g);
  sh_mQ1 : fluxes numflux numsol M (mQ1 g);
  sh_STt1 : length (STt1 g) = (M + 1)%nat;
  sh_mR1 : cols numsol M (mR1 g);
  sh_mSt1 : cols numsol M (mSt1 g);
  sh_PQ2 : cols numflux (M + 1) (PQ2 g);
  sh_sTt2 : length (sTt2 g) = M;
  sh_pQt2 : cols numflux M (pQt2 g);
  sh_mQ2 : fluxes numflux numsol M (mQ2 g);
  sh_STt2 : length (STt2 g) = (M + 1)%nat;
  sh_mR2 : cols numsol M (mR2 g);
  sh_mSt2 : cols numsol M (mSt2 g);
  sh_PQ3 : cols numflux (M + 1) (PQ3 g);
  sh_sTt3 : length (sTt3 g) = M;
  sh_pQt3 : cols numflux M (pQt3 g);
  sh_mQ3 : fluxes numflux numsol M (mQ3 g);
  sh_STt3 : length (STt3 g) = (M + 1)%nat;
  sh_mR3 : cols numsol M (mR3 g);
  sh_mSt3 : cols numsol M (mSt3 g);
  sh_PQ4 : cols numflux (M + 1) (PQ4 g);
  sh_sTt4 : length (sTt4 g) = M;
  sh_pQt4 : cols numflux M (pQt4 g);
  sh_mQ4 : fluxes numflux numsol M (mQ4 g);
  sh_mR4 : cols numsol M (mR4 g)
}.

(** ** Runs *)

(** [_solve_RK4] is called with the initial profile [ST0] and returns
    the result [r]. *)
Definition returns (a : args) (ST0 : list Qc) (r : result) : Prop :=
  ST_init a = Some ST0 /\ _solve_RK4 a = inr r.

(** What the integrator assumes about its arguments (and numpy would
    reject otherwise): every rSAS function returns a distribution as long
    as the profile it is given, and every row of [Q] has one entry per
    rSAS function. *)
Definition well_shaped (a : args) : Prop :=
  (forall f S t, In f (rSAS_fun a) -> length (cdf_i f S t) = length S)
  /\ (forall i, (i < length (J a))%nat -> length (nth i (Q a) []) = length (rSAS_fun a))
  /\ (forall cs ST0, CS_init a = Some cs -> ST_init a = Some ST0 ->
                     length cs = length ST0).

(** The shapes of the working arrays: [M+1] ages of storage, [M] age
    increments, [M] ages of mass for each of [numsol] solutes. *)
Definition state_shaped (M numsol : nat) (st : state) : Prop :=
  length (STn st) = (M + 1)%nat /\ length (sTn st) = M /\ cols numsol M (mSn st).

(** The working state on entry to timestep [i], the stages of substep
    [k] of timestep [i] and the [pQn[:,q]] it leaves, in the run
    [_solve_RK4] makes of its arguments. *)
Definition state_of (a : args) (ST0 : list Qc) (i : nat) : state :=
  work (state_at a ST0 (or_empty (alpha a)) (or_empty (k1 a)) (or_empty (C_eq a))
                 (or_empty (C_J a)) (or_empty (C_old a)) i).

(** The working state on entry to substep [k] of timestep [i]; its [STn]
    is the profile the swap of line 367 makes [STp]. *)
Definition substep_state (a : args) (ST0 : list Qc) (i k : nat) : state :=
  fst (run_substeps a ST0 (or_empty (alpha a)) (or_empty (k1 a)) (or_empty (C_eq a))
                    (or_empty (C_J a)) i k (state_of a ST0 i)).


Definition stages_of (a : args) (ST0 : list Qc) (i k : nat) : stages :=
  stages_at a ST0 (or_empty (alpha a)) (or_empty (k1 a)) (or_empty (C_eq a))
            (or_empty (C_J a)) (or_empty (C_old a)) i k.

Definition pQn_of (a : args) (ST0 : list Qc) (i k q : nat) : list Qc :=
  pQn_at a ST0 (or_empty (alpha a)) (or_empty (k1 a)) (or_empty (C_eq a))
         (or_empty (C_J a)) (or_empty (C_old a)) i k q.


(** ** What the statements say about one stage *)

(** The trial profile [STt] is
    [max(0, STp + (J[i] - sum_q Q[i,q] * PQj[a,q]) * h/2)] at age [a]. *)
Definition clamped_update (numflux : nat) (h Ji : Qc) (Qi STp_ : list Qc)
           (PQj : list (list Qc)) (STt : list Qc) (a : nat) : Prop :=
  nth a STt 0
  = float64_max 0
      (nth a STp_ 0
       + (Ji - Sigma numflux (fun q => nth q Qi 0 * nth a (nth q PQj []) 0)) * h / qc 2 1).

(** The guarded per-age solute flux of [(a, q, s)]: the formula where the
    age increment is positive, 0 elsewhere. *)
Definition guarded (Qi : list Qc) (alpha_i : list (list Qc)) (sTt : list Qc)
           (mS pQt : list (list Qc)) (q s a : nat) : Qc :=
  if gt0 (nth a sTt 0)
  then nth a (nth s mS []) 0 * get2 alpha_i q s * get1 Qi q * nth a (nth q pQt []) 0
       / nth a sTt 0
  else 0.

(** What a stage does about the flux of [(a, q, s)]: the value selected by
    [np.where] is the finite number [guarded], this is what [mQj] stores,
    and the quotient evaluated beforehand is non-finite at [a] exactly
    when the age increment there is 0. *)
Definition flux_at (Qi : list Qc) (alpha_i : list (list Qc)) (sTt : list Qc)
           (mS pQt : list (list Qc)) (mQ : list (list (list Qc))) (q s a : nat) : Prop :=
  nth a (flux_select Qi alpha_i sTt (nth s mS []) (nth q pQt []) q s) Np.NonFinite
  = Np.Finite (guarded Qi alpha_i sTt mS pQt q s a)
  /\ nth a (nth s (nth q mQ []) []) 0 = guarded Qi alpha_i sTt mS pQt q s a
  /\ (nth a (flux_quotient Qi alpha_i sTt (nth s mS []) (nth q pQt []) q s) (Np.Finite 0)
      = Np.NonFinite
      <-> nth a sTt 0 = 0).

(** The reaction term of [(a, s)]: [k1[i,s] * (C_eq[i,s] * sTt[a] - mS[a,s])]. *)
Definition reaction_at (k1_i C_eq_i sTt : list Qc) (mS mR : list (list Qc))
           (s a : nat) : Prop :=
  nth a (nth s mR []) 0
  = get1 k1_i s * (get1 C_eq_i s * nth a sTt 0 - nth a (nth s mS []) 0).

(** The trial mass of [(a, s)]: [mSp - sum_q mQj * h/2 + mRj * h/2], plus
    [inject] at the freshest age [a = 0]. *)
Definition mass_at (numflux : nat) (h inject : Qc) (mSp_ : list (list Qc))
           (mQ : list (list (list Qc))) (mR mSt : list (list Qc)) (s a : nat) : Prop :=
  nth a (nth s mSt []) 0
  = nth a (nth s mSp_ []) 0
    - Sigma numflux (fun q => nth a (nth s (nth q mQ []) []) 0) * h / qc 2 1
    + nth a (nth s mR []) 0 * h / qc 2 1
    + match a with O => inject | S _ => 0 end.

(** ** The combined distribution of a substep, and its value at age 0 *)

(** [MS[a,t,s]] in the index order of the source. *)
Definition MS_at (r : result) (a t s : nat) : Qc :=
  nth a (nth s (nth t (MS r) []) []) 0.

(** The same call with every solute argument left out. *)
Definition without_solutes (a : args) : args :=
  {| J := J a; Q := Q a; rSAS_fun := rSAS_fun a; ST_init := ST_init a; dt := dt a;
     n_substeps := n_substeps a; full_outputs := full_outputs a; CS_init := None;
     C_J := None; alpha := None; k1 := None; C_eq := None; C_old := None |}.

(** Two working states with the same water arrays. *)
Definition same_water (st st' : state) : Prop :=
  STn st = STn st' /\ STp st = STp st' /\ PQn st = PQn st'.

(** [MQ[a,t,q,s]] and [MR[a,t,s]] in the index order of the source. *)
Definition MQ_at (r : result) (a t q s : nat) : Qc :=
  nth a (nth s (nth q (nth t (MQ r) []) []) []) 0.
Definition MR_at (r : result) (a t s : nat) : Qc :=
  nth a (nth s (nth t (MR r) []) []) 0.

(** ** Concrete collaborators and runs *)

(** A uniform rSAS function over the storage [[0, S0]]:
    [cdf_i(ST, i) = clip(ST / S0, 0, 1)]. *)
Definition uniform (S0 : Qc) : rSASFunctionClass :=
  {| cdf_i := fun st _ => map (fun x => float64_min 1 (float64_max 0 (x / S0))) st |}.

(** The call [solve(J, Q, rSAS_fun, ST_init=ST_init)] with every other
    keyword at its default. *)
Definition call (J_ : list Qc) (Q_ : list (list Qc)) (f : list rSASFunctionClass)
           (ST_init_ : option (list Qc)) (n : nat) : args :=
  {| J := J_; Q := Q_; rSAS_fun := f; ST_init := ST_init_; dt := 1; n_substeps := n;
     full_outputs := true; CS_init := None; C_J := None; alpha := None; k1 := None;
     C_eq := None; C_old := None |}.

(** The same call with inflow concentrations [C_J] and [C_old]. *)
Definition call_solutes (J_ : list Qc) (Q_ : list (list Qc)) (f : list rSASFunctionClass)
           (ST_init_ : option (list Qc)) (n : nat)
           (C_J_ : list (list Qc)) (C_old_ : option (list Qc)) : args :=
  {| J := J_; Q := Q_; rSAS_fun := f; ST_init := ST_init_; dt := 1; n_substeps := n;
     full_outputs := true; CS_init := None; C_J := Some C_J_; alpha := None; k1 := None;
     C_eq := None; C_old := C_old_ |}.

(** A dry timestep with a large outflow: [J = [0]], [Q = [[10]]],
    [ST_init = [0, 1, 2]], one substep, uniform rSAS over [[0, 2]]. *)
Definition ex_dry : args :=
  call [0] [[qc 10 1]] [uniform (qc 2 1)] (Some [0; 1; qc 2 1]) 1.

Definition ex_dry_result : result := run ex_dry [0; 1; qc 2 1] [] [] [] [] [].

(** Two timesteps of two substeps with inflow and outflow 1, three ages. *)
Definition ex_wet : args :=
  call [1; 1] [[1]; [1]] [uniform (qc 2 1)] (Some [0; 1; qc 3 2]) 2.

Definition ex_wet_result : result := run ex_wet [0; 1; qc 3 2] [] [] [] [] [].

(** The same run with a solute: [C_J = [[3], [3]]], [C_old = [5]];
    [alpha], [k1] and [C_eq] as [solve] defaults them. *)
Definition ex_solute : args :=
  with_defaults
    (call_solutes [1; 1] [[1]; [1]] [uniform (qc 2 1)] (Some [0; 1; qc 3 2]) 2
                  [[qc 3 1]; [qc 3 1]] (Some [qc 5 1])).

Definition ex_solute_result : result :=
  run ex_solute [0; 1; qc 3 2] [[[1]]; [[1]]] [[0]; [0]] [[0]; [0]]
      [[qc 3 1]; [qc 3 1]] [qc 5 1].



(** [J = [2]], [Q = [[1]]], [ST_init = [0, 1]], uniform rSAS over [[0, 4]]. *)
Definition ex_stage3 : args :=
  call [qc 2 1] [[1]] [uniform (qc 4 1)] (Some [0; 1]) 1.

(** A dry timestep with a solute in storage: the freshest age bin is
    empty, [sTt[0] = h * J[0] = 0]. *)
Definition ex_empty_bin : args :=
  with_defaults
    (call_solutes [0] [[1]] [uniform (qc 2 1)] (Some [0; 1; qc 2 1]) 1 [[qc 3 1]] (Some [0])).

(** [solve(J, Q, rSAS_fun)]: the optional [ST_init] left out. *)
Definition ex_no_ST_init : args := call [1] [[1]] [uniform (qc 2 1)] None 1.

(** [solve(J, Q, rSAS_fun, ST_init=[0, 1], C_J=[3])]: solutes, the
    optional [C_old] left out. *)
Definition ex_no_C_old : args :=
  call_solutes [1] [[1]] [uniform (qc 2 1)] (Some [0; 1]) 1 [[qc 3 1]] None.

(** The call of [ex_wet] with [full_outputs=False]. *)
Definition ex_not_full : args :=
  {| J := [1; 1]; Q := [[1]; [1]]; rSAS_fun := [uniform (qc 2 1)];
     ST_init := Some [0; 1; qc 3 2]; dt := 1; n_substeps := 2;
     full_outputs := false; CS_init := None; C_J := None; alpha := None; k1 := None;
     C_eq := None; C_old := None |}.

(** * The same code in binary64 *)

(** The integrator once more, with [np.float64] as it is: Rocq's
    primitive binary64 floats, every operation rounded as IEEE 754
    prescribes, in the order the source evaluates it.  The statements
    whose content is the exact value of what is computed (the first
    column, the aggregation into output bins, the water balance) are
    about this module; the array algebra above does not see rounding.

    numpy's reductions add sequentially here: [np.cumsum] does,
    [np.sum] does for fewer than 8 terms (longer arrays are added in
    blocks), and [np.dot] is a single product per entry when there is
    one outflow (with several, BLAS decides the order).  No statement
    below reassociates a sum: each names the reduction the source
    calls. *)
Module F64.

Import PrimFloat.
Local Open Scope float_scope.

(** ** Scalars *)

(** An [int] used in float arithmetic (exact below [2^53]). *)
Fixpoint of_nat (n : nat) : float :=
  match n with
  | O => 0
  | S m => of_nat m + 1
  end.

(** [x > 0] and [x == 0]. *)
Definition gt0 (x : float) : bool := ltb 0 x.
Definition is0 (x : float) : bool := eqb x 0.

(** [cdef inline float64_max(a, b): return a if a >= b else b] *)
Definition float64_max (a b : float) : float := if leb b a then a else b.
Definition float64_min (a b : float) : float := if leb a b then a else b.

(** [np.maximum(a, b)] of two floats: the larger, and [nan] if either
    is [nan]. *)
Definition maximum (a b : float) : float :=
  if (leb b a || is_nan a)%bool then a else b.

(** ** The numpy operations the solver uses *)

Module Np64.

Definition zeros (n : nat) : list float := repeat 0 n.

Definition add (u v : list float) : list float := Np.zipWith PrimFloat.add u v.
Definition scale (c : float) (v : list float) : list float := map (fun x => c * x) v.

(** [np.sum(l)]: the entries added one after the other. *)
Definition sum (l : list float) : float := fold_left PrimFloat.add l 0.

(** [np.diff(l)]: [l[j+1] - l[j]]. *)
Definition diff (l : list float) : list float :=
  Np.zipWith (fun b a => b - a) (tl l) l.

Fixpoint cumsum_from (acc : float) (l : list float) : list float :=
  match l with
  | [] => []
  | x :: t => (acc + x) :: cumsum_from (acc + x) t
  end.

(** [np.cumsum(l)]: [out[0] = l[0]], [out[j] = out[j-1] + l[j]]. *)
Definition cumsum (l : list float) : list float :=
  match l with
  | [] => []
  | x :: t => x :: cumsum_from x t
  end.

(** [l.repeat(n, axis=0)]: every entry [n] times in a row. *)
Definition repeat_each (n : nat) (l : list float) : list float :=
  flat_map (fun x => repeat x n) l.

(** [np.roll(l, 1)]. *)
Definition roll1 (l : list float) : list float :=
  match l with
  | [] => []
  | _ => last l 0 :: removelast l
  end.

(** [l[0:stop:n]] for [n >= 1]. *)
Definition every (n stop : nat) (l : list float) : list float :=
  let l' := firstn stop l in
  map (fun j => nth (j * n) l' 0) (seq 0 ((length l' + n - 1) / n)).

(** [l[lo:hi]]. *)
Definition slice (lo hi : nat) (l : list float) : list float :=
  firstn (hi - lo) (skipn lo l).

(** [np.sum(np.reshape(l, (rows, n)), axis=1)]. *)
Definition row_sums (rows n : nat) (l : list float) : list float :=
  map (fun r => sum (slice (r * n) (r * n + n) l)) (seq 0 rows).

(** Row [a] of a matrix stored by columns: [P[a,:]]. *)
Definition row (P : list (list float)) (a : nat) : list float :=
  map (fun col => nth a col 0) P.

(** [np.dot(w, v)] of two vectors. *)
Definition dot1 (w v : list float) : float := sum (Np.zipWith mul w v).

(** [np.dot(w, P.T)] for a matrix stored by columns: the vector of the
    [np.dot(w, P[a,:])], [a < len]. *)
Definition dot (w : list float) (P : list (list float)) (len : nat) : list float :=
  map (fun a => dot1 w (row P a)) (seq 0 len).

(** [np.sum(P, axis=1)] for a matrix stored by columns. *)
Definition sum_cols (P : list (list float)) (len : nat) : list float :=
  map (fun a => sum (row P a)) (seq 0 len).

(** [u / v], elementwise, evaluated for every index (a division by
    [0.0] gives [inf] or [nan], it does not raise). *)
Definition divide (u v : list float) : list float := Np.zipWith div u v.

(** [np.where(c, x, y)] with a scalar [y]: a select over values that
    were all computed beforehand. *)
Definition where_ (c : list bool) (x : list float) (y : float) : list float :=
  Np.zipWith (fun (b : bool) v => if b then v else y) c x.

(** [l[0] = x] *)
Definition set_first (x : float) (l : list float) : list float :=
  match l with
  | [] => []
  | _ :: t => x :: t
  end.

(** [l[0] += x] *)
Definition add_first (x : float) (l : list float) : list float :=
  match l with
  | [] => []
  | a :: t => (a + x) :: t
  end.

(** [(A + 2*B + 2*C + D) / 6.] *)
Definition rk4_mean (A B C D : list float) : list float :=
  map (fun x => x / 6) (add (add (add A (scale 2 B)) (scale 2 C)) D).

End Np64.

(** ** The collaborators, the arguments and the working state *)

Record rSASFunctionClass : Type := {
  cdf_i : list float -> nat -> list float
}.

(** Index order as in the source: [Q[i][q]], [C_J[i][s]],
    [alpha[i][q][s]], [k1[i][s]], [C_eq[i][s]], [CS_init[a][s]]. *)
Record args : Type := {
  J : list float;
  Q : list (list float);
  rSAS_fun : list rSASFunctionClass;
  ST_init : option (list float);
  dt : float;
  n_substeps : nat;
  full_outputs : bool;
  CS_init : option (list (list float));
  C_J : option (list (list float));
  alpha : option (list (list (list float)));
  k1 : option (list (list float));
  C_eq : option (list (list float));
  C_old : option (list float)
}.

Definition get1 (v : list float) (i : nat) : float := nth i v 0.
Definition get2 (m : list (list float)) (i j : nat) : float := nth j (nth i m []) 0.
Definition get3 (m : list (list (list float))) (i j k : nat) : float :=
  nth k (nth j (nth i m []) []) 0.

(** Column [s] of an array stored by rows. *)
Definition column (m : list (list float)) (s : nat) : list float :=
  map (fun row => nth s row 0) m.

(** The arrays that live across substeps; [PQn] by outflow, [mSn] by
    solute. *)
Record state : Type := {
  STn : list float;
  STp : list float;
  sTn : list float;
  PQn : list (list float);
  mSn : list (list float)
}.

(** Column [i+1] of the output arrays while the substeps of timestep [i]
    add to it, and row [i] of [C_Q]. *)
Record accum : Type := {
  PQ_acc : list (list float);
  MQ_acc : list (list (list float));
  MR_acc : list (list float);
  CQ_acc : list (list float)
}.

(** What the four stages of one substep hand to the finalisation (lines
    429-443): the cumulative distributions, the solute fluxes and the
    reaction terms of the stages, and [mSp]. *)
Record stages : Type := {
  mSp : list (list float);
  PQ1 : list (list float);
  mQ1 : list (list (list float));
  mR1 : list (list float);
  PQ2 : list (list float);
  mQ2 : list (list (list float));
  mR2 : list (list float);
  PQ3 : list (list float);
  mQ3 : list (list (list float));
  mR3 : list (list float);
  PQ4 : list (list float);
  mQ4 : list (list (list float));
  mR4 : list (list float)
}.

Section Substep.

Variable funs : list rSASFunctionClass.
Variables M max_age numflux numsol n : nat.
Variables h : float.
Variable full : bool.
Variable i : nat.
Variable Ji : float.
Variable Qi : list float.
Variable alpha_i : list (list float).
Variables k1_i C_eq_i C_J_i : list float.

(** [for q in range(numflux): PQj[:,q] = rSAS_fun[q].cdf_i(S, i)] *)
Definition eval_cdf (S : list float) : list (list float) :=
  map (fun f => cdf_i f S i) funs.

(** [pQt[1:,:] = np.diff(PQj[0:M,:], axis=0); pQt[0,:] = P0[0,:]] *)
Definition density (PQj P0 : list (list float)) : list (list float) :=
  Np.zipWith (fun col col0 => nth 0 col0 0 :: Np64.diff (firstn M col)) PQj P0.

(** [sTt[1:] = np.diff(STt[0:M], axis=0); sTt[0] = STt[0]] *)
Definition increments (STt : list float) : list float :=
  nth 0 STt 0 :: Np64.diff (firstn M STt).

(** [np.where(sTt>0, mS[:,s] * alpha[i,q,s] * Q[i,q] * pQt[:,q] / sTt, 0.)] *)
Definition flux_select (sTt mS_s pQt_q : list float) (q s : nat) : list float :=
  Np64.where_
    (map gt0 sTt)
    (Np64.divide
       (Np.zipWith (fun m p => m * get2 alpha_i q s * get1 Qi q * p) mS_s pQt_q)
       sTt)
    0.

(** [for q: for s: mQj[:,q,s] = np.where(...)] *)
Definition flux (sTt : list float) (mS pQt : list (list float))
  : list (list (list float)) :=
  map (fun q =>
         map (fun s => flux_select sTt (nth s mS []) (nth q pQt []) q s)
             (seq 0 numsol))
      (seq 0 numflux).

(** [STt[:] = np.maximum(0., STp + (J[i] - np.dot(Q[i,:], PQj.T)) * h/2)] *)
Definition trial_storage (STp_ : list float) (PQj : list (list float)) : list float :=
  map (maximum 0)
      (Np.zipWith (fun sp d => sp + (Ji - d) * h / 2) STp_
                  (Np64.dot Qi PQj (M + 1))).

(** [for s: mRj[:,s] = k1[i,s] * (C_eq[i,s] * sTt - mS[:,s])] *)
Definition reaction (sTt : list float) (mS : list (list float)) : list (list float) :=
  map (fun s =>
         Np.zipWith (fun st m => get1 k1_i s * (get1 C_eq_i s * st - m))
                    sTt (nth s mS []))
      (seq 0 numsol).

(** [np.sum(mQj[:,:,s], axis=1)] *)
Definition flux_total (mQj : list (list (list float))) (s : nat) : list float :=
  Np64.sum_cols (map (fun mq => nth s mq []) mQj) M.

(** [for s: mSt[:,s] = mSp[:,s] - np.sum(mQj[:,:,s], axis=1) * h/2 + mRj[:,s] * h/2;
            mSt[0,s] += inject s] *)
Definition trial_mass (inject : nat -> float) (mSp_ : list (list float))
           (mQj : list (list (list float))) (mRj : list (list float))
  : list (list float) :=
  map (fun s =>
         Np64.add_first (inject s)
           (NpAux.zipWith3 (fun m out r => m - out * h / 2 + r * h / 2)
                           (nth s mSp_ []) (flux_total mQj s) (nth s mRj [])))
      (seq 0 numsol).

(** Lines 367-427, on the state after the swap [STn, STp = STp, STn]:
    [STp_] is the profile accepted by the previous substep. *)
Definition rk4_stages (STp_ sTn_ : list float) (mSn_ : list (list float)) : stages :=
  (* sTt = np.roll(sTn,1); sTt[0] = h * J[i] *)
  let sTt1_ := Np64.set_first (h * Ji) (Np64.roll1 sTn_) in
  (* mSp[1:M,:] = mSn[0:M-1,:]; mSp[0,:] = 0. *)
  let mSp_ := map (fun s => 0 :: Np64.slice 0 (M - 1) (nth s mSn_ [])) (seq 0 numsol) in
  (* K1 *)
  let PQ1_ := eval_cdf STp_ in
  let pQt1_ := density PQ1_ PQ1_ in
  let mQ1_ := flux sTt1_ mSp_ pQt1_ in
  let STt1_ := trial_storage STp_ PQ1_ in
  let mR1_ := reaction sTt1_ mSp_ in
  let mSt1_ := trial_mass (fun s => Ji * get1 C_J_i s * h / 2) mSp_ mQ1_ mR1_ in
  (* K2 *)
  let PQ2_ := eval_cdf STt1_ in
  let sTt2_ := increments STt1_ in
  let pQt2_ := density PQ2_ PQ2_ in
  let mQ2_ := flux sTt2_ mSt1_ pQt2_ in
  let STt2_ := trial_storage STp_ PQ2_ in
  let mR2_ := reaction sTt2_ mSt1_ in
  let mSt2_ := trial_mass (fun s => Ji * get1 C_J_i s * h / 2) mSp_ mQ2_ mR2_ in
  (* K3; line 407 reads pQt[0,:] = PQ2[0,:] *)
  let PQ3_ := eval_cdf STt2_ in
  let sTt3_ := increments STt2_ in
  let pQt3_ := density PQ3_ PQ2_ in
  let mQ3_ := flux sTt3_ mSt2_ pQt3_ in
  let STt3_ := trial_storage STp_ PQ3_ in
  let mR3_ := reaction sTt3_ mSt2_ in
  let mSt3_ := trial_mass (fun s => Ji * get1 C_J_i s * h) mSp_ mQ3_ mR3_ in
  (* K4; line 422 reads pQt[0,:] = PQ2[0,:] *)
  let PQ4_ := eval_cdf STt3_ in
  let sTt4_ := increments STt3_ in
  let pQt4_ := density PQ4_ PQ2_ in
  let mQ4_ := flux sTt4_ mSt3_ pQt4_ in
  let mR4_ := reaction sTt4_ mSt3_ in
  {| mSp := mSp_;
     PQ1 := PQ1_; mQ1 := mQ1_; mR1 := mR1_;
     PQ2 := PQ2_; mQ2 := mQ2_; mR2 := mR2_;
     PQ3 := PQ3_; mQ3 := mQ3_; mR3 := mR3_;
     PQ4 := PQ4_; mQ4 := mQ4_; mR4 := mR4_ |}.

(** Lines 429-432: [PQn[1:M+1,:] = (PQ1 + 2*PQ2 + 2*PQ3 + PQ4)[:M,:] / 6.],
    then [PQn[:,q] = 0.] for every [q] with [Q[i,q]==0]. *)
Definition combine_PQ (PQn_ : list (list float)) (g : stages) : list (list float) :=
  map (fun q =>
         if is0 (get1 Qi q) then Np64.zeros (M + 1)
         else nth 0 (nth q PQn_ []) 0
              :: Np64.slice 0 M (Np64.rk4_mean (nth q (PQ1 g) []) (nth q (PQ2 g) [])
                                               (nth q (PQ3 g) []) (nth q (PQ4 g) [])))
      (seq 0 numflux).

(** Line 433: [STn[1:M+1] = STp[0:M] + h * (J[i] - np.dot(Q[i,:], PQn[1:M+1,:].T))];
    [STn[0]] keeps the value of the buffer that is overwritten. *)
Definition advance_storage (STn_buf STp_ : list float) (PQn' : list (list float))
  : list float :=
  nth 0 STn_buf 0
  :: Np.zipWith (fun sp d => sp + h * (Ji - d)) (Np64.slice 0 M STp_)
                (Np64.dot Qi (map (Np64.slice 1 (M + 1)) PQn') M).

(** Lines 437-438. *)
Definition combine_mQ (g : stages) : list (list (list float)) :=
  map (fun q =>
         map (fun s => Np64.rk4_mean (nth s (nth q (mQ1 g) []) []) (nth s (nth q (mQ2 g) []) [])
                                     (nth s (nth q (mQ3 g) []) []) (nth s (nth q (mQ4 g) []) []))
             (seq 0 numsol))
      (seq 0 numflux).

Definition combine_mR (g : stages) : list (list float) :=
  map (fun s => Np64.rk4_mean (nth s (mR1 g) []) (nth s (mR2 g) [])
                              (nth s (mR3 g) []) (nth s (mR4 g) []))
      (seq 0 numsol).

(** Lines 440-443: [mSn[:,s] = mSp[:,s] + mRn[:,s] * h; mSn[0,s] += J[i] * C_J[i,s] * h;
    for q: mSn[:,s] += - mQn[:,q,s] * h]. *)
Definition advance_mass (g : stages) (mQn : list (list (list float)))
           (mRn : list (list float)) : list (list float) :=
  map (fun s =>
         fold_left (fun acc q =>
                      Np.zipWith (fun x m => x + (- m) * h) acc (nth s (nth q mQn []) []))
                   (seq 0 numflux)
                   (Np64.add_first (Ji * get1 C_J_i s * h)
                      (Np.zipWith (fun m r => m + r * h) (nth s (mSp g) []) (nth s mRn []))))
      (seq 0 numsol).

(** Lines 444-445: [if Q[i,q]>0: C_Q[i,q,s] += np.sum(mQn[:,q,s]) / Q[i,q] / n_substeps]. *)
Definition accumulate_CQ (CQ : list (list float)) (mQn : list (list (list float)))
  : list (list float) :=
  map (fun q =>
         map (fun s =>
                if gt0 (get1 Qi q)
                then get2 CQ q s + Np64.sum (nth s (nth q mQn []) []) / get1 Qi q / of_nat n
                else get2 CQ q s)
             (seq 0 numsol))
      (seq 0 numflux).

(** The substep cells one output age bin takes from the substep array [v]
    at substep [k]: bin 1 the cells [0..k], bin [a >= 2] the [n] cells
    from [k+1+(a-2)*n] on (bin 0 takes none). *)
Definition owned (k a : nat) (v : list float) : list float :=
  match a with
  | O => []
  | S O => Np64.slice 0 (k + 1) v
  | S (S r) => Np64.slice (k + 1 + r * n) (k + 1 + r * n + n) v
  end.

(** Lines 448-449, for one column [X = PQ[:, i+1, q]] and [v = pQn[:,q]]:
    [X[1] += np.sum(v[:k+1])/n_substeps;
     X[2:max_age+1] += np.sum(np.reshape(v[k+1:M-(n_substeps-k-1)],
                                         (max_age-1,n_substeps)), axis=1)/n_substeps] *)
Definition fold_bins (k : nat) (v X : list float) : list float :=
  match X with
  | x0 :: x1 :: rest =>
      x0 :: (x1 + Np64.sum (Np64.slice 0 (k + 1) v) / of_nat n)
         :: Np.zipWith (fun x r => x + r / of_nat n) rest
              (Np64.row_sums (max_age - 1) n (Np64.slice (k + 1) (M - (n - k - 1)) v))
  | _ => X
  end.

(** One pass of the substep loop body (lines 367-455). *)
Definition substep (k : nat) (sa : state * accum) : state * accum :=
  let st := fst sa in
  let acc := snd sa in
  (* STn, STp = STp, STn *)
  let STp_ := STn st in
  let STn_buf := STp st in
  let g := rk4_stages STp_ (sTn st) (mSn st) in
  let PQn' := combine_PQ (PQn st) g in
  let STn' := advance_storage STn_buf STp_ PQn' in
  (* sTn = np.diff(STn, axis=0); pQn = np.diff(PQn, axis=0) *)
  let sTn' := Np64.diff STn' in
  let pQn := map Np64.diff PQn' in
  let mQn := combine_mQ g in
  let mRn := combine_mR g in
  let mSn' := advance_mass g mQn mRn in
  let CQ' := accumulate_CQ (CQ_acc acc) mQn in
  let acc' :=
    if full then
      {| PQ_acc := map (fun q => fold_bins k (nth q pQn []) (nth q (PQ_acc acc) []))
                       (seq 0 numflux);
         MQ_acc := map (fun q =>
                          map (fun s => fold_bins k (nth s (nth q mQn []) [])
                                                  (nth s (nth q (MQ_acc acc) []) []))
                              (seq 0 numsol))
                       (seq 0 numflux);
         MR_acc := map (fun s => fold_bins k (nth s mRn []) (nth s (MR_acc acc) []))
                       (seq 0 numsol);
         CQ_acc := CQ' |}
    else
      {| PQ_acc := PQ_acc acc; MQ_acc := MQ_acc acc; MR_acc := MR_acc acc; CQ_acc := CQ' |}
  in
  ({| STn := STn'; STp := STp_; sTn := sTn'; PQn := PQn'; mSn := mSn' |}, acc').

(** Column [i+1] of the output arrays and row [i] of [C_Q] before the
    substeps of timestep [i]: all zero. *)
Definition accum0 : accum :=
  {| PQ_acc := repeat (Np64.zeros (max_age + 1)) numflux;
     MQ_acc := repeat (repeat (Np64.zeros (max_age + 1)) numsol) numflux;
     MR_acc := repeat (Np64.zeros (max_age + 1)) numsol;
     CQ_acc := repeat (Np64.zeros numsol) numflux |}.

(** [for k in range(upto)]: the first [upto] substeps of timestep [i]. *)
Definition substeps (upto : nat) (st : state) : state * accum :=
  fold_left (fun sa k => substep k sa) (seq 0 upto) (st, accum0).

End Substep.

(** ** The time loop and the result *)

Record column_out : Type := {
  ST_col : list float;
  PQ_col : list (list float);
  WB_col : list float;
  MS_col : list (list float);
  MQ_col : list (list (list float));
  MR_col : list (list float);
  CQ_row : list (list float);
  SB_col : list (list float)
}.

(** The returned dict.  Index order: [ST[t][a]], [PQ[t][q][a]],
    [WaterBalance[i][a]], [MS[t][s][a]], [MQ[t][q][s][a]], [MR[t][s][a]],
    [C_Q[i][q][s]], [SoluteBalance[i][s][a]]. *)
Record result : Type := {
  ST : list (list float);
  PQ : list (list (list float));
  WaterBalance : list (list float);
  with_solutes : bool;
  MS : list (list (list float));
  MQ : list (list (list (list float)));
  MR : list (list (list float));
  C_Q : list (list (list float));
  SoluteBalance : list (list (list float))
}.

(** [ST[a,t]], [PQ[a,t,q]], [WaterBalance[a,i]] in the index order of the
    source. *)
Definition ST_at (r : result) (a t : nat) : float := nth a (nth t (ST r) []) 0.
Definition PQ_at (r : result) (a t q : nat) : float :=
  nth a (nth q (nth t (PQ r) []) []) 0.
Definition WB_at (r : result) (a i : nat) : float := nth a (nth i (WaterBalance r) []) 0.

(** The state carried from one timestep to the next: the working arrays
    and the columns [ST[:, i]], [MS[:, i, :]] stored last. *)
Record loop_state : Type := {
  work : state;
  ST_last : list float;
  MS_last : list (list float)
}.

Section Run.

Variable a : args.
Variable ST0 : list float.
Variable alpha_ : list (list (list float)).
Variables k1_ C_eq_ C_J_ : list (list float).
Variable C_old_ : list float.

(** Lines 292-301. *)
Definition numflux_ : nat := length (rSAS_fun a).
Definition timeseries_length : nat := length (J a).
Definition max_age_ : nat := length ST0 - 1.
Definition M_ : nat := max_age_ * n_substeps a.
Definition h_ : float := dt a / of_nat (n_substeps a).
Definition numsol_ : nat :=
  match C_J a with
  | Some c => length (hd [] c)
  | None => O
  end.

(** Lines 303 and 349: [STn = np.zeros(M+1);
    STn[1:] = np.cumsum(np.diff(ST_init).repeat(n_substeps, axis=0))/n_substeps]. *)
Definition STn_init : list float :=
  0 :: map (fun x => x / of_nat (n_substeps a))
           (Np64.cumsum (Np64.repeat_each (n_substeps a) (Np64.diff ST0))).

(** Lines 352-354. *)
Definition mSn_init : list (list float) :=
  match CS_init a with
  | Some cs =>
      map (fun s =>
             map (fun x => x / of_nat (n_substeps a))
                 (Np64.repeat_each (n_substeps a)
                    (Np64.diff (Np.zipWith mul (column cs s) ST0))))
          (seq 0 numsol_)
  | None => repeat (Np64.zeros M_) numsol_
  end.

Definition state_init : state :=
  {| STn := STn_init;
     STp := Np64.zeros (M_ + 1);
     sTn := Np64.diff STn_init;
     PQn := map (fun f => cdf_i f STn_init 0) (rSAS_fun a);
     mSn := mSn_init |}.

(** [np.r_[np.zeros((1, numsol)), np.cumsum(mSn, axis=0)][0:M+1:n_substeps]] *)
Definition MS_sample (mSn_ : list (list float)) : list (list float) :=
  map (fun s => Np64.every (n_substeps a) (M_ + 1) (0 :: Np64.cumsum (nth s mSn_ [])))
      (seq 0 numsol_).

(** Lines 355-359: column 0 of [ST], [PQ] and [MS]. *)
Definition ST_first : list float := Np64.every (n_substeps a) (M_ + 1) (STn state_init).
Definition PQ_first : list (list float) :=
  map (Np64.every (n_substeps a) (M_ + 1)) (PQn state_init).
Definition MS_first : list (list float) := MS_sample (mSn state_init).

Definition loop_init : loop_state :=
  {| work := state_init; ST_last := ST_first; MS_last := MS_first |}.

(** The substeps of timestep [i]. *)
Definition run_substeps (i upto : nat) (st : state) : state * accum :=
  substeps (rSAS_fun a) M_ max_age_ numflux_ numsol_ (n_substeps a) h_ (full_outputs a)
           i (get1 (J a) i) (nth i (Q a) []) (nth i alpha_ [])
           (nth i k1_ []) (nth i C_eq_ []) (nth i C_J_ []) upto st.

(** Lines 456-477: what is stored after the substeps of timestep [i];
    [ST_last ls] is the column [ST[:, i]] the balance reads back. *)
Definition store (i : nat) (ls : loop_state) (st' : state) (acc : accum) : column_out :=
  let Ji := get1 (J a) i in
  let Qi := nth i (Q a) [] in
  if full_outputs a then
    (* ST[:max_age+1, i+1] = STn[:M+1:n_substeps] *)
    let STc := Np64.every (n_substeps a) (M_ + 1) (STn st') in
    (* PQ[:,i+1,:] = np.cumsum(PQ[:,i+1,:], axis=0) *)
    let PQc := map Np64.cumsum (PQ_acc acc) in
    (* WaterBalance[1:max_age, i] = np.diff(ST[0:max_age, i])
         - np.diff(ST[1:max_age+1, i+1])
         - dt * np.dot(Q[i,:], np.diff(PQ[1:,i+1,:],axis=0).T) *)
    let WB_rest :=
      NpAux.zipWith3 (fun x y z => x - y - dt a * z)
        (Np64.diff (Np64.slice 0 max_age_ (ST_last ls)))
        (Np64.diff (Np64.slice 1 (max_age_ + 1) STc))
        (Np64.dot Qi (map (fun col => Np64.diff (skipn 1 col)) PQc) (max_age_ - 1)) in
    (* WaterBalance[0, i] = J[i] * dt - ST[1, i+1]
         - dt * np.dot(Q[i,:], PQ[1,i+1,:] - PQ[0,i+1,:]) *)
    let WB0 :=
      Ji * dt a - nth 1 STc 0
      - dt a * Np64.dot1 Qi (map (fun col => nth 1 col 0 - nth 0 col 0) PQc) in
    let MSc := MS_sample (mSn st') in
    let MRc := map Np64.cumsum (MR_acc acc) in
    let MQc := map (map Np64.cumsum) (MQ_acc acc) in
    (* C_Q[i,q,s] += alpha[i,q,s] * C_old[s] * (1 - PQ[max_age, i+1, q]) *)
    let CQ' :=
      map (fun q =>
             map (fun s =>
                    get2 (CQ_acc acc) q s
                    + get3 alpha_ i q s * get1 C_old_ s * (1 - nth max_age_ (nth q PQc []) 0))
                 (seq 0 numsol_))
          (seq 0 numflux_) in
    (* lines 474-477 *)
    let SBc :=
      map (fun s =>
             let MQs := map (fun mq => nth s mq []) MQc in
             (get2 C_J_ i s * Ji * dt a - nth 1 (nth s MSc []) 0
              - dt a * Np64.sum (map (fun col => nth 1 col 0 - nth 0 col 0) MQs)
              + dt a * (nth 1 (nth s MRc []) 0 - nth 0 (nth s MRc []) 0))
             :: Np.zipWith (fun xy zw => fst xy - snd xy + dt a * fst zw - dt a * snd zw)
                  (combine (Np64.diff (Np64.slice 0 max_age_ (nth s (MS_last ls) [])))
                           (Np64.diff (Np64.slice 1 (max_age_ + 1) (nth s MSc []))))
                  (combine (Np64.diff (skipn 1 (nth s MRc [])))
                           (Np64.sum_cols (map (fun col => Np64.diff (skipn 1 col)) MQs)
                                          (max_age_ - 1))))
          (seq 0 numsol_) in
    {| ST_col := STc; PQ_col := PQc; WB_col := WB0 :: WB_rest;
       MS_col := MSc; MQ_col := MQc; MR_col := MRc; CQ_row := CQ'; SB_col := SBc |}
  else
    {| ST_col := []; PQ_col := []; WB_col := [];
       MS_col := []; MQ_col := []; MR_col := []; CQ_row := CQ_acc acc; SB_col := [] |}.

(** One pass of the time loop (lines 363-478). *)
Definition timestep (i : nat) (ls : loop_state) : loop_state * column_out :=
  let sa := run_substeps i (n_substeps a) (work ls) in
  let out := store i ls (fst sa) (snd sa) in
  ({| work := fst sa;
      ST_last := if full_outputs a then ST_col out else ST_last ls;
      MS_last := if full_outputs a then MS_col out else MS_last ls |}, out).

(** [for i in range(timeseries_length)], from timestep [hd ts] on. *)
Fixpoint time_loop (ts : list nat) (ls : loop_state) : list column_out :=
  match ts with
  | [] => []
  | i :: rest => snd (timestep i ls) :: time_loop rest (fst (timestep i ls))
  end.

(** The loop state on entry to timestep [i]. *)
Fixpoint state_at (i : nat) : loop_state :=
  match i with
  | O => loop_init
  | S j => fst (timestep j (state_at j))
  end.

(** Lines 331-339 and 481-485: the arrays of the returned dict. *)
Definition assemble (outs : list column_out) : result :=
  let sol := (0 <? numsol_)%nat in
  {| ST := ST_first :: map ST_col outs;
     PQ := PQ_first :: map PQ_col outs;
     WaterBalance := map WB_col outs;
     with_solutes := sol;
     MS := if sol then MS_first :: map MS_col outs else [];
     MQ := if sol
           then repeat (repeat (Np64.zeros (max_age_ + 1)) numsol_) numflux_
                :: map MQ_col outs
           else [];
     MR := if sol then repeat (Np64.zeros (max_age_ + 1)) numsol_ :: map MR_col outs else [];
     C_Q := if sol then map CQ_row outs else [];
     SoluteBalance := if sol then map SB_col outs else [] |}.

Definition run : result :=
  assemble (time_loop (seq 0 timeseries_length) loop_init).

End Run.

(** [_solve_RK4]: the places where the source does not get through (see
    [_solve_RK4] above), then the computation. *)
Definition _solve_RK4 (a : args) : exn + result :=
  match ST_init a with
  | None => inl TypeError
  | Some ST0 =>
      let looping := (0 <? length (J a))%nat in
      let sol := (0 <? numsol_ a)%nat in
      let flx := (0 <? numflux_ a)%nat in
      if (n_substeps a =? 0)%nat then inl ZeroDivisionError
      else if (length ST0 =? 0)%nat then inl ValueError
      else if negb (full_outputs a) then inl ValueError
      else if looping && (length ST0 =? 1)%nat then inl IndexError
      else if looping && sol
              && ((flx && is_none (alpha a)) || is_none (k1 a) || is_none (C_eq a))
           then inl SegmentationFault
      else if looping && sol && flx && is_none (C_old a)
           then inl SegmentationFault
      else inr (run a ST0 (or_empty (alpha a)) (or_empty (k1 a)) (or_empty (C_eq a))
                    (or_empty (C_J a)) (or_empty (C_old a)))
  end.

(** ** Runs *)

Definition returns (a : args) (ST0 : list float) (r : result) : Prop :=
  ST_init a = Some ST0 /\ _solve_RK4 a = inr r.

(** The loop state on entry to timestep [i], and the working state and
    the running output columns on entry to substep [k] of timestep [i],
    in the run [_solve_RK4] makes of its arguments. *)
Definition loop_state_of (a : args) (ST0 : list float) (i : nat) : loop_state :=
  state_at a ST0 (or_empty (alpha a)) (or_empty (k1 a)) (or_empty (C_eq a))
           (or_empty (C_J a)) (or_empty (C_old a)) i.

Definition substep_state (a : args) (ST0 : list float) (i k : nat) : state :=
  fst (run_substeps a ST0 (or_empty (alpha a)) (or_empty (k1 a)) (or_empty (C_eq a))
                    (or_empty (C_J a)) i k (work (loop_state_of a ST0 i))).

(** [pQn[:,q]] as substep [k] of timestep [i] leaves it (line 435). *)
Definition pQn_of (a : args) (ST0 : list float) (i k q : nat) : list float :=
  Np64.diff (nth q (PQn (substep_state a ST0 i (S k))) []).





(** ** Concrete collaborators and runs *)

#[local] Set Warnings "-inexact-float".

(** A uniform rSAS function over the storage [[0, S0]]:
    [cdf_i(ST, i) = clip(ST / S0, 0, 1)]. *)
Definition uniform (S0 : float) : rSASFunctionClass :=
  {| cdf_i := fun st _ => map (fun x => float64_min 1 (float64_max 0 (x / S0))) st |}.

(** The call [_solve_RK4(J, Q, rSAS_fun, ST_init=ST_init,
    n_substeps=n)] with every other keyword at its default. *)
Definition call (J_ : list float) (Q_ : list (list float)) (f : list rSASFunctionClass)
           (ST_init_ : option (list float)) (n : nat) : args :=
  {| J := J_; Q := Q_; rSAS_fun := f; ST_init := ST_init_; dt := 1; n_substeps := n;
     full_outputs := true; CS_init := None; C_J := None; alpha := None; k1 := None;
     C_eq := None; C_old := None |}.



(** The same flows on four ages, [ST_init = [0, 1, 1.5, 1.75]]. *)
Definition ex_quarters : args :=
  call [1; 1] [[1]; [1]] [uniform 2] (Some [0; 1; 1.5; 1.75]) 3.

Definition ex_quarters_result : result :=
  run ex_quarters [0; 1; 1.5; 1.75] [] [] [] [] [].

End F64.

(** * Properties *)

(** ** Scalars *)

Lemma leb_true (x y : Qc) : leb x y = true <-> x <= y.
Proof. unfold leb, Qcle. apply Qle_bool_iff. Qed.

Lemma leb_false (x y : Qc) : leb x y = false <-> y < x.
Proof.
  split; intro H.
  - apply Qcnot_le_lt. intro Hle. apply leb_true in Hle. congruence.
  - destruct (leb x y) eqn:E; [|reflexivity].
    apply leb_true in E. exfalso. exact (Qclt_not_le _ _ H E).
Qed.

Lemma is0_true (x : Qc) : is0 x = true <-> x = 0.
Proof.
  unfold is0, eqb. split; intro H.
  - apply Qc_is_canon. apply Qeq_bool_iff. exact H.
  - subst. reflexivity.
Qed.

Lemma gt0_not_is0 (x : Qc) : gt0 x = true -> is0 x = false.
Proof.
  intro H. destruct (is0 x) eqn:E; [|reflexivity].
  apply is0_true in E. subst. discriminate H.
Qed.

Lemma float64_max_0_nonneg (x : Qc) : 0 <= float64_max 0 x.
Proof.
  unfold float64_max. destruct (leb x 0) eqn:E.
  - apply Qcle_refl.
  - apply Qclt_le_weak. apply leb_false. exact E.
Qed.

(** ** Arrays *)

Section ZipFacts.

Context {A B C D : Type}.

Lemma zipWith_length (f : A -> B -> C) (l : list A) (l' : list B) :
  length (Np.zipWith f l l') = Nat.min (length l) (length l').
Proof.
  revert l'. induction l as [|x t IH]; intros [|y t']; simpl; auto.
Qed.

Lemma nth_zipWith (f : A -> B -> C) (l : list A) (l' : list B) (a : nat) dA dB dC :
  (a < length l)%nat -> (a < length l')%nat ->
  nth a (Np.zipWith f l l') dC = f (nth a l dA) (nth a l' dB).
Proof.
  revert l' a. induction l as [|x t IH]; intros [|y t'] a Hl Hl'; simpl in *; try lia.
  destruct a as [|a]; [reflexivity|]. apply IH; lia.
Qed.

Lemma zipWith3_length (f : A -> B -> C -> D) l1 l2 l3 :
  length (NpAux.zipWith3 f l1 l2 l3)
  = Nat.min (length l1) (Nat.min (length l2) (length l3)).
Proof.
  revert l2 l3. induction l1 as [|x t IH]; intros [|y t2] [|z t3]; simpl; auto.
Qed.

Lemma nth_zipWith3 (f : A -> B -> C -> D) l1 l2 l3 (a : nat) dA dB dC dD :
  (a < length l1)%nat -> (a < length l2)%nat -> (a < length l3)%nat ->
  nth a (NpAux.zipWith3 f l1 l2 l3) dD = f (nth a l1 dA) (nth a l2 dB) (nth a l3 dC).
Proof.
  revert l2 l3 a.
  induction l1 as [|x t IH]; intros [|y t2] [|z t3] a H1 H2 H3; simpl in *; try lia.
  destruct a as [|a]; [reflexivity|]. apply IH; lia.
Qed.

End ZipFacts.

Lemma nth_map_seq {A} (f : nat -> A) (n a : nat) (d : A) :
  (a < n)%nat -> nth a (map f (seq 0 n)) d = f a.
Proof.
  intro H. rewrite (nth_indep _ d (f 0%nat)) by (rewrite length_map, length_seq; exact H).
  rewrite (map_nth f (seq 0 n) 0%nat a). rewrite seq_nth by exact H. reflexivity.
Qed.

Lemma zeros_length (n : nat) : length (Np.zeros n) = n.
Proof. apply repeat_length. Qed.

Lemma nth_zeros (n a : nat) : nth a (Np.zeros n) 0 = 0.
Proof.
  unfold Np.zeros. revert a. induction n as [|n IH]; intros [|a]; simpl; auto.
Qed.

Lemma diff_length (l : list Qc) : length (Np.diff l) = (length l - 1)%nat.
Proof.
  unfold Np.diff. rewrite zipWith_length. destruct l; simpl; lia.
Qed.

Lemma slice_length (lo hi : nat) (l : list Qc) :
  (hi <= length l)%nat -> length (Np.slice lo hi l) = (hi - lo)%nat.
Proof.
  intro H. unfold Np.slice. rewrite length_firstn, length_skipn. lia.
Qed.

Lemma nth_slice (lo hi a : nat) (l : list Qc) :
  (a < hi - lo)%nat -> nth a (Np.slice lo hi l) 0 = nth (lo + a) l 0.
Proof.
  intro H. unfold Np.slice. rewrite nth_firstn.
  destruct (Nat.ltb_spec a (hi - lo)); [|lia]. apply nth_skipn.
Qed.

Lemma add_length (u v : list Qc) :
  length (Np.add u v) = Nat.min (length u) (length v).
Proof. apply zipWith_length. Qed.

Lemma scale_length (c : Qc) (v : list Qc) : length (Np.scale c v) = length v.
Proof. apply length_map. Qed.

Lemma nth_scale (c : Qc) (v : list Qc) (a : nat) :
  nth a (Np.scale c v) 0 = c * nth a v 0.
Proof.
  unfold Np.scale. rewrite <- (Qcmult_0_r c) at 1.
  apply (map_nth (fun x => c * x)).
Qed.

Lemma nth_add (u v : list Qc) (a : nat) :
  (a < length u)%nat -> (a < length v)%nat ->
  nth a (Np.add u v) 0 = nth a u 0 + nth a v 0.
Proof. intros. apply nth_zipWith; assumption. Qed.

Lemma Sigma_S (n : nat) (f : nat -> Qc) : Sigma (S n) f = Sigma n f + f n.
Proof.
  unfold Sigma. rewrite seq_S, map_app. simpl.
  generalize (map f (seq 0 n)) as l. induction l as [|x t IH]; simpl.
  - ring.
  - rewrite IH. ring.
Qed.

Lemma Sigma_ext (n : nat) (f g : nat -> Qc) :
  (forall q, (q < n)%nat -> f q = g q) -> Sigma n f = Sigma n g.
Proof.
  intro H. induction n as [|n IH]; [reflexivity|].
  rewrite !Sigma_S, IH, H by auto. reflexivity.
Qed.

Lemma sum_combine_seq (w : list Qc) (P : list (list Qc)) (g : list Qc -> Qc) (n : nat) :
  length w = n -> length P = n ->
  Np.sum (map (fun wc => fst wc * g (snd wc)) (combine w P))
  = Sigma n (fun q => nth q w 0 * g (nth q P [])).
Proof.
  revert P n. induction w as [|x t IH]; intros [|c P] [|n] Hw HP; simpl in *;
    try discriminate; try reflexivity.
  unfold Sigma. simpl. rewrite <- seq_shift, map_map.
  f_equal. apply IH; lia.
Qed.

Lemma sum_map_seq (P : list (list Qc)) (g : list Qc -> Qc) (n : nat) :
  length P = n -> Np.sum (map g P) = Sigma n (fun q => g (nth q P [])).
Proof.
  revert n. induction P as [|c P IH]; intros [|n] HP; simpl in *;
    try discriminate; try reflexivity.
  unfold Sigma. simpl. rewrite <- seq_shift, map_map.
  f_equal. apply IH; lia.
Qed.

Lemma dot_fold_length (wp : list (Qc * list Qc)) (acc : list Qc) :
  Forall (fun wc => (length acc <= length (snd wc))%nat) wp ->
  length (fold_left (fun acc wc => Np.add acc (Np.scale (fst wc) (snd wc))) wp acc)
  = length acc.
Proof.
  revert acc. induction wp as [|[w c] wp IH]; intros acc H; simpl; [reflexivity|].
  inversion H as [|? ? Hc Hrest]; subst. simpl in Hc.
  assert (Hlen : length (Np.add acc (Np.scale w c)) = length acc)
    by (rewrite add_length, scale_length; lia).
  rewrite IH; [exact Hlen|]. rewrite Hlen. exact Hrest.
Qed.

Lemma nth_dot_fold (wp : list (Qc * list Qc)) (acc : list Qc) (a : nat) :
  (a < length acc)%nat ->
  Forall (fun wc => (length acc <= length (snd wc))%nat) wp ->
  nth a (fold_left (fun acc wc => Np.add acc (Np.scale (fst wc) (snd wc))) wp acc) 0
  = nth a acc 0 + Np.sum (map (fun wc => fst wc * nth a (snd wc) 0) wp).
Proof.
  revert acc. induction wp as [|[w c] wp IH]; intros acc Ha H; simpl.
  - ring.
  - inversion H as [|? ? Hc Hrest]; subst. simpl in Hc.
    assert (Hlen : length (Np.add acc (Np.scale w c)) = length acc)
      by (rewrite add_length, scale_length; lia).
    rewrite IH; [|lia|rewrite Hlen; exact Hrest].
    rewrite nth_add, nth_scale by (rewrite ?scale_length; lia). ring.
Qed.

Lemma Forall_combine_snd {A B} (P : B -> Prop) (w : list A) (l : list B) :
  Forall P l -> Forall (fun wc => P (snd wc)) (combine w l).
Proof.
  revert l. induction w as [|x t IH]; intros [|c l] H; simpl; try constructor.
  - inversion H; assumption.
  - apply IH. inversion H; assumption.
Qed.

Lemma dot_length (w : list Qc) (P : list (list Qc)) (len : nat) :
  Forall (fun col => (len <= length col)%nat) P ->
  length (Np.dot w P len) = len.
Proof.
  intro H. unfold Np.dot. rewrite dot_fold_length; [apply zeros_length|].
  rewrite zeros_length. apply (Forall_combine_snd (fun c => (len <= length c)%nat)).
  exact H.
Qed.

(** [np.dot(w, P.T)[a]] is [sum_q w[q] * P[a,q]]. *)
Lemma nth_dot (w : list Qc) (P : list (list Qc)) (len n a : nat) :
  (a < len)%nat -> length w = n -> length P = n ->
  Forall (fun col => (len <= length col)%nat) P ->
  nth a (Np.dot w P len) 0 = Sigma n (fun q => nth q w 0 * nth a (nth q P []) 0).
Proof.
  intros Ha Hw HP H. unfold Np.dot.
  rewrite nth_dot_fold.
  - rewrite nth_zeros, Qcplus_0_l.
    apply (sum_combine_seq w P (fun col => nth a col 0)); assumption.
  - rewrite zeros_length. exact Ha.
  - rewrite zeros_length. apply (Forall_combine_snd (fun c => (len <= length c)%nat)).
    exact H.
Qed.

Lemma sum_cols_fold_length (P : list (list Qc)) (acc : list Qc) :
  Forall (fun col => (length acc <= length col)%nat) P ->
  length (fold_left Np.add P acc) = length acc.
Proof.
  revert acc. induction P as [|c P IH]; intros acc H; simpl; [reflexivity|].
  inversion H as [|? ? Hc Hrest]; subst.
  assert (Hlen : length (Np.add acc c) = length acc) by (rewrite add_length; lia).
  rewrite IH; [exact Hlen|]. rewrite Hlen. exact Hrest.
Qed.

Lemma nth_sum_cols_fold (P : list (list Qc)) (acc : list Qc) (a : nat) :
  (a < length acc)%nat ->
  Forall (fun col => (length acc <= length col)%nat) P ->
  nth a (fold_left Np.add P acc) 0
  = nth a acc 0 + Np.sum (map (fun col => nth a col 0) P).
Proof.
  revert acc. induction P as [|c P IH]; intros acc Ha H; simpl.
  - ring.
  - inversion H as [|? ? Hc Hrest]; subst.
    assert (Hlen : length (Np.add acc c) = length acc) by (rewrite add_length; lia).
    rewrite IH; [|lia|rewrite Hlen; exact Hrest].
    rewrite nth_add by lia. ring.
Qed.

Lemma sum_cols_length (P : list (list Qc)) (len : nat) :
  Forall (fun col => (len <= length col)%nat) P ->
  length (Np.sum_cols P len) = len.
Proof.
  intro H. unfold Np.sum_cols. rewrite sum_cols_fold_length; [apply zeros_length|].
  rewrite zeros_length. exact H.
Qed.

(** [np.sum(P, axis=1)[a]] is [sum_q P[a,q]]. *)
Lemma nth_sum_cols (P : list (list Qc)) (len n a : nat) :
  (a < len)%nat -> length P = n ->
  Forall (fun col => (len <= length col)%nat) P ->
  nth a (Np.sum_cols P len) 0 = Sigma n (fun q => nth a (nth q P []) 0).
Proof.
  intros Ha HP H. unfold Np.sum_cols.
  rewrite nth_sum_cols_fold; rewrite ?zeros_length; auto.
  rewrite nth_zeros, Qcplus_0_l.
  apply (sum_map_seq P (fun col => nth a col 0)). exact HP.
Qed.

Lemma rk4_mean_length (A B C D : list Qc) (len : nat) :
  length A = len -> length B = len -> length C = len -> length D = len ->
  length (NpAux.rk4_mean A B C D) = len.
Proof.
  intros. unfold NpAux.rk4_mean.
  rewrite length_map, !add_length, !scale_length. lia.
Qed.

(** ** Shapes *)

Lemma cols_nth (n len : nat) (P : list (list Qc)) (q : nat) :
  cols n len P -> (q < n)%nat -> length (nth q P []) = len.
Proof.
  intros [Hn HP] Hq. rewrite Forall_forall in HP. apply HP.
  apply nth_In. lia.
Qed.

Lemma cols_map_seq (n len : nat) (f : nat -> list Qc) :
  (forall q, (q < n)%nat -> length (f q) = len) -> cols n len (map f (seq 0 n)).
Proof.
  intro H. split.
  - rewrite length_map, length_seq. reflexivity.
  - rewrite Forall_forall. intros c Hc. apply in_map_iff in Hc.
    destruct Hc as [q [<- Hq]]. apply in_seq in Hq. apply H. lia.
Qed.

Lemma cols_map (n len len' : nat) (f : list Qc -> list Qc) (P : list (list Qc)) :
  (forall c, length c = len -> length (f c) = len') ->
  cols n len P -> cols n len' (map f P).
Proof.
  intros Hf [Hn HP]. split.
  - rewrite length_map. exact Hn.
  - rewrite Forall_forall in *. intros c Hc. apply in_map_iff in Hc.
    destruct Hc as [c0 [<- Hc0]]. apply Hf. apply HP. exact Hc0.
Qed.

Lemma cols_le (n len len' : nat) (P : list (list Qc)) :
  cols n len P -> (len' <= len)%nat -> Forall (fun c => (len' <= length c)%nat) P.
Proof.
  intros [_ HP] Hle. rewrite Forall_forall in *. intros c Hc.
  rewrite (HP c Hc). exact Hle.
Qed.

Lemma roll1_length (l : list Qc) : length (Np.roll1 l) = length l.
Proof.
  destruct l as [|x t]; [reflexivity|].
  unfold Np.roll1. rewrite removelast_firstn_len.
  cbn [length]. rewrite length_firstn. cbn [length]. lia.
Qed.

Lemma set_first_length (x : Qc) (l : list Qc) :
  length (NpAux.set_first x l) = length l.
Proof. destruct l; reflexivity. Qed.

Lemma add_first_length (x : Qc) (l : list Qc) :
  length (NpAux.add_first x l) = length l.
Proof. destruct l; reflexivity. Qed.

Lemma nth_add_first (x : Qc) (l : list Qc) (a : nat) :
  (0 < length l)%nat ->
  nth a (NpAux.add_first x l) 0
  = match a with O => nth 0 l 0 + x | S _ => nth a l 0 end.
Proof. destruct l as [|y t]; simpl; [lia|]. destruct a; reflexivity. Qed.

Lemma eval_cdf_cols (funs : list rSASFunctionClass) (numflux i : nat)
      (S : list Qc) (len : nat) :
  length funs = numflux ->
  (forall f S t, In f funs -> length (cdf_i f S t) = length S) ->
  length S = len -> cols numflux len (eval_cdf funs i S).
Proof.
  intros Hfuns Hcdf HS. unfold eval_cdf. split.
  - rewrite length_map. exact Hfuns.
  - rewrite Forall_forall. intros c Hc. apply in_map_iff in Hc.
    destruct Hc as [f [<- Hf]]. rewrite Hcdf by exact Hf. exact HS.
Qed.

Section StageShapes.

Variables M numflux numsol : nat.
Variable h : Qc.
Variable Ji : Qc.
Variable Qi : list Qc.
Variable alpha_i : list (list Qc).
Variables k1_i C_eq_i : list Qc.

Hypothesis HM : (1 <= M)%nat.

Lemma trial_storage_length (STp_ : list Qc) (PQj : list (list Qc)) :
  length STp_ = (M + 1)%nat -> cols numflux (M + 1) PQj ->
  length (trial_storage M h Ji Qi STp_ PQj) = (M + 1)%nat.
Proof.
  clear HM.
  intros HS HP. unfold trial_storage.
  rewrite length_map, zipWith_length, dot_length by (eapply cols_le; eauto).
  lia.
Qed.

Lemma increments_length (STt : list Qc) :
  length STt = (M + 1)%nat -> length (increments M STt) = M.
Proof.
  intro HS. unfold increments. cbn [length].
  rewrite diff_length, length_firstn. lia.
Qed.

Lemma density_cols (PQj P0 : list (list Qc)) :
  cols numflux (M + 1) PQj -> cols numflux (M + 1) P0 ->
  cols numflux M (density M PQj P0).
Proof.
  intros [Hn HP] [Hn0 HP0]. unfold density. split.
  - rewrite zipWith_length. lia.
  - clear Hn Hn0. revert P0 HP0.
    induction PQj as [|c P IH]; intros [|c0 P0] HP0; simpl; try constructor.
    + cbn [length]. rewrite diff_length, length_firstn.
      inversion HP; subst. lia.
    + inversion HP; inversion HP0; subst. apply IH; assumption.
Qed.

Lemma flux_select_length (sTt mS_s pQt_q : list Qc) (q s : nat) :
  length sTt = M -> length mS_s = M -> length pQt_q = M ->
  length (flux_select Qi alpha_i sTt mS_s pQt_q q s) = M.
Proof.
  clear HM.
  intros H1 H2 H3. unfold flux_select, flux_quotient, Np.where_, Np.divide.
  rewrite !zipWith_length, length_map. lia.
Qed.

Lemma flux_cols (sTt : list Qc) (mS pQt : list (list Qc)) (q : nat) :
  length sTt = M -> cols numsol M mS -> cols numflux M pQt -> (q < numflux)%nat ->
  cols numsol M (nth q (flux numflux numsol Qi alpha_i sTt mS pQt) []).
Proof.
  clear HM.
  intros H1 H2 H3 Hq. unfold flux. rewrite nth_map_seq by exact Hq.
  apply cols_map_seq. intros s Hs. rewrite length_map.
  apply flux_select_length; auto; eapply cols_nth; eauto.
Qed.

Lemma reaction_cols (sTt : list Qc) (mS : list (list Qc)) :
  length sTt = M -> cols numsol M mS ->
  cols numsol M (reaction numsol k1_i C_eq_i sTt mS).
Proof.
  clear HM.
  intros H1 H2. unfold reaction. apply cols_map_seq. intros s Hs.
  rewrite zipWith_length, (cols_nth _ _ _ s H2 Hs). lia.
Qed.

Lemma flux_total_length (mQj : list (list (list Qc))) (s : nat) :
  (forall q, (q < numflux)%nat -> cols numsol M (nth q mQj [])) ->
  length mQj = numflux -> (s < numsol)%nat ->
  length (flux_total M mQj s) = M.
Proof.
  clear HM.
  intros H Hn Hs. unfold flux_total. apply sum_cols_length.
  rewrite Forall_forall. intros c Hc. apply in_map_iff in Hc.
  destruct Hc as [mq [<- Hmq]].
  destruct (In_nth _ _ [] Hmq) as [q [Hq <-]].
  rewrite (cols_nth _ _ _ s (H q ltac:(lia)) Hs). lia.
Qed.

Lemma flux_length (sTt : list Qc) (mS pQt : list (list Qc)) :
  length (flux numflux numsol Qi alpha_i sTt mS pQt) = numflux.
Proof. unfold flux. rewrite length_map, length_seq. reflexivity. Qed.

Lemma trial_mass_cols (inject : nat -> Qc) (mSp_ : list (list Qc))
      (mQj : list (list (list Qc))) (mRj : list (list Qc)) :
  cols numsol M mSp_ -> cols numsol M mRj ->
  (forall q, (q < numflux)%nat -> cols numsol M (nth q mQj [])) ->
  length mQj = numflux ->
  cols numsol M (trial_mass M numsol h inject mSp_ mQj mRj).
Proof.
  clear HM.
  intros H1 H2 H3 H4. unfold trial_mass. apply cols_map_seq. intros s Hs.
  rewrite add_first_length, zipWith3_length, flux_total_length by auto.
  rewrite (cols_nth _ _ _ s H1 Hs), (cols_nth _ _ _ s H2 Hs). lia.
Qed.

End StageShapes.

Section StagesShaped.

Variable funs : list rSASFunctionClass.
Variables M numflux numsol : nat.
Variable h : Qc.
Variable i : nat.
Variable Ji : Qc.
Variable Qi : list Qc.
Variable alpha_i : list (list Qc).
Variables k1_i C_eq_i C_J_i : list Qc.
Variables STp_ sTn_ : list Qc.
Variable mSn_ : list (list Qc).

Hypothesis HM : (1 <= M)%nat.
Hypothesis Hfuns : length funs = numflux.
Hypothesis Hcdf :
  forall f S t, In f funs -> length (cdf_i f S t) = length S.
Hypothesis HSTp : length STp_ = (M + 1)%nat.
Hypothesis HsTn : length sTn_ = M.
Hypothesis HmSn : cols numsol M mSn_.

Lemma flux_fluxes (sTt : list Qc) (mS pQt : list (list Qc)) :
  length sTt = M -> cols numsol M mS -> cols numflux M pQt ->
  fluxes numflux numsol M (flux numflux numsol Qi alpha_i sTt mS pQt).
Proof.
  intros H1 H2 H3. split.
  - apply flux_length.
  - intros q Hq. eapply flux_cols; eassumption.
Qed.

Lemma rk4_stages_shaped :
  stages_shaped M numflux numsol
    (rk4_stages funs M numflux numsol h i Ji Qi alpha_i k1_i C_eq_i C_J_i
                STp_ sTn_ mSn_).
Proof.
  set (g := rk4_stages _ _ _ _ _ _ _ _ _ _ _ _ _ _ _).
  assert (EmSp : cols numsol M (mSp g)).
  { apply cols_map_seq. intros s Hs. cbn [length].
    rewrite slice_length by (rewrite (cols_nth _ _ _ s HmSn Hs); lia). lia. }
  assert (EsTt1 : length (sTt1 g) = M).
  { cbn. rewrite set_first_length, roll1_length. exact HsTn. }
  assert (EPQ1 : cols numflux (M + 1) (PQ1 g))
    by (eapply eval_cdf_cols; eassumption).
  assert (EpQt1 : cols numflux M (pQt1 g))
    by (eapply density_cols; eassumption).
  assert (EmQ1 : fluxes numflux numsol M (mQ1 g))
    by (apply flux_fluxes; assumption).
  assert (ESTt1 : length (STt1 g) = (M + 1)%nat)
    by (eapply trial_storage_length; eassumption).
  assert (EmR1 : cols numsol M (mR1 g))
    by (eapply reaction_cols; eassumption).
  assert (EmSt1 : cols numsol M (mSt1 g))
    by (destruct EmQ1; eapply trial_mass_cols; eassumption).
  assert (EPQ2 : cols numflux (M + 1) (PQ2 g))
    by (eapply eval_cdf_cols; eassumption).
  assert (EsTt2 : length (sTt2 g) = M)
    by (eapply increments_length; eassumption).
  assert (EpQt2 : cols numflux M (pQt2 g))
    by (eapply density_cols; eassumption).
  assert (EmQ2 : fluxes numflux numsol M (mQ2 g))
    by (apply flux_fluxes; assumption).
  assert (ESTt2 : length (STt2 g) = (M + 1)%nat)
    by (eapply trial_storage_length; eassumption).
  assert (EmR2 : cols numsol M (mR2 g))
    by (eapply reaction_cols; eassumption).
  assert (EmSt2 : cols numsol M (mSt2 g))
    by (destruct EmQ2; eapply trial_mass_cols; eassumption).
  assert (EPQ3 : cols numflux (M + 1) (PQ3 g))
    by (eapply eval_cdf_cols; eassumption).
  assert (EsTt3 : length (sTt3 g) = M)
    by (eapply increments_length; eassumption).
  assert (EpQt3 : cols numflux M (pQt3 g))
    by (eapply density_cols; eassumption).
  assert (EmQ3 : fluxes numflux numsol M (mQ3 g))
    by (apply flux_fluxes; assumption).
  assert (ESTt3 : length (STt3 g) = (M + 1)%nat)
    by (eapply trial_storage_length; eassumption).
  assert (EmR3 : cols numsol M (mR3 g))
    by (eapply reaction_cols; eassumption).
  assert (EmSt3 : cols numsol M (mSt3 g))
    by (destruct EmQ3; eapply trial_mass_cols; eassumption).
  assert (EPQ4 : cols numflux (M + 1) (PQ4 g))
    by (eapply eval_cdf_cols; eassumption).
  assert (EsTt4 : length (sTt4 g) = M)
    by (eapply increments_length; eassumption).
  assert (EpQt4 : cols numflux M (pQt4 g))
    by (eapply density_cols; eassumption).
  assert (EmQ4 : fluxes numflux numsol M (mQ4 g))
    by (apply flux_fluxes; assumption).
  assert (EmR4 : cols numsol M (mR4 g))
    by (eapply reaction_cols; eassumption).
  constructor; assumption.
Qed.

End StagesShaped.

(** ** The stages of one substep *)

Lemma uniform_shape (S0 : Qc) (f : rSASFunctionClass) (S : list Qc) (t : nat) :
  In f [uniform S0] -> length (cdf_i f S t) = length S.
Proof.
  intros [<-|[]]. unfold uniform. cbn [cdf_i]. apply length_map.
Qed.

Lemma nth_trial_storage (M numflux : nat) (h Ji : Qc) (Qi STp_ : list Qc)
      (PQj : list (list Qc)) (a : nat) :
  length STp_ = (M + 1)%nat -> length Qi = numflux -> cols numflux (M + 1) PQj ->
  (a <= M)%nat ->
  clamped_update numflux h Ji Qi STp_ PQj (trial_storage M h Ji Qi STp_ PQj) a.
Proof.
  intros HS HQ HP Ha. unfold clamped_update, trial_storage.
  assert (Hle : Forall (fun c => (M + 1 <= length c)%nat) PQj)
    by (eapply cols_le; eauto).
  rewrite (nth_indep _ 0 (float64_max 0 0))
    by (rewrite length_map, zipWith_length, dot_length by exact Hle; lia).
  rewrite (map_nth (float64_max 0)).
  rewrite (nth_zipWith _ _ _ _ 0 0) by (rewrite ?dot_length by exact Hle; lia).
  rewrite (nth_dot _ _ _ numflux) by (destruct HP; auto; lia).
  reflexivity.
Qed.

Lemma nth_flux_select (Qi : list Qc) (alpha_i : list (list Qc)) (sTt mS_s pQt_q : list Qc)
      (q s a : nat) :
  (a < length sTt)%nat -> (a < length mS_s)%nat -> (a < length pQt_q)%nat ->
  nth a (flux_select Qi alpha_i sTt mS_s pQt_q q s) Np.NonFinite
  = if gt0 (nth a sTt 0)
    then Np.Finite (nth a mS_s 0 * get2 alpha_i q s * get1 Qi q * nth a pQt_q 0 / nth a sTt 0)
    else Np.Finite 0.
Proof.
  intros H1 H2 H3. unfold flux_select, flux_quotient, Np.where_, Np.divide.
  rewrite (nth_zipWith _ _ _ _ false Np.NonFinite)
    by (rewrite ?length_map, ?zipWith_length; lia).
  rewrite (nth_zipWith _ _ _ _ 0 0) by (rewrite ?zipWith_length; lia).
  rewrite (nth_zipWith _ _ _ _ 0 0) by lia.
  rewrite (nth_indep _ false (gt0 0)) by (rewrite length_map; lia).
  rewrite (map_nth gt0).
  destruct (gt0 (nth a sTt 0)) eqn:E; [|reflexivity].
  unfold Np.divide1. rewrite (gt0_not_is0 _ E). reflexivity.
Qed.

Lemma nth_flux_quotient (Qi : list Qc) (alpha_i : list (list Qc)) (sTt mS_s pQt_q : list Qc)
      (q s a : nat) :
  (a < length sTt)%nat -> (a < length mS_s)%nat -> (a < length pQt_q)%nat ->
  nth a (flux_quotient Qi alpha_i sTt mS_s pQt_q q s) (Np.Finite 0) = Np.NonFinite
  <-> nth a sTt 0 = 0.
Proof.
  intros H1 H2 H3. unfold flux_quotient, Np.divide.
  rewrite (nth_zipWith _ _ _ _ 0 0) by (rewrite ?zipWith_length; lia).
  unfold Np.divide1. rewrite <- is0_true.
  destruct (is0 (nth a sTt 0)); split; intro H; try reflexivity; discriminate H.
Qed.

Lemma flux_guarded (M numflux numsol : nat) (Qi : list Qc) (alpha_i : list (list Qc))
      (sTt : list Qc) (mS pQt : list (list Qc)) (q s a : nat) :
  length sTt = M -> cols numsol M mS -> cols numflux M pQt ->
  (q < numflux)%nat -> (s < numsol)%nat -> (a < M)%nat ->
  flux_at Qi alpha_i sTt mS pQt (flux numflux numsol Qi alpha_i sTt mS pQt) q s a.
Proof.
  intros H1 H2 H3 Hq Hs Ha.
  pose proof (cols_nth _ _ _ s H2 Hs) as Ls.
  pose proof (cols_nth _ _ _ q H3 Hq) as Lq.
  assert (E : nth a (flux_select Qi alpha_i sTt (nth s mS []) (nth q pQt []) q s)
                  Np.NonFinite
              = Np.Finite (guarded Qi alpha_i sTt mS pQt q s a)).
  { rewrite nth_flux_select by lia. unfold guarded.
    destruct (gt0 (nth a sTt 0)); reflexivity. }
  split; [exact E|]. split.
  - unfold flux. rewrite nth_map_seq by exact Hq. rewrite nth_map_seq by exact Hs.
    change 0 with (Np.value Np.NonFinite) at 1.
    rewrite (map_nth Np.value). rewrite E. reflexivity.
  - apply nth_flux_quotient; lia.
Qed.

Lemma nth_reaction (M numsol : nat) (k1_i C_eq_i sTt : list Qc) (mS : list (list Qc))
      (s a : nat) :
  length sTt = M -> cols numsol M mS -> (s < numsol)%nat -> (a < M)%nat ->
  reaction_at k1_i C_eq_i sTt mS (reaction numsol k1_i C_eq_i sTt mS) s a.
Proof.
  intros H1 H2 Hs Ha. unfold reaction_at, reaction.
  rewrite nth_map_seq by exact Hs.
  rewrite (nth_zipWith _ _ _ _ 0 0) by (rewrite ?(cols_nth _ _ _ s H2 Hs); lia).
  reflexivity.
Qed.

Lemma nth_trial_mass (M numflux numsol : nat) (h : Qc) (inject : nat -> Qc)
      (mSp_ : list (list Qc)) (mQj : list (list (list Qc))) (mRj : list (list Qc))
      (s a : nat) :
  (1 <= M)%nat -> cols numsol M mSp_ -> cols numsol M mRj -> fluxes numflux numsol M mQj ->
  (s < numsol)%nat -> (a < M)%nat ->
  mass_at numflux h (inject s) mSp_ mQj mRj
          (trial_mass M numsol h inject mSp_ mQj mRj) s a.
Proof.
  intros HM H1 H2 [H3 H4] Hs Ha. unfold mass_at, trial_mass.
  rewrite nth_map_seq by exact Hs.
  pose proof (cols_nth _ _ _ s H1 Hs) as L1.
  pose proof (cols_nth _ _ _ s H2 Hs) as L2.
  assert (L3 : length (flux_total M mQj s) = M)
    by (eapply flux_total_length; eassumption).
  assert (E : forall b, (b < M)%nat ->
                nth b (NpAux.zipWith3
                         (fun m out r => m - out * h / qc 2 1 + r * h / qc 2 1)
                         (nth s mSp_ []) (flux_total M mQj s) (nth s mRj [])) 0
                = nth b (nth s mSp_ []) 0
                  - Sigma numflux (fun q => nth b (nth s (nth q mQj []) []) 0) * h / qc 2 1
                  + nth b (nth s mRj []) 0 * h / qc 2 1).
  { intros b Hb. rewrite (nth_zipWith3 _ _ _ _ _ 0 0 0) by lia.
    unfold flux_total.
    rewrite (nth_sum_cols _ _ numflux).
    - f_equal. f_equal. f_equal. f_equal. apply Sigma_ext. intros q Hq.
      rewrite (nth_indep _ [] ((fun mq => nth s mq []) [])).
      + rewrite (map_nth (fun mq => nth s mq [])). reflexivity.
      + rewrite length_map. lia.
    - exact Hb.
    - rewrite length_map. exact H3.
    - rewrite Forall_forall. intros c Hc. apply in_map_iff in Hc.
      destruct Hc as [mq [<- Hmq]]. destruct (In_nth _ _ [] Hmq) as [q [Hq <-]].
      rewrite (cols_nth _ _ _ s (H4 q ltac:(lia)) Hs). lia. }
  rewrite nth_add_first by (rewrite zipWith3_length; lia).
  destruct a as [|b].
  - rewrite E by lia. reflexivity.
  - rewrite E by lia. ring.
Qed.

Section Stages.

Variable funs : list rSASFunctionClass.
Variables M numflux numsol : nat.
Variable h : Qc.
Variable i : nat.
Variable Ji : Qc.
Variable Qi : list Qc.
Variable alpha_i : list (list Qc).
Variables k1_i C_eq_i C_J_i : list Qc.
Variables STp_ sTn_ : list Qc.
Variable mSn_ : list (list Qc).

Hypothesis HM : (1 <= M)%nat.
Hypothesis Hfuns : length funs = numflux.
Hypothesis HQi : length Qi = numflux.
Hypothesis Hcdf :
  forall f S t, In f funs -> length (cdf_i f S t) = length S.
Hypothesis HSTp : length STp_ = (M + 1)%nat.
Hypothesis HsTn : length sTn_ = M.
Hypothesis HmSn : cols numsol M mSn_.

Let g : stages :=
  rk4_stages funs M numflux numsol h i Ji Qi alpha_i k1_i C_eq_i C_J_i STp_ sTn_ mSn_.

(** The three trial profiles of a substep entered with arrays of the
    right shapes. *)
Lemma stages_clamped (a : nat) :
  (a <= M)%nat ->
  (clamped_update numflux h Ji Qi STp_ (PQ1 g) (STt1 g) a
   /\ clamped_update numflux h Ji Qi STp_ (PQ2 g) (STt2 g) a
   /\ clamped_update numflux h Ji Qi STp_ (PQ3 g) (STt3 g) a)
  /\ 0 <= nth a (STt1 g) 0 /\ 0 <= nth a (STt2 g) 0 /\ 0 <= nth a (STt3 g) 0.
Proof.
  intro Ha.
  pose proof (rk4_stages_shaped funs M numflux numsol h i Ji Qi alpha_i k1_i C_eq_i
                C_J_i STp_ sTn_ mSn_ HM Hfuns Hcdf HSTp HsTn HmSn) as Sh.
  fold g in Sh.
  assert (E1 : clamped_update numflux h Ji Qi STp_ (PQ1 g) (STt1 g) a)
    by (apply nth_trial_storage; auto; apply Sh).
  assert (E2 : clamped_update numflux h Ji Qi STp_ (PQ2 g) (STt2 g) a)
    by (apply nth_trial_storage; auto; apply Sh).
  assert (E3 : clamped_update numflux h Ji Qi STp_ (PQ3 g) (STt3 g) a)
    by (apply nth_trial_storage; auto; apply Sh).
  split; [auto|].
  unfold clamped_update in E1, E2, E3. rewrite E1, E2, E3.
  repeat split; apply float64_max_0_nonneg.
Qed.

(** The four fluxes of a substep entered with arrays of the right
    shapes. *)
Lemma stages_flux_at (q s a : nat) :
  (q < numflux)%nat -> (s < numsol)%nat -> (a < M)%nat ->
  flux_at Qi alpha_i (sTt1 g) (mSp g) (pQt1 g) (mQ1 g) q s a
  /\ flux_at Qi alpha_i (sTt2 g) (mSt1 g) (pQt2 g) (mQ2 g) q s a
  /\ flux_at Qi alpha_i (sTt3 g) (mSt2 g) (pQt3 g) (mQ3 g) q s a
  /\ flux_at Qi alpha_i (sTt4 g) (mSt3 g) (pQt4 g) (mQ4 g) q s a.
Proof.
  intros Hq Hs Ha.
  pose proof (rk4_stages_shaped funs M numflux numsol h i Ji Qi alpha_i k1_i C_eq_i
                C_J_i STp_ sTn_ mSn_ HM Hfuns Hcdf HSTp HsTn HmSn) as Sh.
  fold g in Sh.
  split; [|split; [|split]];
    apply (flux_guarded M numflux numsol); auto; apply Sh.
Qed.

(** The trial masses and reaction terms of a substep entered with arrays
    of the right shapes. *)
Lemma stages_mass_at (s a : nat) :
  (s < numsol)%nat -> (a < M)%nat ->
  (mass_at numflux h (Ji * get1 C_J_i s * h / qc 2 1) (mSp g) (mQ1 g) (mR1 g) (mSt1 g) s a
   /\ mass_at numflux h (Ji * get1 C_J_i s * h / qc 2 1) (mSp g) (mQ2 g) (mR2 g) (mSt2 g) s a
   /\ mass_at numflux h (Ji * get1 C_J_i s * h) (mSp g) (mQ3 g) (mR3 g) (mSt3 g) s a)
  /\ reaction_at k1_i C_eq_i (sTt1 g) (mSp g) (mR1 g) s a
  /\ reaction_at k1_i C_eq_i (sTt2 g) (mSt1 g) (mR2 g) s a
  /\ reaction_at k1_i C_eq_i (sTt3 g) (mSt2 g) (mR3 g) s a
  /\ reaction_at k1_i C_eq_i (sTt4 g) (mSt3 g) (mR4 g) s a.
Proof.
  intros Hs Ha.
  pose proof (rk4_stages_shaped funs M numflux numsol h i Ji Qi alpha_i k1_i C_eq_i
                C_J_i STp_ sTn_ mSn_ HM Hfuns Hcdf HSTp HsTn HmSn) as Sh.
  fold g in Sh.
  split; [split; [|split]|split; [|split; [|split]]].
  - apply (nth_trial_mass M numflux numsol h (fun s => Ji * get1 C_J_i s * h / qc 2 1));
      auto; apply Sh.
  - apply (nth_trial_mass M numflux numsol h (fun s => Ji * get1 C_J_i s * h / qc 2 1));
      auto; apply Sh.
  - apply (nth_trial_mass M numflux numsol h (fun s => Ji * get1 C_J_i s * h));
      auto; apply Sh.
  - apply (nth_reaction M numsol); auto; apply Sh.
  - apply (nth_reaction M numsol); auto; apply Sh.
  - apply (nth_reaction M numsol); auto; apply Sh.
  - apply (nth_reaction M numsol); auto; apply Sh.
Qed.

End Stages.

(** ** Sums, cumulative sums and strided samples *)


Lemma repeat_each_length (n : nat) (l : list Qc) :
  length (Np.repeat_each n l) = (length l * n)%nat.
Proof.
  unfold Np.repeat_each. induction l as [|x t IH]; simpl; [reflexivity|].
  rewrite length_app, repeat_length, IH. lia.
Qed.

Lemma cumsum_from_length (acc : Qc) (l : list Qc) :
  length (Np.cumsum_from acc l) = length l.
Proof.
  revert acc. induction l as [|x t IH]; intro acc; simpl; [reflexivity|].
  rewrite IH. reflexivity.
Qed.

Lemma cumsum_length (l : list Qc) : length (Np.cumsum l) = length l.
Proof. apply cumsum_from_length. Qed.

Lemma every_length (n stop : nat) (l : list Qc) (m : nat) :
  (1 <= n)%nat -> stop = (m * n + 1)%nat -> (stop <= length l)%nat ->
  length (Np.every n stop l) = (m + 1)%nat.
Proof.
  intros Hn Hs Hl. unfold Np.every.
  rewrite length_map, length_seq, length_firstn.
  replace (Nat.min stop (length l) + n - 1)%nat with ((m + 1) * n)%nat by lia.
  apply Nat.div_mul. lia.
Qed.

Lemma nth_every (n stop : nat) (l : list Qc) (m j : nat) :
  (1 <= n)%nat -> stop = (m * n + 1)%nat -> (stop <= length l)%nat -> (j <= m)%nat ->
  nth j (Np.every n stop l) 0 = nth (j * n) l 0.
Proof.
  intros Hn Hs Hl Hj. unfold Np.every.
  rewrite nth_map_seq.
  - rewrite nth_firstn. destruct (Nat.ltb_spec (j * n) stop); [reflexivity|nia].
  - rewrite length_firstn.
    replace (Nat.min stop (length l) + n - 1)%nat with ((m + 1) * n)%nat by lia.
    rewrite Nat.div_mul by lia. lia.
Qed.

(** ** The initial condition *)

Lemma STn_init_length (a : args) (ST0 : list Qc) :
  length (STn_init a ST0) = (M_ a ST0 + 1)%nat.
Proof.
  unfold STn_init, M_, max_age_. cbn [length].
  rewrite length_map, cumsum_length, repeat_each_length, diff_length. lia.
Qed.

(** ** The time loop *)

Lemma solve_RK4_returns (a : args) (ST0 : list Qc) (r : result) :
  returns a ST0 r ->
  (1 <= n_substeps a)%nat
  /\ (1 <= length ST0)%nat
  /\ ((0 < length (J a))%nat -> (2 <= length ST0)%nat)
  /\ r = run a ST0 (or_empty (alpha a)) (or_empty (k1 a)) (or_empty (C_eq a))
             (or_empty (C_J a)) (or_empty (C_old a)).
Proof.
  intros [HST H]. unfold _solve_RK4 in H. rewrite HST in H.
  destruct (Nat.eqb_spec (n_substeps a) 0); [discriminate H|].
  destruct (Nat.eqb_spec (length ST0) 0); [discriminate H|].
  destruct (full_outputs a); [|discriminate H]. cbn [negb] in H.
  destruct (Nat.ltb_spec 0 (length (J a))) as [HJ|HJ];
    destruct (Nat.eqb_spec (length ST0) 1) as [H1|H1];
    cbn [andb] in H; try discriminate H;
    repeat match type of H with
           | (if ?c then _ else _) = _ => destruct c; [discriminate H|]
           end;
    injection H as <-; repeat split; try lia; reflexivity.
Qed.


Section RunFacts.

Variable a : args.
Variable ST0 : list Qc.
Variable alpha_ : list (list (list Qc)).
Variables k1_ C_eq_ C_J_ : list (list Qc).
Variable C_old_ : list Qc.

Let step (i : nat) (ls : loop_state) : loop_state * column_out :=
  timestep a ST0 alpha_ k1_ C_eq_ C_J_ C_old_ i ls.
Let at_ (i : nat) : loop_state := state_at a ST0 alpha_ k1_ C_eq_ C_J_ C_old_ i.
Let out (i : nat) : column_out := snd (step i (at_ i)).

Lemma time_loop_state_at (n j : nat) :
  time_loop a ST0 alpha_ k1_ C_eq_ C_J_ C_old_ (seq j n) (at_ j)
  = map out (seq j n).
Proof.
  revert j. induction n as [|n IH]; intro j; [reflexivity|].
  cbn [seq time_loop map]. f_equal. apply (IH (S j)).
Qed.

Lemma run_outs :
  run a ST0 alpha_ k1_ C_eq_ C_J_ C_old_
  = assemble a ST0 (map out (seq 0 (length (J a)))).
Proof.
  unfold run, timeseries_length. f_equal. apply (time_loop_state_at _ 0%nat).
Qed.

Lemma run_ST (t : nat) :
  full_outputs a = true ->
  nth t (ST (run a ST0 alpha_ k1_ C_eq_ C_J_ C_old_)) []
  = match t with
    | O => ST_first a ST0
    | S i => nth i (map (fun i => ST_col (out i)) (seq 0 (length (J a)))) []
    end.
Proof.
  intro Hf. rewrite run_outs. unfold assemble. cbn [ST].
  destruct t as [|i]; [reflexivity|]. cbn [nth]. rewrite map_map. reflexivity.
Qed.

Lemma run_PQ (t : nat) :
  full_outputs a = true ->
  nth t (PQ (run a ST0 alpha_ k1_ C_eq_ C_J_ C_old_)) []
  = match t with
    | O => PQ_first a ST0
    | S i => nth i (map (fun i => PQ_col (out i)) (seq 0 (length (J a)))) []
    end.
Proof.
  intro Hf. rewrite run_outs. unfold assemble. cbn [PQ].
  destruct t as [|i]; [reflexivity|]. cbn [nth]. rewrite map_map. reflexivity.
Qed.

Lemma run_WB (i : nat) :
  full_outputs a = true ->
  nth i (WaterBalance (run a ST0 alpha_ k1_ C_eq_ C_J_ C_old_)) []
  = nth i (map (fun i => WB_col (out i)) (seq 0 (length (J a)))) [].
Proof.
  intro Hf. rewrite run_outs. unfold assemble. cbn [WaterBalance].
  rewrite map_map. reflexivity.
Qed.

End RunFacts.

(** ** The aggregation of substep cells into output age bins *)

Lemma row_sums_length (rows n : nat) (l : list Qc) :
  length (Np.row_sums rows n l) = rows.
Proof. unfold Np.row_sums. rewrite length_map, length_seq. reflexivity. Qed.

Section Bins.

Variables M max_age n : nat.

Hypothesis Hage : (1 <= max_age)%nat.
Hypothesis HMn : M = (max_age * n)%nat.

Lemma fold_bins_length (k : nat) (v X : list Qc) :
  length X = (max_age + 1)%nat ->
  length (fold_bins M max_age n k v X) = (max_age + 1)%nat.
Proof.
  intro HX. destruct X as [|x0 [|x1 rest]]; cbn [length] in HX; try lia.
  cbn [fold_bins length]. rewrite zipWith_length, row_sums_length. lia.
Qed.

End Bins.

Section Accumulation.

Variable funs : list rSASFunctionClass.
Variables M max_age numflux numsol n : nat.
Variables h : Qc.
Variable i : nat.
Variable Ji : Qc.
Variable Qi : list Qc.
Variable alpha_i : list (list Qc).
Variables k1_i C_eq_i C_J_i : list Qc.
Variable st0 : state.

Hypothesis Hage : (1 <= max_age)%nat.
Hypothesis HMn : M = (max_age * n)%nat.

Let upto (full : bool) (k : nat) : state * accum :=
  substeps funs M max_age numflux numsol n h full i Ji Qi alpha_i k1_i C_eq_i C_J_i k st0.

Lemma substeps_S (full : bool) (k : nat) :
  upto full (S k)
  = substep funs M max_age numflux numsol n h full i Ji Qi alpha_i k1_i C_eq_i C_J_i
            k (upto full k).
Proof.
  unfold upto, substeps. rewrite seq_S, fold_left_app. reflexivity.
Qed.

Lemma PQ_acc_cols (k : nat) :
  cols numflux (max_age + 1) (PQ_acc (snd (upto true k))).
Proof.
  induction k as [|k IH].
  - cbn. split; [apply repeat_length|].
    apply Forall_forall. intros c Hc. apply repeat_spec in Hc. subst.
    apply zeros_length.
  - rewrite substeps_S. cbn [substep snd PQ_acc]. apply cols_map_seq.
    intros q Hq. apply fold_bins_length; auto.
    apply (cols_nth _ _ _ q IH Hq).
Qed.

End Accumulation.

Lemma nth_map_cumsum (X : list (list Qc)) (q : nat) :
  nth q (map Np.cumsum X) [] = Np.cumsum (nth q X []).
Proof. change [] with (Np.cumsum []) at 1. apply (map_nth Np.cumsum). Qed.

Section Columns.

Variable a : args.
Variable ST0 : list Qc.
Variable alpha_ : list (list (list Qc)).
Variables k1_ C_eq_ C_J_ : list (list Qc).
Variable C_old_ : list Qc.

Hypothesis Hfull : full_outputs a = true.
Hypothesis Hage : (1 <= max_age_ ST0)%nat.

Let at_ (i : nat) : loop_state := state_at a ST0 alpha_ k1_ C_eq_ C_J_ C_old_ i.
Let out (i : nat) : column_out :=
  snd (timestep a ST0 alpha_ k1_ C_eq_ C_J_ C_old_ i (at_ i)).
Let acc (i : nat) : accum :=
  snd (run_substeps a ST0 alpha_ k1_ C_eq_ C_J_ i (n_substeps a) (work (at_ i))).

Lemma out_PQ_col (i : nat) : PQ_col (out i) = map Np.cumsum (PQ_acc (acc i)).
Proof. unfold out, timestep, store. cbn [snd]. rewrite Hfull. reflexivity. Qed.

Lemma acc_cols (i : nat) : cols (numflux_ a) (max_age_ ST0 + 1) (PQ_acc (acc i)).
Proof.
  unfold acc, run_substeps. rewrite Hfull.
  apply (PQ_acc_cols (rSAS_fun a) (M_ a ST0) (max_age_ ST0)); auto.
Qed.

Lemma out_PQ_col_cols (i : nat) :
  cols (numflux_ a) (max_age_ ST0 + 1) (PQ_col (out i)).
Proof.
  rewrite out_PQ_col. eapply cols_map; [|apply acc_cols].
  intros c Hc. rewrite cumsum_length. exact Hc.
Qed.

End Columns.

(** ** The accepted profile of a substep *)

Lemma nth_map_list {A} (f : list A -> list Qc) (X : list (list A)) (q : nat) :
  f [] = [] -> nth q (map f X) [] = f (nth q X []).
Proof. intro H. rewrite <- H at 1. apply (map_nth f). Qed.

Section Water.

Variable funs : list rSASFunctionClass.
Variables M numflux numsol : nat.
Variable h : Qc.
Variable i : nat.
Variable Ji : Qc.
Variable Qi : list Qc.
Variable alpha_i : list (list Qc).
Variables k1_i C_eq_i C_J_i : list Qc.

Hypothesis Hfuns : length funs = numflux.
Hypothesis HQi : length Qi = numflux.
Hypothesis Hcdf :
  forall f S t, In f funs -> length (cdf_i f S t) = length S.

Lemma rk4_stages_water (STp_ sTn_ : list Qc) (mSn_ : list (list Qc)) :
  length STp_ = (M + 1)%nat ->
  let g := rk4_stages funs M numflux numsol h i Ji Qi alpha_i k1_i C_eq_i C_J_i
                      STp_ sTn_ mSn_ in
  cols numflux (M + 1) (PQ1 g) /\ cols numflux (M + 1) (PQ2 g)
  /\ cols numflux (M + 1) (PQ3 g) /\ cols numflux (M + 1) (PQ4 g).
Proof.
  intros HS g.
  assert (E1 : cols numflux (M + 1) (PQ1 g))
    by (apply eval_cdf_cols; assumption).
  assert (L1 : length (STt1 g) = (M + 1)%nat)
    by (eapply trial_storage_length; eassumption).
  assert (E2 : cols numflux (M + 1) (PQ2 g))
    by (apply eval_cdf_cols; assumption).
  assert (L2 : length (STt2 g) = (M + 1)%nat)
    by (eapply trial_storage_length; eassumption).
  assert (E3 : cols numflux (M + 1) (PQ3 g))
    by (apply eval_cdf_cols; assumption).
  assert (L3 : length (STt3 g) = (M + 1)%nat)
    by (eapply trial_storage_length; eassumption).
  assert (E4 : cols numflux (M + 1) (PQ4 g))
    by (apply eval_cdf_cols; assumption).
  auto.
Qed.

Lemma combine_PQ_cols (PQn_ : list (list Qc)) (g : stages) :
  cols numflux (M + 1) (PQ1 g) -> cols numflux (M + 1) (PQ2 g) ->
  cols numflux (M + 1) (PQ3 g) -> cols numflux (M + 1) (PQ4 g) ->
  cols numflux (M + 1) (combine_PQ M numflux Qi PQn_ g).
Proof.
  intros E1 E2 E3 E4. unfold combine_PQ. apply cols_map_seq. intros q Hq.
  destruct (is0 (get1 Qi q)); [apply zeros_length|].
  cbn [length]. rewrite slice_length; [lia|].
  rewrite (rk4_mean_length _ _ _ _ (M + 1)%nat); try (eapply cols_nth; eassumption).
  lia.
Qed.

Lemma advance_storage_length (STn_buf STp_ : list Qc) (PQn' : list (list Qc)) :
  length STp_ = (M + 1)%nat -> cols numflux (M + 1) PQn' ->
  length (advance_storage M h Ji Qi STn_buf STp_ PQn') = (M + 1)%nat.
Proof.
  intros HS HP. unfold advance_storage. cbn [length].
  rewrite zipWith_length, slice_length by lia.
  rewrite dot_length; [lia|].
  eapply cols_le; [|apply Nat.le_refl].
  eapply cols_map; [|exact HP]. intros c Hc. rewrite slice_length; lia.
Qed.

(** Line 433, entry by entry:
    [STn[k+1] = STp[k] + h * (J[i] - sum_q Q[i,q] * PQn[k+1,q])]. *)
Lemma nth_advance_storage (STn_buf STp_ : list Qc) (PQn' : list (list Qc)) (k : nat) :
  length STp_ = (M + 1)%nat -> cols numflux (M + 1) PQn' -> (k < M)%nat ->
  nth (S k) (advance_storage M h Ji Qi STn_buf STp_ PQn') 0
  = nth k STp_ 0
    + h * (Ji - Sigma numflux (fun q => nth q Qi 0 * nth (S k) (nth q PQn' []) 0)).
Proof.
  intros HS HP Hk. unfold advance_storage. cbn [nth].
  assert (HP' : cols numflux M (map (Np.slice 1 (M + 1)) PQn')).
  { eapply cols_map; [|exact HP]. intros c Hc. rewrite slice_length; lia. }
  rewrite (nth_zipWith _ _ _ _ 0 0);
    [|rewrite slice_length; lia
     |rewrite dot_length; [lia|eapply cols_le; [exact HP'|lia]]].
  rewrite nth_slice by lia.
  rewrite (nth_dot _ _ _ numflux);
    [|lia|exact HQi|apply HP'|eapply cols_le; [exact HP'|lia]].
  cbn [Nat.add]. do 3 f_equal. apply Sigma_ext. intros q Hq.
  rewrite nth_map_list by (unfold Np.slice; rewrite skipn_nil; apply firstn_nil).
  rewrite nth_slice by lia. reflexivity.
Qed.

Variables max_age n : nat.
Variable full : bool.

Lemma substep_PQn_cols (k : nat) (sa : state * accum) :
  length (STn (fst sa)) = (M + 1)%nat ->
  cols numflux (M + 1)
       (PQn (fst (substep funs M max_age numflux numsol n h full i Ji Qi alpha_i
                          k1_i C_eq_i C_J_i k sa))).
Proof.
  intro HS. cbn [substep fst PQn].
  destruct (rk4_stages_water (STn (fst sa)) (sTn (fst sa)) (mSn (fst sa)) HS)
    as (E1 & E2 & E3 & E4).
  apply combine_PQ_cols; assumption.
Qed.

Lemma substep_STn_length (k : nat) (sa : state * accum) :
  length (STn (fst sa)) = (M + 1)%nat ->
  length (STn (fst (substep funs M max_age numflux numsol n h full i Ji Qi alpha_i
                            k1_i C_eq_i C_J_i k sa))) = (M + 1)%nat.
Proof.
  intro HS. pose proof (substep_PQn_cols k sa HS) as HP.
  cbn [substep fst STn PQn] in *.
  apply advance_storage_length; assumption.
Qed.

Lemma substeps_STn_length (upto : nat) (st : state) :
  length (STn st) = (M + 1)%nat ->
  length (STn (fst (substeps funs M max_age numflux numsol n h full i Ji Qi alpha_i
                             k1_i C_eq_i C_J_i upto st))) = (M + 1)%nat.
Proof.
  intro HS. induction upto as [|k IH]; [exact HS|].
  rewrite substeps_S. apply substep_STn_length. exact IH.
Qed.

(** The accepted profile of a substep, entry by entry, in terms of the
    state the substep leaves: [STp] is the profile it started from and
    [PQn] the combined distribution it used. *)
Lemma substep_accepts (k : nat) (sa : state * accum) (j : nat) :
  length (STn (fst sa)) = (M + 1)%nat -> (j < M)%nat ->
  let st' := fst (substep funs M max_age numflux numsol n h full i Ji Qi alpha_i
                          k1_i C_eq_i C_J_i k sa) in
  nth (S j) (STn st') 0
  = nth j (STp st') 0
    + h * (Ji - Sigma numflux (fun q => nth q Qi 0 * nth (S j) (nth q (PQn st') []) 0)).
Proof.
  intros HS Hj st'. pose proof (substep_PQn_cols k sa HS) as HP.
  subst st'. cbn [substep fst STn STp PQn] in *.
  apply nth_advance_storage; assumption.
Qed.

End Water.

(** ** The stored columns of a run *)

Section RunShapes.

Variable a : args.
Variable ST0 : list Qc.
Variable alpha_ : list (list (list Qc)).
Variables k1_ C_eq_ C_J_ : list (list Qc).
Variable C_old_ : list Qc.

Hypothesis Hshape : well_shaped a.
Hypothesis Hn : (1 <= n_substeps a)%nat.
Hypothesis Hfull : full_outputs a = true.

Let at_ (i : nat) : loop_state := state_at a ST0 alpha_ k1_ C_eq_ C_J_ C_old_ i.
Let out (i : nat) : column_out :=
  snd (timestep a ST0 alpha_ k1_ C_eq_ C_J_ C_old_ i (at_ i)).

Lemma work_S (i : nat) :
  work (at_ (S i))
  = fst (run_substeps a ST0 alpha_ k1_ C_eq_ C_J_ i (n_substeps a) (work (at_ i))).
Proof. reflexivity. Qed.

Lemma run_substeps_STn_length (i upto : nat) (st : state) :
  (i < length (J a))%nat -> length (STn st) = (M_ a ST0 + 1)%nat ->
  length (STn (fst (run_substeps a ST0 alpha_ k1_ C_eq_ C_J_ i upto st)))
  = (M_ a ST0 + 1)%nat.
Proof.
  intros Hi HS. destruct Hshape as (Hcdf & HQ & _). unfold run_substeps.
  apply substeps_STn_length; auto.
Qed.

Lemma state_at_STn_length (i : nat) :
  (i <= length (J a))%nat -> length (STn (work (at_ i))) = (M_ a ST0 + 1)%nat.
Proof.
  induction i as [|i IH]; intro Hi.
  - apply STn_init_length.
  - rewrite work_S. apply run_substeps_STn_length; [lia|]. apply IH. lia.
Qed.

Lemma out_ST_col (i : nat) : ST_col (out i) = Np.every (n_substeps a) (M_ a ST0 + 1)
                                                       (STn (work (at_ (S i)))).
Proof. unfold out, timestep, store. cbn [snd]. rewrite Hfull. reflexivity. Qed.

Lemma ST_last_S (i : nat) : ST_last (at_ (S i)) = ST_col (out i).
Proof.
  unfold at_ at 1. cbn [state_at]. unfold timestep at 1. cbn [fst ST_last].
  rewrite Hfull. reflexivity.
Qed.

Lemma out_ST_col_length (i : nat) :
  (i < length (J a))%nat -> length (ST_col (out i)) = (max_age_ ST0 + 1)%nat.
Proof.
  intro Hi. rewrite out_ST_col. apply every_length; auto.
  rewrite state_at_STn_length by lia. reflexivity.
Qed.

(** Column [t] of the returned [ST] is the column the loop stored last
    on entry to timestep [t]. *)
Lemma run_ST_last (t : nat) :
  (t <= length (J a))%nat ->
  nth t (ST (run a ST0 alpha_ k1_ C_eq_ C_J_ C_old_)) [] = ST_last (at_ t).
Proof.
  intro Ht. rewrite run_ST by exact Hfull. destruct t as [|i]; [reflexivity|].
  rewrite nth_map_seq by lia. rewrite ST_last_S. reflexivity.
Qed.

Lemma ST_last_length (t : nat) :
  (1 <= length ST0)%nat -> (t <= length (J a))%nat ->
  length (ST_last (at_ t)) = (max_age_ ST0 + 1)%nat.
Proof.
  intros Hl Ht. destruct t as [|i].
  - cbn. unfold ST_first. apply every_length; auto.
    cbn [STn state_init]. rewrite STn_init_length. reflexivity.
  - rewrite ST_last_S. apply out_ST_col_length. lia.
Qed.

(** An entry of column [i+1] of [ST] is an entry of the profile accepted
    by the last substep of timestep [i]. *)
Lemma run_ST_sample (i age : nat) :
  (i < length (J a))%nat -> (age <= max_age_ ST0)%nat ->
  nth age (nth (S i) (ST (run a ST0 alpha_ k1_ C_eq_ C_J_ C_old_)) []) 0
  = nth (age * n_substeps a) (STn (work (at_ (S i)))) 0.
Proof.
  intros Hi Ha. rewrite run_ST_last by lia. rewrite ST_last_S, out_ST_col.
  apply (nth_every _ _ _ (max_age_ ST0)); auto.
  rewrite state_at_STn_length by lia. reflexivity.
Qed.

End RunShapes.

(** ** The stored water balance column *)

Section RunBalance.

Variable a : args.
Variable ST0 : list Qc.
Variable alpha_ : list (list (list Qc)).
Variables k1_ C_eq_ C_J_ : list (list Qc).
Variable C_old_ : list Qc.

Hypothesis Hshape : well_shaped a.
Hypothesis Hn : (1 <= n_substeps a)%nat.
Hypothesis Hfull : full_outputs a = true.
Hypothesis Hage : (1 <= max_age_ ST0)%nat.

Let at_ (i : nat) : loop_state := state_at a ST0 alpha_ k1_ C_eq_ C_J_ C_old_ i.
Let out (i : nat) : column_out :=
  snd (timestep a ST0 alpha_ k1_ C_eq_ C_J_ C_old_ i (at_ i)).
Let r_ : result := run a ST0 alpha_ k1_ C_eq_ C_J_ C_old_.

Lemma out_WB_col (i : nat) :
  WB_col (out i)
  = (get1 (J a) i * dt a - nth 1 (ST_col (out i)) 0
     - dt a * dot1 (nth i (Q a) [])
                   (map (fun col => nth 1 col 0 - nth 0 col 0) (PQ_col (out i))))
    :: NpAux.zipWith3 (fun x y z => x - y - dt a * z)
         (Np.diff (Np.slice 0 (max_age_ ST0) (ST_last (at_ i))))
         (Np.diff (Np.slice 1 (max_age_ ST0 + 1) (ST_col (out i))))
         (Np.dot (nth i (Q a) [])
                 (map (fun col => Np.diff (skipn 1 col)) (PQ_col (out i)))
                 (max_age_ ST0 - 1)).
Proof. unfold out, timestep, store. cbn [snd]. rewrite Hfull. reflexivity. Qed.

End RunBalance.

(** ** An outflow without flow *)













Section ZeroFlow.

Variable funs : list rSASFunctionClass.
Variables M max_age numflux numsol n : nat.
Variables h : Qc.
Variable full : bool.
Variable i : nat.
Variable Ji : Qc.
Variable Qi : list Qc.
Variable alpha_i : list (list Qc).
Variables k1_i C_eq_i C_J_i : list Qc.
Variable st0 : state.
Variable q : nat.

Hypothesis Hq : (q < numflux)%nat.
Hypothesis HQ0 : get1 Qi q = 0.

Let upto (k : nat) : state * accum :=
  substeps funs M max_age numflux numsol n h full i Ji Qi alpha_i k1_i C_eq_i C_J_i k st0.




End ZeroFlow.


Section RunZeroFlow.

Variable a : args.
Variable ST0 : list Qc.
Variable alpha_ : list (list (list Qc)).
Variables k1_ C_eq_ C_J_ : list (list Qc).
Variable C_old_ : list Qc.
Variable q : nat.

Hypothesis Hq : (q < numflux_ a)%nat.
Hypothesis HQ0 : forall i, (i < length (J a))%nat -> get2 (Q a) i q = 0.

Let at_ (i : nat) : loop_state := state_at a ST0 alpha_ k1_ C_eq_ C_J_ C_old_ i.
Let out (i : nat) : column_out :=
  snd (timestep a ST0 alpha_ k1_ C_eq_ C_J_ C_old_ i (at_ i)).
Let acc (i : nat) : accum :=
  snd (run_substeps a ST0 alpha_ k1_ C_eq_ C_J_ i (n_substeps a) (work (at_ i))).
Let r_ : result := run a ST0 alpha_ k1_ C_eq_ C_J_ C_old_.




Lemma out_CQ_row (i : nat) :
  CQ_row (out i)
  = if full_outputs a
    then map (fun q =>
                map (fun s =>
                       get2 (CQ_acc (acc i)) q s
                       + get3 alpha_ i q s * get1 C_old_ s
                         * (1 - nth (max_age_ ST0)
                                    (nth q (map Np.cumsum (PQ_acc (acc i))) []) 0))
                    (seq 0 (numsol_ a)))
             (seq 0 (numflux_ a))
    else CQ_acc (acc i).
Proof.
  unfold out, timestep, store. cbn [snd]. destruct (full_outputs a); reflexivity.
Qed.


End RunZeroFlow.


(** ** The accepted storage profile *)

Lemma nonneg_update (x h J S : Qc) :
  0 <= x + h * (J - S) <-> h * S <= x + h * J.
Proof.
  rewrite (Qcle_minus_iff (h * S) (x + h * J)).
  replace (x + h * J + - (h * S)) with (x + h * (J - S)) by ring.
  reflexivity.
Qed.

Lemma run_ST_accepted (a : args) (ST0 : list Qc) (alpha_ : list (list (list Qc)))
      (k1_ C_eq_ C_J_ : list (list Qc)) (C_old_ : list Qc) (i j : nat) :
  well_shaped a -> (1 <= n_substeps a)%nat ->
  (i < length (J a))%nat -> (j < M_ a ST0)%nat ->
  let st' := work (state_at a ST0 alpha_ k1_ C_eq_ C_J_ C_old_ (S i)) in
  nth (S j) (STn st') 0
  = nth j (STp st') 0
    + h_ a * (get1 (J a) i
              - Sigma (numflux_ a)
                  (fun q => get2 (Q a) i q * nth (S j) (nth q (PQn st') []) 0)).
Proof.
  intros Hs Hn Hi Hj st'. subst st'. rewrite work_S.
  destruct (n_substeps a) as [|m] eqn:En; [lia|].
  unfold run_substeps. rewrite En, substeps_S.
  pose proof Hs as (Hcdf & HQ & _).
  apply substep_accepts; auto.
  apply substeps_STn_length; auto.
  apply state_at_STn_length; [exact Hs|lia|lia].
Qed.

(** C1, as amended.  In a run with full outputs, an entry of a later
    column of [ST] is an entry of the profile accepted by the last
    substep of the timestep before:
    [ST[age, i+1] = STp[j] + h * (J[i] - sum_q Q[i,q] * PQn[j+1, q])] with
    [j = age * n_substeps - 1], where [STp] is the profile that substep
    started from and [PQn] the combined distribution it used.  The
    update is not clamped (only the trial profiles of the stages are):
    the entry is non-negative exactly when
    [h * sum_q Q[i,q] * PQn[j+1, q] <= STp[j] + h * J[i]]. *)
Theorem accepted_storage_unclamped (a : args) (ST0 : list Qc) (r : result)
        (i age : nat) :
  returns a ST0 r -> well_shaped a -> full_outputs a = true ->
  (i < length (J a))%nat -> (1 <= age <= length ST0 - 1)%nat ->
  let st' := state_of a ST0 (S i) in
  let j := (age * n_substeps a - 1)%nat in
  let out := Sigma (length (rSAS_fun a))
                   (fun q => get2 (Q a) i q * nth (S j) (nth q (PQn st') []) 0) in
  ST_at r age (S i) = nth j (STp st') 0 + h_ a * (get1 (J a) i - out)
  /\ (0 <= ST_at r age (S i) <-> h_ a * out <= nth j (STp st') 0 + h_ a * get1 (J a) i).
Proof.
  intros Hr Hs Hf Hi Ha st' j out.
  destruct (solve_RK4_returns a ST0 r Hr) as (Hn & Hl & Hl2 & ->).
  assert (Hj : (age * n_substeps a = S j)%nat) by (subst j; nia).
  assert (E : ST_at (run a ST0 (or_empty (alpha a)) (or_empty (k1 a))
                         (or_empty (C_eq a)) (or_empty (C_J a)) (or_empty (C_old a)))
                    age (S i)
              = nth j (STp st') 0 + h_ a * (get1 (J a) i - out)).
  { unfold ST_at. rewrite run_ST_sample by (auto; unfold max_age_; lia).
    rewrite Hj. apply run_ST_accepted; auto.
    unfold M_, max_age_. nia. }
  split; [exact E|]. rewrite E. apply nonneg_update.
Qed.

(** ** The shapes of the working arrays through a run *)

Section MassShapes.

Variables M numflux numsol : nat.
Variables h Ji : Qc.
Variable C_J_i : list Qc.

Lemma combine_mQ_fluxes (g : stages) :
  stages_shaped M numflux numsol g ->
  fluxes numflux numsol M (combine_mQ numflux numsol g).
Proof.
  intro Sh. unfold combine_mQ. split.
  - rewrite length_map, length_seq. reflexivity.
  - intros q Hq. rewrite nth_map_seq by exact Hq.
    apply cols_map_seq. intros s Hs.
    apply rk4_mean_length;
      [apply (cols_nth numsol M _ s (proj2 (sh_mQ1 _ _ _ _ Sh) q Hq) Hs)
      |apply (cols_nth numsol M _ s (proj2 (sh_mQ2 _ _ _ _ Sh) q Hq) Hs)
      |apply (cols_nth numsol M _ s (proj2 (sh_mQ3 _ _ _ _ Sh) q Hq) Hs)
      |apply (cols_nth numsol M _ s (proj2 (sh_mQ4 _ _ _ _ Sh) q Hq) Hs)].
Qed.

Lemma combine_mR_cols (g : stages) :
  stages_shaped M numflux numsol g -> cols numsol M (combine_mR numsol g).
Proof.
  intro Sh. unfold combine_mR. apply cols_map_seq. intros s Hs.
  apply rk4_mean_length;
    [apply (cols_nth numsol M _ s (sh_mR1 _ _ _ _ Sh) Hs)
    |apply (cols_nth numsol M _ s (sh_mR2 _ _ _ _ Sh) Hs)
    |apply (cols_nth numsol M _ s (sh_mR3 _ _ _ _ Sh) Hs)
    |apply (cols_nth numsol M _ s (sh_mR4 _ _ _ _ Sh) Hs)].
Qed.

Lemma withdraw_length (mQn : list (list (list Qc))) (s : nat) (qs : list nat)
      (acc : list Qc) :
  length acc = M ->
  (forall q, In q qs -> length (nth s (nth q mQn []) []) = M) ->
  length (fold_left
            (fun acc q => Np.zipWith (fun x m => x + (- m) * h) acc
                                     (nth s (nth q mQn []) []))
            qs acc) = M.
Proof.
  revert acc. induction qs as [|q qs IH]; intros acc Hacc H; [exact Hacc|].
  cbn [fold_left]. apply IH.
  - rewrite zipWith_length, Hacc, (H q) by (left; reflexivity). lia.
  - intros q' Hq'. apply H. right. exact Hq'.
Qed.

Lemma advance_mass_cols (g : stages) (mQn : list (list (list Qc)))
      (mRn : list (list Qc)) :
  cols numsol M (mSp g) -> fluxes numflux numsol M mQn -> cols numsol M mRn ->
  cols numsol M (advance_mass numflux numsol h Ji C_J_i g mQn mRn).
Proof.
  intros H1 [H2 H3] H4. unfold advance_mass. apply cols_map_seq. intros s Hs.
  apply withdraw_length.
  - rewrite add_first_length, zipWith_length.
    rewrite (cols_nth _ _ _ s H1 Hs), (cols_nth _ _ _ s H4 Hs). lia.
  - intros q Hq. apply in_seq in Hq.
    apply (cols_nth numsol M _ s (H3 q ltac:(lia)) Hs).
Qed.

End MassShapes.

Section SubstepShapes.

Variable funs : list rSASFunctionClass.
Variables M max_age numflux numsol n : nat.
Variable h : Qc.
Variable full : bool.
Variable i : nat.
Variable Ji : Qc.
Variable Qi : list Qc.
Variable alpha_i : list (list Qc).
Variables k1_i C_eq_i C_J_i : list Qc.

Hypothesis HM : (1 <= M)%nat.
Hypothesis Hfuns : length funs = numflux.
Hypothesis HQi : length Qi = numflux.
Hypothesis Hcdf :
  forall f S t, In f funs -> length (cdf_i f S t) = length S.

Lemma substep_state_shaped (k : nat) (sa : state * accum) :
  state_shaped M numsol (fst sa) ->
  state_shaped M numsol
               (fst (substep funs M max_age numflux numsol n h full i Ji Qi alpha_i
                             k1_i C_eq_i C_J_i k sa)).
Proof.
  intros (H1 & H2 & H3).
  pose proof (rk4_stages_shaped funs M numflux numsol h i Ji Qi alpha_i k1_i C_eq_i
                C_J_i (STn (fst sa)) (sTn (fst sa)) (mSn (fst sa))
                HM Hfuns Hcdf H1 H2 H3) as Sh.
  assert (L : length (STn (fst (substep funs M max_age numflux numsol n h full i Ji Qi
                                        alpha_i k1_i C_eq_i C_J_i k sa)))
              = (M + 1)%nat)
    by (apply substep_STn_length; assumption).
  split; [exact L|]. split.
  - cbn [substep fst sTn STn] in *. rewrite diff_length, L. lia.
  - cbn [substep fst mSn]. apply advance_mass_cols.
    + apply Sh.
    + apply combine_mQ_fluxes. exact Sh.
    + apply (combine_mR_cols M numflux). exact Sh.
Qed.

Lemma substeps_state_shaped (upto : nat) (st : state) :
  state_shaped M numsol st ->
  state_shaped M numsol
               (fst (substeps funs M max_age numflux numsol n h full i Ji Qi alpha_i
                              k1_i C_eq_i C_J_i upto st)).
Proof.
  intro HS. induction upto as [|k IH]; [exact HS|].
  rewrite substeps_S. apply substep_state_shaped. exact IH.
Qed.

End SubstepShapes.

Lemma column_length (m : list (list Qc)) (s : nat) : length (column m s) = length m.
Proof. apply length_map. Qed.

Section RunStateShapes.

Variable a : args.
Variable ST0 : list Qc.
Variable alpha_ : list (list (list Qc)).
Variables k1_ C_eq_ C_J_ : list (list Qc).
Variable C_old_ : list Qc.

Hypothesis Hshape : well_shaped a.
Hypothesis HST0 : ST_init a = Some ST0.
Hypothesis Hn : (1 <= n_substeps a)%nat.
Hypothesis Hage : (2 <= length ST0)%nat.

Lemma M_positive : (1 <= M_ a ST0)%nat.
Proof. unfold M_, max_age_. nia. Qed.

Lemma state_init_shaped :
  state_shaped (M_ a ST0) (numsol_ a) (state_init a ST0).
Proof.
  split; [apply STn_init_length|]. split.
  - cbn [state_init sTn]. rewrite diff_length, STn_init_length. lia.
  - cbn [state_init mSn]. unfold mSn_init.
    destruct (CS_init a) as [cs|] eqn:Ecs.
    + apply cols_map_seq. intros s Hs.
      rewrite length_map, repeat_each_length, diff_length, zipWith_length,
        column_length.
      destruct Hshape as (_ & _ & Hcs). rewrite (Hcs cs ST0 Ecs HST0).
      unfold M_, max_age_. nia.
    + split; [apply repeat_length|].
      apply Forall_forall. intros c Hc. apply repeat_spec in Hc. subst.
      apply zeros_length.
Qed.

Lemma run_substeps_shaped (i upto : nat) (st : state) :
  (i < length (J a))%nat ->
  state_shaped (M_ a ST0) (numsol_ a) st ->
  state_shaped (M_ a ST0) (numsol_ a)
               (fst (run_substeps a ST0 alpha_ k1_ C_eq_ C_J_ i upto st)).
Proof.
  intros Hi HS. destruct Hshape as (Hcdf & HQ & _). unfold run_substeps.
  apply substeps_state_shaped; auto. apply M_positive.
Qed.

Lemma state_at_shaped (i : nat) :
  (i <= length (J a))%nat ->
  state_shaped (M_ a ST0) (numsol_ a)
               (work (state_at a ST0 alpha_ k1_ C_eq_ C_J_ C_old_ i)).
Proof.
  induction i as [|i IH]; intro Hi.
  - apply state_init_shaped.
  - rewrite work_S. apply run_substeps_shaped; [lia|]. apply IH. lia.
Qed.

End RunStateShapes.

(** ** The stages of every substep of a run *)

Section RunStages.

Variable a : args.
Variable ST0 : list Qc.
Variable r : result.
Variables i k : nat.

Hypothesis Hr : returns a ST0 r.
Hypothesis Hshape : well_shaped a.
Hypothesis Hi : (i < length (J a))%nat.

Let g : stages := stages_of a ST0 i k.
Let st : state := substep_state a ST0 i k.

Lemma substep_state_is_shaped : state_shaped (M_ a ST0) (numsol_ a) st.
Proof.
  destruct (solve_RK4_returns a ST0 r Hr) as (Hn & Hl & Hl2 & _).
  destruct Hr as [HST0 _].
  unfold st, substep_state, state_of.
  apply run_substeps_shaped; auto; try lia.
  apply state_at_shaped; auto; lia.
Qed.

(** C6.  In every substep of every run, at each of the stages 1-3 the
    trial storage profile [STt] is
    [max(0, STp + (J[i] - sum_q Q[i,q]*PQj[age,q]) * h/2)] at every age
    [age <= M], with [STp] the profile accepted by the substep before and
    [PQj] the cumulative distribution of that stage (stage 4 computes no
    trial profile); so every entry of a trial profile is non-negative. *)
Theorem trial_storage_clamped (age : nat) :
  (k < n_substeps a)%nat -> (age <= M_ a ST0)%nat ->
  (clamped_update (length (rSAS_fun a)) (h_ a) (get1 (J a) i) (nth i (Q a) [])
                  (STn st) (PQ1 g) (STt1 g) age
   /\ clamped_update (length (rSAS_fun a)) (h_ a) (get1 (J a) i) (nth i (Q a) [])
                     (STn st) (PQ2 g) (STt2 g) age
   /\ clamped_update (length (rSAS_fun a)) (h_ a) (get1 (J a) i) (nth i (Q a) [])
                     (STn st) (PQ3 g) (STt3 g) age)
  /\ 0 <= nth age (STt1 g) 0 /\ 0 <= nth age (STt2 g) 0 /\ 0 <= nth age (STt3 g) 0.
Proof.
  intros Hk Ha.
  destruct (solve_RK4_returns a ST0 r Hr) as (Hn & Hl & Hl2 & _).
  destruct substep_state_is_shaped as (H1 & H2 & H3).
  pose proof Hshape as (Hcdf & HQ & _).
  apply (stages_clamped (rSAS_fun a) (M_ a ST0) (numflux_ a) (numsol_ a)); auto.
  apply M_positive; lia.
Qed.

(** C4, as amended.  In every substep of every run, at each of the four
    stages and for every [(age, outflow, solute)], the value [np.where]
    selects is finite: it is [mS * alpha[i,q,s] * Q[i,q] * pQt / sTt]
    where the trial age increment [sTt] is strictly positive and exactly
    0 elsewhere, and that is the flux the stage stores.  The quotient
    itself is evaluated at every age before the selection: it is
    non-finite (a division by zero was performed) exactly at the ages
    whose increment is 0. *)
Theorem stage_flux_guarded (q s age : nat) :
  (k < n_substeps a)%nat ->
  (q < length (rSAS_fun a))%nat -> (s < numsol_ a)%nat -> (age < M_ a ST0)%nat ->
  let Qi := nth i (Q a) [] in
  let alpha_i := nth i (or_empty (alpha a)) [] in
  flux_at Qi alpha_i (sTt1 g) (mSp g) (pQt1 g) (mQ1 g) q s age
  /\ flux_at Qi alpha_i (sTt2 g) (mSt1 g) (pQt2 g) (mQ2 g) q s age
  /\ flux_at Qi alpha_i (sTt3 g) (mSt2 g) (pQt3 g) (mQ3 g) q s age
  /\ flux_at Qi alpha_i (sTt4 g) (mSt3 g) (pQt4 g) (mQ4 g) q s age.
Proof.
  intros Hk Hq Hs Ha Qi alpha_i.
  destruct (solve_RK4_returns a ST0 r Hr) as (Hn & Hl & Hl2 & _).
  destruct substep_state_is_shaped as (H1 & H2 & H3).
  pose proof Hshape as (Hcdf & HQ & _).
  apply (stages_flux_at (rSAS_fun a) (M_ a ST0) (numflux_ a) (numsol_ a)); auto.
  apply M_positive; lia.
Qed.

(** C5.  In every substep of every run with solutes, the trial mass of
    stage [j] is [mSp - sum_q mQj * h/2 + mRj * h/2] and the inflowing
    solute mass is added at the freshest age only: half of
    [J[i]*C_J[i,s]*h] in stages 1 and 2, all of it in stage 3; the
    reaction term of each of the four stages is
    [k1[i,s] * (C_eq[i,s] * sTt - mS)], with [sTt] and [mS] the age
    increment and the mass that stage works on. *)
Theorem stage_mass_update (s age : nat) :
  (k < n_substeps a)%nat -> (s < numsol_ a)%nat -> (age < M_ a ST0)%nat ->
  let numflux := length (rSAS_fun a) in
  let h := h_ a in
  let inflow := get1 (J a) i * get2 (or_empty (C_J a)) i s * h in
  let k1_i := nth i (or_empty (k1 a)) [] in
  let C_eq_i := nth i (or_empty (C_eq a)) [] in
  (mass_at numflux h (inflow / qc 2 1) (mSp g) (mQ1 g) (mR1 g) (mSt1 g) s age
   /\ mass_at numflux h (inflow / qc 2 1) (mSp g) (mQ2 g) (mR2 g) (mSt2 g) s age
   /\ mass_at numflux h inflow (mSp g) (mQ3 g) (mR3 g) (mSt3 g) s age)
  /\ reaction_at k1_i C_eq_i (sTt1 g) (mSp g) (mR1 g) s age
  /\ reaction_at k1_i C_eq_i (sTt2 g) (mSt1 g) (mR2 g) s age
  /\ reaction_at k1_i C_eq_i (sTt3 g) (mSt2 g) (mR3 g) s age
  /\ reaction_at k1_i C_eq_i (sTt4 g) (mSt3 g) (mR4 g) s age.
Proof.
  intros Hk Hs Ha numflux h inflow k1_i C_eq_i.
  destruct (solve_RK4_returns a ST0 r Hr) as (Hn & Hl & Hl2 & _).
  destruct substep_state_is_shaped as (H1 & H2 & H3).
  pose proof Hshape as (Hcdf & HQ & _).
  apply (stages_mass_at (rSAS_fun a) (M_ a ST0) (numflux_ a) (numsol_ a)); auto.
  apply M_positive; lia.
Qed.

End RunStages.

(** ** The statements on concrete runs *)

Lemma ex_dry_shaped : well_shaped ex_dry.
Proof.
  split; [|split].
  - intros f S t Hf. apply (uniform_shape (qc 2 1)). exact Hf.
  - intros [|i] Hi; [reflexivity|]. cbn in Hi. lia.
  - intros cs ST0 H. discriminate H.
Qed.

Lemma ex_wet_shaped : well_shaped ex_wet.
Proof.
  split; [|split].
  - intros f S t Hf. apply (uniform_shape (qc 2 1)). exact Hf.
  - intros [|[|i]] Hi; [reflexivity|reflexivity|]. cbn in Hi. lia.
  - intros cs ST0 H. discriminate H.
Qed.

Lemma ex_solute_shaped : well_shaped ex_solute.
Proof.
  split; [|split].
  - intros f S t Hf. apply (uniform_shape (qc 2 1)). exact Hf.
  - intros [|[|i]] Hi; [reflexivity|reflexivity|]. cbn in Hi. lia.
  - intros cs ST0 H. discriminate H.
Qed.

Lemma ex_solute_returns : returns ex_solute [0; 1; qc 3 2] ex_solute_result.
Proof. split; reflexivity. Qed.

Lemma ex_dry_returns : returns ex_dry [0; 1; qc 2 1] ex_dry_result.
Proof. split; reflexivity. Qed.

Lemma ex_wet_returns : returns ex_wet [0; 1; qc 3 2] ex_wet_result.
Proof. split; reflexivity. Qed.


(** The claim C1 fails on [ex_dry]: the run returns, with full outputs,
    and [ST[2,1] = -3/2 < 0]. *)
Lemma storage_goes_negative :
  returns ex_dry [0; 1; qc 2 1] ex_dry_result
  /\ full_outputs ex_dry = true
  /\ ST_at ex_dry_result 2 1 = qc (-3) 2
  /\ ~ 0 <= ST_at ex_dry_result 2 1.
Proof.
  split; [exact ex_dry_returns|]. split; [reflexivity|].
  assert (E : ST_at ex_dry_result 2 1 = qc (-3) 2) by (vm_compute; reflexivity).
  split; [exact E|]. rewrite E. intro H. apply leb_true in H.
  vm_compute in H. discriminate H.
Qed.

(** The amended C1 on [ex_dry], timestep 0, age 2. *)
Lemma accepted_storage_witness :
  ST_at ex_dry_result 2 1
  = nth 1 (STp (state_of ex_dry [0; 1; qc 2 1] 1)) 0
    + h_ ex_dry
      * (get1 (J ex_dry) 0
         - Sigma 1 (fun q => get2 (Q ex_dry) 0 q
                             * nth 2 (nth q (PQn (state_of ex_dry [0; 1; qc 2 1] 1)) []) 0)).
Proof.
  apply (accepted_storage_unclamped ex_dry [0; 1; qc 2 1] ex_dry_result 0 2).
  - exact ex_dry_returns.
  - exact ex_dry_shaped.
  - reflexivity.
  - cbn. lia.
  - cbn. lia.
Defined.



(** C3, on the code.  In the first substep of [ex_stage3] the freshest-age
    density of stages 3 and 4 is the stage-2 value [PQ2[0,0] = 1/4], not
    the stage's own [PQ3[0,0] = 7/32], [PQ4[0,0] = 57/256] (lines 407
    and 422 read [PQ2] where lines 377 and 392 read the stage's own
    distribution). *)
Theorem stage3_density_reads_stage2 :
  let g := stages_of ex_stage3 [0; 1] 0 0 in
  get2 (pQt1 g) 0 0 = get2 (PQ1 g) 0 0
  /\ get2 (pQt2 g) 0 0 = get2 (PQ2 g) 0 0
  /\ (get2 (pQt3 g) 0 0 = get2 (PQ2 g) 0 0 /\ get2 (pQt3 g) 0 0 = qc 1 4
      /\ get2 (PQ3 g) 0 0 = qc 7 32 /\ get2 (pQt3 g) 0 0 <> get2 (PQ3 g) 0 0)
  /\ (get2 (pQt4 g) 0 0 = get2 (PQ2 g) 0 0 /\ get2 (pQt4 g) 0 0 = qc 1 4
      /\ get2 (PQ4 g) 0 0 = qc 57 256 /\ get2 (pQt4 g) 0 0 <> get2 (PQ4 g) 0 0).
Proof.
  intro g.
  assert (E3 : get2 (pQt3 g) 0 0 = qc 1 4) by (vm_compute; reflexivity).
  assert (F3 : get2 (PQ3 g) 0 0 = qc 7 32) by (vm_compute; reflexivity).
  assert (E4 : get2 (pQt4 g) 0 0 = qc 1 4) by (vm_compute; reflexivity).
  assert (F4 : get2 (PQ4 g) 0 0 = qc 57 256) by (vm_compute; reflexivity).
  split; [reflexivity|]. split; [reflexivity|]. split.
  - split; [reflexivity|]. split; [exact E3|]. split; [exact F3|].
    rewrite E3, F3. discriminate.
  - split; [reflexivity|]. split; [exact E4|]. split; [exact F4|].
    rewrite E4, F4. discriminate.
Qed.

(** The claim C4 fails on [ex_empty_bin]: in stage 1 of the first substep
    the freshest age increment is [sTt[0] = 0], the quotient numpy
    evaluates under [np.where] is non-finite there (a division by zero is
    performed), and the stored flux is the selected 0. *)
Lemma stage_divides_by_zero :
  let g := stages_of ex_empty_bin [0; 1; qc 2 1] 0 0 in
  nth 0 (sTt1 g) 0 = 0
  /\ nth 0 (flux_quotient [1] [[1]] (sTt1 g) (nth 0 (mSp g) []) (nth 0 (pQt1 g) []) 0 0)
         (Np.Finite 0)
     = Np.NonFinite
  /\ get3 (mQ1 g) 0 0 0 = 0.
Proof.
  intro g. split; [vm_compute; reflexivity|].
  split; vm_compute; reflexivity.
Qed.

(** The amended C4 on [ex_solute]: timestep 1, substep 1, outflow 0,
    solute 0, age cell 1. *)
Lemma stage_flux_witness :
  let g := stages_of ex_solute [0; 1; qc 3 2] 1 1 in
  flux_at [1] [[1]] (sTt1 g) (mSp g) (pQt1 g) (mQ1 g) 0 0 1
  /\ flux_at [1] [[1]] (sTt2 g) (mSt1 g) (pQt2 g) (mQ2 g) 0 0 1
  /\ flux_at [1] [[1]] (sTt3 g) (mSt2 g) (pQt3 g) (mQ3 g) 0 0 1
  /\ flux_at [1] [[1]] (sTt4 g) (mSt3 g) (pQt4 g) (mQ4 g) 0 0 1.
Proof.
  intro g.
  apply (stage_flux_guarded ex_solute [0; 1; qc 3 2] ex_solute_result 1 1).
  - exact ex_solute_returns.
  - exact ex_solute_shaped.
  - cbn. lia.
  - cbn. lia.
  - cbn. lia.
  - cbn. lia.
  - cbn. lia.
Defined.

(** C5 on [ex_solute]: timestep 1, substep 1, solute 0, the freshest
    age cell. *)
Lemma stage_mass_witness :
  let g := stages_of ex_solute [0; 1; qc 3 2] 1 1 in
  let inflow := 1 * qc 3 1 * h_ ex_solute in
  (mass_at 1 (h_ ex_solute) (inflow / qc 2 1) (mSp g) (mQ1 g) (mR1 g) (mSt1 g) 0 0
   /\ mass_at 1 (h_ ex_solute) (inflow / qc 2 1) (mSp g) (mQ2 g) (mR2 g) (mSt2 g) 0 0
   /\ mass_at 1 (h_ ex_solute) inflow (mSp g) (mQ3 g) (mR3 g) (mSt3 g) 0 0)
  /\ reaction_at [0] [0] (sTt1 g) (mSp g) (mR1 g) 0 0
  /\ reaction_at [0] [0] (sTt2 g) (mSt1 g) (mR2 g) 0 0
  /\ reaction_at [0] [0] (sTt3 g) (mSt2 g) (mR3 g) 0 0
  /\ reaction_at [0] [0] (sTt4 g) (mSt3 g) (mR4 g) 0 0.
Proof.
  intros g inflow.
  apply (stage_mass_update ex_solute [0; 1; qc 3 2] ex_solute_result 1 1).
  - exact ex_solute_returns.
  - exact ex_solute_shaped.
  - cbn. lia.
  - cbn. lia.
  - cbn. lia.
  - cbn. lia.
Defined.

(** C6 on [ex_wet]: timestep 1, substep 1, the oldest age cell. *)
Lemma trial_storage_witness :
  let g := stages_of ex_wet [0; 1; qc 3 2] 1 1 in
  let STp_ := STn (substep_state ex_wet [0; 1; qc 3 2] 1 1) in
  (clamped_update 1 (h_ ex_wet) 1 [1] STp_ (PQ1 g) (STt1 g) 4
   /\ clamped_update 1 (h_ ex_wet) 1 [1] STp_ (PQ2 g) (STt2 g) 4
   /\ clamped_update 1 (h_ ex_wet) 1 [1] STp_ (PQ3 g) (STt3 g) 4)
  /\ 0 <= nth 4 (STt1 g) 0 /\ 0 <= nth 4 (STt2 g) 0 /\ 0 <= nth 4 (STt3 g) 0.
Proof.
  intros g STp_.
  apply (trial_storage_clamped ex_wet [0; 1; qc 3 2] ex_wet_result 1 1).
  - exact ex_wet_returns.
  - exact ex_wet_shaped.
  - cbn. lia.
  - cbn. lia.
  - cbn. lia.
Defined.

(** A call without [ST_init] never gets past line 294. *)
Lemma missing_ST_init_raises (a : args) :
  ST_init a = None -> _solve_RK4 a = inl TypeError.
Proof. intro H. unfold _solve_RK4. rewrite H. reflexivity. Qed.

(** C9, on the code.  [solve] accepts a call that leaves out [ST_init],
    and a call with solutes that leaves out [C_old]; [_solve_RK4] then
    does not run to completion: in the first it raises [TypeError] at
    [len(ST_init)] (line 294), in the second it reads [C_old[s]] through
    a null buffer at line 471, at the end of the first timestep, and the
    process is killed. *)
Theorem omitted_optionals_raise :
  (validate ex_no_ST_init = None
   /\ _solve_RK4 (with_defaults ex_no_ST_init) = inl TypeError
   /\ solve ex_no_ST_init = inl TypeError)
  /\ (validate ex_no_C_old = None
      /\ _solve_RK4 (with_defaults ex_no_C_old) = inl SegmentationFault
      /\ solve ex_no_C_old = inl SegmentationFault).
Proof. repeat split; vm_compute; reflexivity. Qed.

(** * Further properties of the integrator *)

(** ** The zero-age boundary *)

Lemma nth0_every (n stop : nat) (l : list Qc) :
  nth 0 l 0 = 0 -> nth 0 (Np.every n stop l) 0 = 0.
Proof.
  intro H. unfold Np.every.
  destruct ((length (firstn stop l) + n - 1) / n)%nat as [|c]; [reflexivity|].
  cbn [seq map nth Nat.mul]. rewrite nth_firstn.
  destruct (0 <? stop)%nat; [exact H|reflexivity].
Qed.

Lemma nth0_cumsum (l : list Qc) : nth 0 l 0 = 0 -> nth 0 (Np.cumsum l) 0 = 0.
Proof.
  intro H. destruct l as [|x t]; [reflexivity|].
  cbn [nth] in H. subst. cbn [Np.cumsum Np.cumsum_from nth]. ring.
Qed.

Lemma nth0_fold_bins (M max_age n k : nat) (v X : list Qc) :
  nth 0 (fold_bins M max_age n k v X) 0 = nth 0 X 0.
Proof. destruct X as [|x0 [|x1 rest]]; reflexivity. Qed.

Section ZeroAge.

Variable funs : list rSASFunctionClass.
Variables M max_age numflux numsol n : nat.
Variable h : Qc.
Variable full : bool.
Variable i : nat.
Variable Ji : Qc.
Variable Qi : list Qc.
Variable alpha_i : list (list Qc).
Variables k1_i C_eq_i C_J_i : list Qc.

Let sub (k : nat) (sa : state * accum) : state * accum :=
  substep funs M max_age numflux numsol n h full i Ji Qi alpha_i k1_i C_eq_i C_J_i k sa.
Let upto (k : nat) (st : state) : state * accum :=
  substeps funs M max_age numflux numsol n h full i Ji Qi alpha_i k1_i C_eq_i C_J_i k st.

(** Neither storage buffer is ever written at age 0. *)
Lemma substep_zero_age (k : nat) (sa : state * accum) :
  nth 0 (STn (fst sa)) 0 = 0 /\ nth 0 (STp (fst sa)) 0 = 0 ->
  nth 0 (STn (fst (sub k sa))) 0 = 0 /\ nth 0 (STp (fst (sub k sa))) 0 = 0.
Proof. intros [H1 H2]. split; [exact H2|exact H1]. Qed.

Lemma substeps_zero_age (k : nat) (st : state) :
  nth 0 (STn st) 0 = 0 /\ nth 0 (STp st) 0 = 0 ->
  nth 0 (STn (fst (upto k st))) 0 = 0 /\ nth 0 (STp (fst (upto k st))) 0 = 0.
Proof.
  intro H. induction k as [|k IH]; [exact H|].
  unfold upto. rewrite substeps_S. apply substep_zero_age. exact IH.
Qed.

(** The bins of age 0 of [PQ[:, i+1, q]] never receive anything. *)
Lemma substeps_PQ_acc_zero_age (k : nat) (st : state) (q : nat) :
  nth 0 (nth q (PQ_acc (snd (upto k st))) []) 0 = 0.
Proof.
  induction k as [|k IH].
  - cbn. destruct (Nat.lt_ge_cases q numflux) as [Hq|Hq].
    + rewrite (nth_indep _ [] (Np.zeros (max_age + 1)))
        by (rewrite repeat_length; exact Hq).
      rewrite nth_repeat. apply nth_zeros.
    + rewrite (nth_overflow (repeat _ numflux)) by (rewrite repeat_length; exact Hq).
      reflexivity.
  - unfold upto in *. rewrite substeps_S. cbn [substep snd].
    destruct full; cbn [PQ_acc]; [|exact IH].
    destruct (Nat.lt_ge_cases q numflux) as [Hq|Hq].
    + rewrite nth_map_seq by exact Hq. rewrite nth0_fold_bins. exact IH.
    + rewrite (nth_overflow (map _ (seq 0 numflux)))
        by (rewrite length_map, length_seq; exact Hq).
      reflexivity.
Qed.

End ZeroAge.

Section RunZeroAge.

Variable a : args.
Variable ST0 : list Qc.
Variable alpha_ : list (list (list Qc)).
Variables k1_ C_eq_ C_J_ : list (list Qc).
Variable C_old_ : list Qc.

Let at_ (i : nat) : loop_state := state_at a ST0 alpha_ k1_ C_eq_ C_J_ C_old_ i.
Let out (i : nat) : column_out :=
  snd (timestep a ST0 alpha_ k1_ C_eq_ C_J_ C_old_ i (at_ i)).
Let r_ : result := run a ST0 alpha_ k1_ C_eq_ C_J_ C_old_.

Lemma state_at_zero_age (i : nat) :
  nth 0 (STn (work (at_ i))) 0 = 0 /\ nth 0 (STp (work (at_ i))) 0 = 0.
Proof.
  induction i as [|i IH].
  - split; [reflexivity|]. cbn. apply nth_zeros.
  - unfold at_. rewrite work_S. unfold run_substeps.
    apply substeps_zero_age. exact IH.
Qed.

Lemma run_ST_zero_age (t : nat) :
  full_outputs a = true -> (t <= length (J a))%nat -> ST_at r_ 0 t = 0.
Proof.
  intros Hf Ht. unfold ST_at, r_. rewrite run_ST by exact Hf.
  destruct t as [|i].
  - unfold ST_first. apply nth0_every. reflexivity.
  - rewrite nth_map_seq by lia.
    rewrite (out_ST_col a ST0 alpha_ k1_ C_eq_ C_J_ C_old_ Hf).
    apply nth0_every. apply (state_at_zero_age (S i)).
Qed.

Lemma run_PQ_zero_age (i q : nat) :
  full_outputs a = true -> (i < length (J a))%nat -> PQ_at r_ 0 (S i) q = 0.
Proof.
  intros Hf Hi. unfold PQ_at, r_. rewrite run_PQ by exact Hf.
  rewrite nth_map_seq by exact Hi.
  rewrite (out_PQ_col a ST0 alpha_ k1_ C_eq_ C_J_ C_old_ Hf).
  rewrite nth_map_cumsum. apply nth0_cumsum.
  unfold run_substeps. apply substeps_PQ_acc_zero_age.
Qed.

End RunZeroAge.

(** X1.  In every run with full outputs the zero-age row of the
    returned storage is zero at every output time, [ST[0, t] = 0],
    whatever [ST_init[0]], the flows and the rSAS functions are: the
    loop never writes [STn[0]]. *)
Theorem zero_age_storage (a : args) (ST0 : list Qc) (r : result) (t : nat) :
  returns a ST0 r -> full_outputs a = true -> (t <= length (J a))%nat ->
  ST_at r 0 t = 0.
Proof.
  intros Hr Hf Ht.
  destruct (solve_RK4_returns a ST0 r Hr) as (_ & _ & _ & ->).
  apply run_ST_zero_age; assumption.
Qed.

(** X1 on [ex_wet], at the last output time. *)
Lemma zero_age_storage_witness : ST_at ex_wet_result 0 2 = 0.
Proof.
  apply (zero_age_storage ex_wet [0; 1; qc 3 2] ex_wet_result 2).
  - exact ex_wet_returns.
  - reflexivity.
  - cbn. lia.
Defined.

(** X2.  In every run with full outputs the returned cumulative
    transit-time distribution starts at 0 in every column stored by the
    loop: [PQ[0, t, q] = 0] for every outflow and every output time
    [t >= 1], whatever the rSAS functions return. *)
Theorem zero_age_distribution (a : args) (ST0 : list Qc) (r : result) (t q : nat) :
  returns a ST0 r -> full_outputs a = true -> (1 <= t <= length (J a))%nat ->
  PQ_at r 0 t q = 0.
Proof.
  intros Hr Hf Ht.
  destruct (solve_RK4_returns a ST0 r Hr) as (_ & _ & _ & ->).
  destruct t as [|i]; [lia|]. apply run_PQ_zero_age; [exact Hf|lia].
Qed.

(** X2 on [ex_wet], at the last output time. *)
Lemma zero_age_distribution_witness : PQ_at ex_wet_result 0 2 0 = 0.
Proof.
  apply (zero_age_distribution ex_wet [0; 1; qc 3 2] ex_wet_result 2 0).
  - exact ex_wet_returns.
  - reflexivity.
  - cbn. lia.
Defined.

(** ** The initial column and the shapes of the stored arrays *)

Section RunArrays.

Variable a : args.
Variable ST0 : list Qc.
Variable alpha_ : list (list (list Qc)).
Variables k1_ C_eq_ C_J_ : list (list Qc).
Variable C_old_ : list Qc.

Hypothesis Hshape : well_shaped a.
Hypothesis Hn : (1 <= n_substeps a)%nat.
Hypothesis Hfull : full_outputs a = true.
Hypothesis Hl : (1 <= length ST0)%nat.
Hypothesis Hl2 : (0 < length (J a))%nat -> (2 <= length ST0)%nat.

Let at_ (i : nat) : loop_state := state_at a ST0 alpha_ k1_ C_eq_ C_J_ C_old_ i.
Let out (i : nat) : column_out :=
  snd (timestep a ST0 alpha_ k1_ C_eq_ C_J_ C_old_ i (at_ i)).
Let r_ : result := run a ST0 alpha_ k1_ C_eq_ C_J_ C_old_.

Lemma run_ST_length : length (ST r_) = (length (J a) + 1)%nat.
Proof.
  unfold r_. rewrite run_outs. unfold assemble. cbn [ST length].
  rewrite !length_map, length_seq. lia.
Qed.

Lemma run_PQ_length : length (PQ r_) = (length (J a) + 1)%nat.
Proof.
  unfold r_. rewrite run_outs. unfold assemble. cbn [PQ length].
  rewrite !length_map, length_seq. lia.
Qed.

Lemma run_WB_length : length (WaterBalance r_) = length (J a).
Proof.
  unfold r_. rewrite run_outs. unfold assemble. cbn [WaterBalance].
  rewrite !length_map, length_seq. reflexivity.
Qed.

Lemma run_ST_column_length (t : nat) :
  (t <= length (J a))%nat -> length (nth t (ST r_) []) = (max_age_ ST0 + 1)%nat.
Proof.
  intro Ht. unfold r_. rewrite run_ST_last by assumption.
  apply ST_last_length; assumption.
Qed.

Lemma PQ_first_cols : cols (numflux_ a) (max_age_ ST0 + 1) (PQ_first a ST0).
Proof.
  unfold PQ_first. cbn [PQn state_init].
  assert (H : cols (numflux_ a) (M_ a ST0 + 1)
                   (map (fun f => cdf_i f (STn_init a ST0) 0) (rSAS_fun a))).
  { apply (eval_cdf_cols (rSAS_fun a) (numflux_ a) 0%nat); [reflexivity|apply Hshape|].
    apply STn_init_length. }
  eapply cols_map; [|exact H]. intros c Hc.
  apply every_length; auto. lia.
Qed.

Lemma run_PQ_column_cols (t : nat) :
  (t <= length (J a))%nat ->
  cols (numflux_ a) (max_age_ ST0 + 1) (nth t (PQ r_) []).
Proof.
  intro Ht. unfold r_. rewrite run_PQ by exact Hfull.
  destruct t as [|i]; [apply PQ_first_cols|].
  rewrite nth_map_seq by lia. apply out_PQ_col_cols; [exact Hfull|].
  unfold max_age_. lia.
Qed.

Lemma run_WB_column_length (i : nat) :
  (i < length (J a))%nat -> length (nth i (WaterBalance r_) []) = max_age_ ST0.
Proof.
  intro Hi. unfold r_. rewrite run_WB by exact Hfull.
  rewrite nth_map_seq by exact Hi.
  assert (Hm : (1 <= max_age_ ST0)%nat) by (unfold max_age_; lia).
  rewrite (out_WB_col a ST0 alpha_ k1_ C_eq_ C_J_ C_old_ Hfull).
  cbn [length]. rewrite zipWith3_length, !diff_length.
  rewrite slice_length
    by (rewrite (ST_last_length a ST0 alpha_ k1_ C_eq_ C_J_ C_old_) by (auto; lia); lia).
  rewrite slice_length
    by (rewrite (out_ST_col_length a ST0 alpha_ k1_ C_eq_ C_J_ C_old_) by auto; lia).
  rewrite dot_length; [lia|].
  pose proof (out_PQ_col_cols a ST0 alpha_ k1_ C_eq_ C_J_ C_old_ Hfull Hm i) as HP.
  eapply cols_le; [|apply Nat.le_refl].
  eapply cols_map; [|exact HP]. intros c Hc.
  rewrite diff_length, length_skipn. lia.
Qed.

End RunArrays.

(** X4.  The arrays a run with full outputs returns have the shapes the
    docstring of [solve] documents, for [n] timesteps, [m = max_age] ages
    and [q] outflows: [ST] is [(m+1) x (n+1)], [PQ] is
    [(m+1) x (n+1) x q] and [WaterBalance] is [m x n]. *)
Theorem output_shapes (a : args) (ST0 : list Qc) (r : result) :
  returns a ST0 r -> well_shaped a -> full_outputs a = true ->
  let n := length (J a) in
  let m := (length ST0 - 1)%nat in
  (length (ST r) = (n + 1)%nat
   /\ forall t, (t <= n)%nat -> length (nth t (ST r) []) = (m + 1)%nat)
  /\ (length (PQ r) = (n + 1)%nat
      /\ forall t, (t <= n)%nat -> cols (length (rSAS_fun a)) (m + 1) (nth t (PQ r) []))
  /\ (length (WaterBalance r) = n
      /\ forall i, (i < n)%nat -> length (nth i (WaterBalance r) []) = m).
Proof.
  intros Hr Hs Hf n m.
  destruct (solve_RK4_returns a ST0 r Hr) as (Hn & Hl & Hl2 & ->).
  split; [split|split; split].
  - apply run_ST_length; assumption.
  - intros t Ht. apply run_ST_column_length; assumption.
  - apply run_PQ_length; assumption.
  - intros t Ht. apply run_PQ_column_cols; assumption.
  - apply run_WB_length; assumption.
  - intros i Hi. apply run_WB_column_length; assumption.
Qed.

(** X4 on [ex_wet]: two timesteps, three ages, one outflow. *)
Lemma output_shapes_witness :
  let n := length (J ex_wet) in
  let m := 2%nat in
  (length (ST ex_wet_result) = (n + 1)%nat
   /\ forall t, (t <= n)%nat -> length (nth t (ST ex_wet_result) []) = (m + 1)%nat)
  /\ (length (PQ ex_wet_result) = (n + 1)%nat
      /\ forall t, (t <= n)%nat ->
           cols (length (rSAS_fun ex_wet)) (m + 1) (nth t (PQ ex_wet_result) []))
  /\ (length (WaterBalance ex_wet_result) = n
      /\ forall i, (i < n)%nat -> length (nth i (WaterBalance ex_wet_result) []) = m).
Proof.
  apply (output_shapes ex_wet [0; 1; qc 3 2] ex_wet_result).
  - exact ex_wet_returns.
  - exact ex_wet_shaped.
  - reflexivity.
Defined.

(** ** What [solve] checks before it calls the integrator *)

Lemma or_else_none (x y : option exn) : or_else x y = None -> x = None /\ y = None.
Proof. destruct x; [discriminate|]. cbn. auto. Qed.

Lemma with_defaults_water (a : args) :
  J (with_defaults a) = J a /\ Q (with_defaults a) = Q a
  /\ rSAS_fun (with_defaults a) = rSAS_fun a
  /\ ST_init (with_defaults a) = ST_init a
  /\ n_substeps (with_defaults a) = n_substeps a
  /\ full_outputs (with_defaults a) = full_outputs a.
Proof. unfold with_defaults. destruct (C_J a); cbn; repeat split. Qed.

Lemma check_Q_passes (a : args) : check_Q a = None -> length (Q a) = length (J a).
Proof.
  unfold check_Q. destruct (Nat.eqb_spec (length (Q a)) (length (J a))); cbn;
    [auto|discriminate].
Qed.

Lemma check_ST_init_passes (a : args) (ST0 : list Qc) :
  check_ST_init a = None -> ST_init a = Some ST0 -> nth 0 ST0 0 = 0.
Proof.
  unfold check_ST_init. intros H E. rewrite E in H.
  destruct ST0 as [|x t]; [discriminate|].
  destruct (is0 x) eqn:Z; [|discriminate]. apply is0_true. exact Z.
Qed.

Lemma check_rSAS_fun_passes (a : args) (i : nat) :
  check_rSAS_fun a = None -> (i < length (Q a))%nat ->
  length (nth i (Q a) []) = length (rSAS_fun a).
Proof.
  unfold check_rSAS_fun. intros H Hi.
  destruct (forallb _ (Q a)) eqn:F; [|discriminate].
  rewrite forallb_forall in F. apply Nat.eqb_eq. apply F. apply nth_In. exact Hi.
Qed.

(** X10.  What a call of [solve] that returns has established: [Q] has
    one row per timestep and one entry per rSAS function in each row,
    [ST_init] was given, starts with 0 and has at least one entry (two
    when there is a timestep to run), [n_substeps >= 1], and the result
    is that of [_solve_RK4] on the arguments with the defaults filled
    in. *)
Theorem solve_guarantees (a : args) (r : result) :
  solve a = inr r ->
  length (Q a) = length (J a)
  /\ (forall i, (i < length (J a))%nat -> length (nth i (Q a) []) = length (rSAS_fun a))
  /\ (1 <= n_substeps a)%nat
  /\ exists ST0,
       ST_init a = Some ST0 /\ nth 0 ST0 0 = 0 /\ (1 <= length ST0)%nat
       /\ ((0 < length (J a))%nat -> (2 <= length ST0)%nat)
       /\ returns (with_defaults a) ST0 r.
Proof.
  unfold solve. intro H. destruct (validate a) eqn:V; [discriminate|].
  unfold validate in V.
  apply or_else_none in V as (VQ & V). apply or_else_none in V as (VS & V).
  apply or_else_none in V as (VF & _).
  destruct (with_defaults_water a) as (EJ & EQ & EF & ES & EN & _).
  destruct (ST_init a) as [ST0|] eqn:E.
  - assert (Hr : returns (with_defaults a) ST0 r)
      by (split; [exact ES|exact H]).
    destruct (solve_RK4_returns _ ST0 r Hr) as (Hn & Hl & Hl2 & _).
    rewrite EN in Hn. rewrite EJ in Hl2.
    pose proof (check_Q_passes a VQ) as LQ.
    split; [exact LQ|]. split.
    { intros i Hi. apply check_rSAS_fun_passes; [exact VF|lia]. }
    split; [exact Hn|]. exists ST0.
    split; [reflexivity|]. split; [|auto].
    apply (check_ST_init_passes a); [exact VS|exact E].
  - rewrite missing_ST_init_raises in H by exact ES. discriminate.
Qed.

Lemma ex_wet_solved : solve ex_wet = inr ex_wet_result.
Proof. reflexivity. Qed.

(** X10 on [ex_wet]. *)
Lemma solve_guarantees_witness :
  length (Q ex_wet) = length (J ex_wet)
  /\ (forall i, (i < length (J ex_wet))%nat ->
        length (nth i (Q ex_wet) []) = length (rSAS_fun ex_wet))
  /\ (1 <= n_substeps ex_wet)%nat
  /\ exists ST0,
       ST_init ex_wet = Some ST0 /\ nth 0 ST0 0 = 0 /\ (1 <= length ST0)%nat
       /\ ((0 < length (J ex_wet))%nat -> (2 <= length ST0)%nat)
       /\ returns (with_defaults ex_wet) ST0 ex_wet_result.
Proof.
  apply (solve_guarantees ex_wet ex_wet_result). exact ex_wet_solved.
Defined.

(** ** The defaults of [solve] *)

Lemma shape1_repeat {A} (x : list A) (n : nat) :
  (0 < n)%nat -> shape1 (repeat x n) = length x.
Proof. destruct n; [lia|]. reflexivity. Qed.

Lemma default_alpha_passes (a : args) (c : list (list Qc)) :
  length c = length (J a) ->
  let al := repeat (repeat (repeat 1 (shape1 c)) (shape1 (Q a))) (length (J a)) in
  negb (shape2 al =? shape1 c)%nat && negb (shape1 al =? shape1 (Q a))%nat = false.
Proof.
  intros Hc al. subst al. destruct (length (J a)) as [|n] eqn:En.
  - destruct c; [reflexivity|discriminate].
  - rewrite (shape1_repeat _ (S n)) by lia. rewrite repeat_length.
    rewrite Nat.eqb_refl. apply andb_false_r.
Qed.

Lemma check_solutes_defaults (a : args) :
  check_solutes (with_defaults a) = check_solutes a.
Proof.
  unfold with_defaults. destruct (C_J a) as [c|] eqn:E; [|reflexivity].
  unfold check_solutes. cbn [C_J J alpha k1 C_eq C_old CS_init ST_init Q]. rewrite E.
  destruct (Nat.eqb_spec (length c) (length (J a))) as [Hc|Hc]; cbn [negb];
    [|reflexivity].
  destruct (alpha a) as [al|].
  - destruct (negb (shape2 al =? shape1 c)%nat && negb (shape1 al =? shape1 (Q a))%nat);
      [reflexivity|].
    destruct (k1 a) as [k|], (C_eq a) as [e|]; cbn [mismatch];
      rewrite ?repeat_length, ?Nat.eqb_refl, ?andb_false_r; reflexivity.
  - rewrite (default_alpha_passes a c Hc).
    destruct (k1 a) as [k|], (C_eq a) as [e|]; cbn [mismatch];
      rewrite ?repeat_length, ?Nat.eqb_refl, ?andb_false_r; reflexivity.
Qed.

Lemma validate_defaults (a : args) : validate (with_defaults a) = validate a.
Proof.
  unfold validate. rewrite check_solutes_defaults.
  unfold check_Q, check_ST_init, check_rSAS_fun.
  destruct (with_defaults_water a) as (-> & -> & -> & -> & _). reflexivity.
Qed.

Lemma with_defaults_idempotent (a : args) :
  with_defaults (with_defaults a) = with_defaults a.
Proof.
  unfold with_defaults. destruct (C_J a) as [c|] eqn:E; [|rewrite E; reflexivity].
  cbn [C_J J alpha k1 C_eq C_old CS_init ST_init Q rSAS_fun dt n_substeps full_outputs].
  destruct (alpha a), (k1 a), (C_eq a); reflexivity.
Qed.

(** X12.  The defaults of [solve] are the arguments it would have
    accepted: passing [alpha] all ones and [k1], [C_eq] all zeros
    explicitly, in the shapes [solve] builds them, gives the same result
    or raises the same exception as leaving them out. *)
Theorem solve_defaults_explicit (a : args) : solve (with_defaults a) = solve a.
Proof.
  unfold solve. rewrite validate_defaults, with_defaults_idempotent. reflexivity.
Qed.

(** ** Conservation of solute mass over a timestep *)

Lemma nth_repeat_zeros (n len q a : nat) :
  nth a (nth q (repeat (Np.zeros len) n) []) 0 = 0.
Proof.
  destruct (Nat.lt_ge_cases q n) as [Hq|Hq].
  - rewrite (nth_indep _ [] (Np.zeros len)) by (rewrite repeat_length; exact Hq).
    rewrite nth_repeat. apply nth_zeros.
  - rewrite (nth_overflow (repeat _ n)) by (rewrite repeat_length; exact Hq).
    destruct a; reflexivity.
Qed.

Lemma repeat_zeros_cols (n len : nat) : cols n len (repeat (Np.zeros len) n).
Proof.
  split; [apply repeat_length|].
  apply Forall_forall. intros c Hc. apply repeat_spec in Hc. subst.
  apply zeros_length.
Qed.

Section MassAccumulation.

Variable funs : list rSASFunctionClass.
Variables M max_age numflux numsol n : nat.
Variables h : Qc.
Variable i : nat.
Variable Ji : Qc.
Variable Qi : list Qc.
Variable alpha_i : list (list Qc).
Variables k1_i C_eq_i C_J_i : list Qc.
Variable st0 : state.

Hypothesis Hage : (1 <= max_age)%nat.
Hypothesis HMn : M = (max_age * n)%nat.

Let upto (k : nat) : state * accum :=
  substeps funs M max_age numflux numsol n h true i Ji Qi alpha_i k1_i C_eq_i C_J_i k st0.

(** The stages of substep [k]. *)
Let g_ (k : nat) : stages :=
  rk4_stages funs M numflux numsol h i Ji Qi alpha_i k1_i C_eq_i C_J_i
             (STn (fst (upto k))) (sTn (fst (upto k))) (mSn (fst (upto k))).

Lemma MR_acc_cols (k : nat) : cols numsol (max_age + 1) (MR_acc (snd (upto k))).
Proof.
  induction k as [|k IH].
  - apply repeat_zeros_cols.
  - unfold upto. rewrite substeps_S. cbn [substep snd MR_acc]. apply cols_map_seq.
    intros s Hs. apply fold_bins_length; auto.
    apply (cols_nth _ _ _ s IH Hs).
Qed.

Lemma MQ_acc_cols (k q : nat) :
  (q < numflux)%nat -> cols numsol (max_age + 1) (nth q (MQ_acc (snd (upto k))) []).
Proof.
  intro Hq. induction k as [|k IH].
  - cbn. rewrite (nth_indep _ [] (repeat (Np.zeros (max_age + 1)) numsol))
      by (rewrite repeat_length; exact Hq).
    rewrite nth_repeat. apply repeat_zeros_cols.
  - unfold upto. rewrite substeps_S. cbn [substep snd MQ_acc].
    rewrite nth_map_seq by exact Hq. apply cols_map_seq.
    intros s Hs. apply fold_bins_length; auto.
    apply (cols_nth _ _ _ s IH Hs).
Qed.

End MassAccumulation.

Lemma nth_map_map_cumsum (X : list (list (list Qc))) (q s : nat) :
  nth s (nth q (map (map Np.cumsum) X) []) [] = Np.cumsum (nth s (nth q X []) []).
Proof.
  change (@nil (list Qc)) with (map Np.cumsum []) at 1.
  rewrite (map_nth (map Np.cumsum)). apply nth_map_cumsum.
Qed.

Lemma nth_map_proj (X : list (list (list Qc))) (q s : nat) :
  nth q (map (fun mq => nth s mq []) X) [] = nth s (nth q X []) [].
Proof.
  destruct (Nat.lt_ge_cases q (length X)) as [Hq|Hq].
  - rewrite (nth_indep _ [] ((fun mq : list (list Qc) => nth s mq []) []))
      by (rewrite length_map; exact Hq).
    apply (map_nth (fun mq : list (list Qc) => nth s mq [])).
  - rewrite (nth_overflow (map _ X)) by (rewrite length_map; exact Hq).
    rewrite (nth_overflow X) by exact Hq. destruct s; reflexivity.
Qed.

Lemma cols_of_nth (n len : nat) (P : list (list Qc)) :
  length P = n -> (forall q, (q < n)%nat -> length (nth q P []) = len) ->
  cols n len P.
Proof.
  intros Hn H. split; [exact Hn|]. apply Forall_forall. intros c0 Hc.
  apply (In_nth _ _ []) in Hc. destruct Hc as (q & Hq & <-). apply H. lia.
Qed.

Section RunMass.

Variable a : args.
Variable ST0 : list Qc.
Variable alpha_ : list (list (list Qc)).
Variables k1_ C_eq_ C_J_ : list (list Qc).
Variable C_old_ : list Qc.

Hypothesis Hshape : well_shaped a.
Hypothesis HST0 : ST_init a = Some ST0.
Hypothesis Hn : (1 <= n_substeps a)%nat.
Hypothesis Hfull : full_outputs a = true.
Hypothesis Hl2 : (2 <= length ST0)%nat.

Let at_ (i : nat) : loop_state := state_at a ST0 alpha_ k1_ C_eq_ C_J_ C_old_ i.
Let out (i : nat) : column_out :=
  snd (timestep a ST0 alpha_ k1_ C_eq_ C_J_ C_old_ i (at_ i)).
Let r_ : result := run a ST0 alpha_ k1_ C_eq_ C_J_ C_old_.
Let acc (i : nat) : accum :=
  snd (run_substeps a ST0 alpha_ k1_ C_eq_ C_J_ i (n_substeps a) (work (at_ i))).

(** [mSn[:,s]] after [K] substeps of timestep [i]; [mRn[:,s]] and
    [mQn[:,q,s]] of substep [k] of timestep [i]. *)
Let ms (i K s : nat) : list Qc :=
  nth s (mSn (fst (run_substeps a ST0 alpha_ k1_ C_eq_ C_J_ i K (work (at_ i))))) [].
Let g_ (i k : nat) : stages := stages_at a ST0 alpha_ k1_ C_eq_ C_J_ C_old_ i k.
Let Rl (i k s : nat) : list Qc := nth s (combine_mR (numsol_ a) (g_ i k)) [].
Let Ql (i k q s : nat) : list Qc :=
  nth s (nth q (combine_mQ (numflux_ a) (numsol_ a) (g_ i k)) []) [].

Lemma max_age_positive : (1 <= max_age_ ST0)%nat.
Proof. clear - Hl2. unfold max_age_. lia. Qed.

Lemma MS_last_sample (t : nat) :
  MS_last (at_ t) = MS_sample a ST0 (mSn (work (at_ t))).
Proof.
  destruct t as [|i]; [reflexivity|].
  unfold at_. cbn [state_at]. unfold timestep, store. cbn [fst snd MS_last work].
  rewrite Hfull. reflexivity.
Qed.

Lemma out_MR_col (i : nat) : MR_col (out i) = map Np.cumsum (MR_acc (acc i)).
Proof. unfold out, timestep, store. cbn [snd]. rewrite Hfull. reflexivity. Qed.

Lemma out_MQ_col (i : nat) : MQ_col (out i) = map (map Np.cumsum) (MQ_acc (acc i)).
Proof. unfold out, timestep, store. cbn [snd]. rewrite Hfull. reflexivity. Qed.

Lemma acc_MR_cols (i : nat) :
  cols (numsol_ a) (max_age_ ST0 + 1) (MR_acc (acc i)).
Proof.
  unfold acc, run_substeps. rewrite Hfull.
  apply (MR_acc_cols (rSAS_fun a) (M_ a ST0) (max_age_ ST0));
    [apply max_age_positive|reflexivity].
Qed.

Lemma acc_MQ_cols (i q : nat) :
  (q < numflux_ a)%nat ->
  cols (numsol_ a) (max_age_ ST0 + 1) (nth q (MQ_acc (acc i)) []).
Proof.
  intro Hq. unfold acc, run_substeps. rewrite Hfull.
  apply (MQ_acc_cols (rSAS_fun a) (M_ a ST0) (max_age_ ST0));
    [apply max_age_positive|reflexivity|exact Hq].
Qed.

Lemma acc_MQ_length (i : nat) : length (MQ_acc (acc i)) = numflux_ a.
Proof.
  unfold acc, run_substeps. rewrite Hfull.
  destruct (n_substeps a) as [|k]; [apply repeat_length|].
  rewrite substeps_S. cbn [substep snd MQ_acc].
  rewrite length_map, length_seq. reflexivity.
Qed.

Lemma MS_sample_cols (mS : list (list Qc)) :
  cols (numsol_ a) (M_ a ST0) mS ->
  cols (numsol_ a) (max_age_ ST0 + 1) (MS_sample a ST0 mS).
Proof.
  intro HmS. unfold MS_sample. apply cols_map_seq. intros s Hs.
  apply every_length; auto. cbn [length].
  rewrite cumsum_length, (cols_nth _ _ _ s HmS Hs). lia.
Qed.

Lemma out_SB_col (i : nat) :
  SB_col (out i)
  = map (fun s =>
           let MQs := map (fun mq => nth s mq []) (MQ_col (out i)) in
           (get2 C_J_ i s * get1 (J a) i * dt a - nth 1 (nth s (MS_col (out i)) []) 0
            - dt a * Np.sum (map (fun col => nth 1 col 0 - nth 0 col 0) MQs)
            + dt a * (nth 1 (nth s (MR_col (out i)) []) 0
                      - nth 0 (nth s (MR_col (out i)) []) 0))
           :: Np.zipWith (fun xy zw : Qc * Qc =>
                            fst xy - snd xy + dt a * fst zw - dt a * snd zw)
                (combine (Np.diff (Np.slice 0 (max_age_ ST0) (nth s (MS_last (at_ i)) [])))
                         (Np.diff (Np.slice 1 (max_age_ ST0 + 1)
                                            (nth s (MS_col (out i)) []))))
                (combine (Np.diff (skipn 1 (nth s (MR_col (out i)) [])))
                         (Np.sum_cols (map (fun col => Np.diff (skipn 1 col)) MQs)
                                      (max_age_ ST0 - 1))))
        (seq 0 (numsol_ a)).
Proof. unfold out, timestep, store. cbn [snd]. rewrite Hfull. reflexivity. Qed.

Lemma MS_last_S (i : nat) : MS_last (at_ (S i)) = MS_col (out i).
Proof.
  unfold at_ at 1. cbn [state_at]. unfold timestep at 1. cbn [fst MS_last].
  rewrite Hfull. reflexivity.
Qed.

Lemma out_MQ_cols (i s : nat) :
  (s < numsol_ a)%nat ->
  cols (numflux_ a) (max_age_ ST0 + 1) (map (fun mq => nth s mq []) (MQ_col (out i))).
Proof.
  intro Hs. apply cols_of_nth.
  - rewrite length_map, out_MQ_col, length_map. apply acc_MQ_length.
  - intros q Hq. rewrite nth_map_proj, out_MQ_col, nth_map_map_cumsum, cumsum_length.
    apply (cols_nth _ _ _ s (acc_MQ_cols i q Hq) Hs).
Qed.

Lemma MS_last_cols (t : nat) :
  (t <= length (J a))%nat ->
  cols (numsol_ a) (max_age_ ST0 + 1) (MS_last (at_ t)).
Proof.
  intro Ht. rewrite MS_last_sample. apply MS_sample_cols.
  destruct (state_at_shaped a ST0 alpha_ k1_ C_eq_ C_J_ C_old_
              Hshape HST0 Hn Hl2 t Ht) as (_ & _ & H3).
  exact H3.
Qed.

Lemma out_MR_cols (i : nat) :
  cols (numsol_ a) (max_age_ ST0 + 1) (MR_col (out i)).
Proof.
  rewrite out_MR_col. eapply cols_map; [|apply acc_MR_cols].
  intros c0 Hc. rewrite cumsum_length. exact Hc.
Qed.

End RunMass.

(** ** Calls without full outputs *)

Lemma with_defaults_full_outputs (a : args) :
  full_outputs (with_defaults a) = full_outputs a.
Proof. unfold with_defaults. destruct (C_J a); reflexivity. Qed.

Lemma not_full_no_result (a : args) (r : result) :
  full_outputs a = false -> _solve_RK4 a <> inr r.
Proof.
  intros Hf H. unfold _solve_RK4 in H. rewrite Hf in H. cbn [negb] in H.
  destruct (ST_init a) as [ST0|]; [|discriminate H].
  destruct (n_substeps a =? 0)%nat; [discriminate H|].
  destruct (length ST0 =? 0)%nat; discriminate H.
Qed.

(** X22.  [full_outputs=False] yields no result.  Line 344 assigns the
    2-D array [np.zeros((0,0))] to [PQ], which line 276 declares
    [ndim=3]: a call of [_solve_RK4] with [full_outputs=False] that is
    given an initial profile and at least one substep raises
    [ValueError] there, before the time loop; no call with
    [full_outputs=False] returns, from [_solve_RK4] or through [solve]. *)
Theorem full_outputs_false_raises (a : args) :
  full_outputs a = false ->
  (forall ST0, ST_init a = Some ST0 -> (1 <= n_substeps a)%nat ->
               _solve_RK4 a = inl ValueError)
  /\ (forall r, _solve_RK4 a <> inr r)
  /\ (forall r, solve a <> inr r).
Proof.
  intro Hf. split; [|split].
  - intros ST0 HST Hn. unfold _solve_RK4. rewrite HST, Hf. cbn [negb].
    destruct (Nat.eqb_spec (n_substeps a) 0); [lia|].
    destruct (length ST0 =? 0)%nat; reflexivity.
  - intro r. apply not_full_no_result. exact Hf.
  - intros r H. unfold solve in H. destruct (validate a); [discriminate H|].
    apply (not_full_no_result (with_defaults a) r); [|exact H].
    rewrite with_defaults_full_outputs. exact Hf.
Qed.

(** X22 on [ex_not_full]. *)
Lemma full_outputs_false_witness :
  _solve_RK4 ex_not_full = inl ValueError
  /\ (forall r, _solve_RK4 ex_not_full <> inr r)
  /\ (forall r, solve ex_not_full <> inr r).
Proof.
  destruct (full_outputs_false_raises ex_not_full eq_refl) as (A & B & C).
  split; [|split; assumption].
  apply (A [0; 1; qc 3 2]); [reflexivity|cbn; lia].
Defined.

(** ** The water solution does not depend on the solutes *)

Section WaterAlone.

Variable funs : list rSASFunctionClass.
Variables M max_age numflux n : nat.
Variable h : Qc.
Variable full : bool.
Variable i : nat.
Variable Ji : Qc.
Variable Qi : list Qc.
Variables numsol numsol' : nat.
Variables alpha_i alpha_i' : list (list Qc).
Variables k1_i C_eq_i C_J_i k1_i' C_eq_i' C_J_i' : list Qc.

Let sub (k : nat) (sa : state * accum) : state * accum :=
  substep funs M max_age numflux numsol n h full i Ji Qi alpha_i k1_i C_eq_i C_J_i k sa.
Let sub' (k : nat) (sa : state * accum) : state * accum :=
  substep funs M max_age numflux numsol' n h full i Ji Qi alpha_i' k1_i' C_eq_i' C_J_i'
          k sa.
Let upto (k : nat) (st : state) : state * accum :=
  substeps funs M max_age numflux numsol n h full i Ji Qi alpha_i k1_i C_eq_i C_J_i k st.
Let upto' (k : nat) (st : state) : state * accum :=
  substeps funs M max_age numflux numsol' n h full i Ji Qi alpha_i' k1_i' C_eq_i' C_J_i'
           k st.

(** The storage and the distributions of a substep are computed from
    the storage and the distributions alone. *)
Lemma substep_water (k : nat) (sa sa' : state * accum) :
  same_water (fst sa) (fst sa') -> PQ_acc (snd sa) = PQ_acc (snd sa') ->
  same_water (fst (sub k sa)) (fst (sub' k sa'))
  /\ PQ_acc (snd (sub k sa)) = PQ_acc (snd (sub' k sa')).
Proof.
  intros (H1 & H2 & H3) H4. unfold sub, sub', same_water.
  cbn [substep fst snd STn STp PQn]. rewrite H1, H2, H3.
  split; [split; [|split]; reflexivity|].
  destruct full; cbn [PQ_acc]; [|exact H4]. rewrite H4. reflexivity.
Qed.

Lemma substeps_water (k : nat) (st st' : state) :
  same_water st st' ->
  same_water (fst (upto k st)) (fst (upto' k st'))
  /\ PQ_acc (snd (upto k st)) = PQ_acc (snd (upto' k st')).
Proof.
  intro H. induction k as [|k [IH1 IH2]]; [split; [exact H|reflexivity]|].
  unfold upto, upto'. rewrite !substeps_S. apply substep_water; assumption.
Qed.

End WaterAlone.

Section RunWaterAlone.

Variable a : args.
Variable ST0 : list Qc.
Variables alpha_ alpha_' : list (list (list Qc)).
Variables k1_ C_eq_ C_J_ k1_' C_eq_' C_J_' : list (list Qc).
Variables C_old_ C_old_' : list Qc.

Let a0 : args := without_solutes a.
Let at_ (i : nat) : loop_state := state_at a ST0 alpha_ k1_ C_eq_ C_J_ C_old_ i.
Let at0 (i : nat) : loop_state := state_at a0 ST0 alpha_' k1_' C_eq_' C_J_' C_old_' i.
Let out (i : nat) : column_out :=
  snd (timestep a ST0 alpha_ k1_ C_eq_ C_J_ C_old_ i (at_ i)).
Let out0 (i : nat) : column_out :=
  snd (timestep a0 ST0 alpha_' k1_' C_eq_' C_J_' C_old_' i (at0 i)).

Lemma run_substeps_water (i : nat) (st st' : state) :
  same_water st st' ->
  same_water (fst (run_substeps a ST0 alpha_ k1_ C_eq_ C_J_ i (n_substeps a) st))
             (fst (run_substeps a0 ST0 alpha_' k1_' C_eq_' C_J_' i (n_substeps a0) st'))
  /\ PQ_acc (snd (run_substeps a ST0 alpha_ k1_ C_eq_ C_J_ i (n_substeps a) st))
     = PQ_acc (snd (run_substeps a0 ST0 alpha_' k1_' C_eq_' C_J_' i (n_substeps a0) st')).
Proof.
  intro H. unfold run_substeps.
  apply (substeps_water (rSAS_fun a) (M_ a ST0) (max_age_ ST0) (numflux_ a)
                        (n_substeps a) (h_ a) (full_outputs a)).
  exact H.
Qed.

Lemma state_at_water (i : nat) :
  same_water (work (at_ i)) (work (at0 i)) /\ ST_last (at_ i) = ST_last (at0 i).
Proof.
  induction i as [|i [IH1 IH2]].
  - split; [split; [|split]|]; reflexivity.
  - destruct (run_substeps_water i _ _ IH1) as [(E1 & E2 & E3) E4].
    unfold at_, at0. cbn [state_at]. unfold timestep, store.
    cbn [fst snd work ST_last].
    change (full_outputs a0) with (full_outputs a).
    split; [split; [exact E1|split; [exact E2|exact E3]]|].
    destruct (full_outputs a); cbn [ST_col]; [|exact IH2].
    fold (at_ i) (at0 i). rewrite E1. reflexivity.
Qed.

Lemma out_water (i : nat) :
  ST_col (out i) = ST_col (out0 i) /\ PQ_col (out i) = PQ_col (out0 i)
  /\ WB_col (out i) = WB_col (out0 i).
Proof.
  destruct (state_at_water i) as [IH1 IH2].
  destruct (run_substeps_water i _ _ IH1) as [(E1 & E2 & E3) E4].
  unfold out, out0, timestep, store. cbn [snd].
  change (full_outputs a0) with (full_outputs a).
  destruct (full_outputs a); cbn [ST_col PQ_col WB_col];
    [|split; [|split]; reflexivity].
  fold (at_ i) (at0 i). rewrite E1, E4, IH2.
  split; [|split]; reflexivity.
Qed.

Lemma run_water :
  let r := run a ST0 alpha_ k1_ C_eq_ C_J_ C_old_ in
  let r0 := run a0 ST0 alpha_' k1_' C_eq_' C_J_' C_old_' in
  ST r0 = ST r /\ PQ r0 = PQ r /\ WaterBalance r0 = WaterBalance r.
Proof.
  intros r r0. subst r r0. rewrite !run_outs. unfold assemble.
  change (length (J a0)) with (length (J a)).
  cbn [ST PQ WaterBalance]. rewrite !map_map.
  split; [|split]; [f_equal| f_equal|]; apply map_ext; intro i;
    destruct (out_water i) as (O1 & O2 & O3); symmetry; assumption.
Qed.

End RunWaterAlone.

Lemma returns_without_solutes (a : args) (ST0 : list Qc) (r : result) :
  returns a ST0 r ->
  returns (without_solutes a) ST0 (run (without_solutes a) ST0 [] [] [] [] []).
Proof.
  intros [HST0 H]. split; [exact HST0|].
  unfold _solve_RK4 in *. cbn [ST_init without_solutes]. rewrite HST0 in *.
  change (numsol_ (without_solutes a)) with 0%nat.
  cbn [J n_substeps alpha k1 C_eq C_old C_J full_outputs without_solutes or_empty].
  cbv zeta in H |- *.
  destruct (n_substeps a =? 0)%nat; [discriminate|].
  destruct (length ST0 =? 0)%nat; [discriminate|].
  destruct (full_outputs a); [cbn [negb] in H |- *|discriminate].
  destruct ((0 <? length (J a))%nat && (length ST0 =? 1)%nat); [discriminate|].
  change (0 <? 0)%nat with false. rewrite !andb_false_r. reflexivity.
Qed.

(** X17.  The water solution does not depend on the solutes: if a call
    returns, the same call with [C_J], [CS_init], [alpha], [k1], [C_eq]
    and [C_old] left out returns too, and gives the same [ST], [PQ] and
    [WaterBalance]. *)
Theorem water_independent_of_solutes (a : args) (ST0 : list Qc) (r : result) :
  returns a ST0 r ->
  exists r0,
    returns (without_solutes a) ST0 r0
    /\ ST r0 = ST r /\ PQ r0 = PQ r /\ WaterBalance r0 = WaterBalance r.
Proof.
  intro Hr. exists (run (without_solutes a) ST0 [] [] [] [] []).
  split; [apply (returns_without_solutes a ST0 r Hr)|].
  destruct (solve_RK4_returns a ST0 r Hr) as (_ & _ & _ & ->).
  apply run_water.
Qed.

(** X17 on [ex_solute]. *)
Lemma water_independent_witness :
  exists r0,
    returns (without_solutes ex_solute) [0; 1; qc 3 2] r0
    /\ ST r0 = ST ex_solute_result /\ PQ r0 = PQ ex_solute_result
    /\ WaterBalance r0 = WaterBalance ex_solute_result.
Proof.
  apply (water_independent_of_solutes ex_solute [0; 1; qc 3 2] ex_solute_result).
  exact ex_solute_returns.
Defined.

(** ** The shapes of the solute arrays *)

Lemma SB_column_length (dt_ : Qc) (max_age numflux : nat) (x0 : Qc)
      (L MSs MRs : list Qc) (MQs : list (list Qc)) :
  (1 <= max_age)%nat ->
  length L = (max_age + 1)%nat -> length MSs = (max_age + 1)%nat ->
  length MRs = (max_age + 1)%nat -> cols numflux (max_age + 1) MQs ->
  length (x0 :: Np.zipWith (fun xy zw : Qc * Qc =>
                              fst xy - snd xy + dt_ * fst zw - dt_ * snd zw)
                  (combine (Np.diff (Np.slice 0 max_age L))
                           (Np.diff (Np.slice 1 (max_age + 1) MSs)))
                  (combine (Np.diff (skipn 1 MRs))
                           (Np.sum_cols (map (fun col => Np.diff (skipn 1 col)) MQs)
                                        (max_age - 1))))
  = max_age.
Proof.
  intros Hm HL HMSs HMRs HMQs. cbn [length].
  rewrite zipWith_length, !length_combine, !diff_length, !slice_length,
    length_skipn by lia.
  rewrite sum_cols_length.
  - lia.
  - eapply cols_le; [|apply Nat.le_refl].
    eapply cols_map; [|exact HMQs]. intros c0 Hc.
    rewrite diff_length, length_skipn. lia.
Qed.

Lemma nth_map_maps (f : list Qc -> list Qc) (X : list (list (list Qc))) (q : nat) :
  nth q (map (map f) X) [] = map f (nth q X []).
Proof. change (@nil (list Qc)) with (map f []) at 1. apply (map_nth (map f)). Qed.

Section RunSoluteArrays.

Variable a : args.
Variable ST0 : list Qc.
Variable alpha_ : list (list (list Qc)).
Variables k1_ C_eq_ C_J_ : list (list Qc).
Variable C_old_ : list Qc.

Hypothesis Hshape : well_shaped a.
Hypothesis HST0 : ST_init a = Some ST0.
Hypothesis Hn : (1 <= n_substeps a)%nat.
Hypothesis Hfull : full_outputs a = true.
Hypothesis Hl2 : (2 <= length ST0)%nat.
Hypothesis Hsol : (0 < numsol_ a)%nat.

Let at_ (i : nat) : loop_state := state_at a ST0 alpha_ k1_ C_eq_ C_J_ C_old_ i.
Let out (i : nat) : column_out :=
  snd (timestep a ST0 alpha_ k1_ C_eq_ C_J_ C_old_ i (at_ i)).
Let r_ : result := run a ST0 alpha_ k1_ C_eq_ C_J_ C_old_.

Lemma run_solute_arrays :
  MS r_ = MS_first a ST0 :: map (fun i => MS_col (out i)) (seq 0 (length (J a)))
  /\ MQ r_ = repeat (repeat (Np.zeros (max_age_ ST0 + 1)) (numsol_ a)) (numflux_ a)
             :: map (fun i => MQ_col (out i)) (seq 0 (length (J a)))
  /\ MR r_ = repeat (Np.zeros (max_age_ ST0 + 1)) (numsol_ a)
             :: map (fun i => MR_col (out i)) (seq 0 (length (J a)))
  /\ C_Q r_ = map (fun i => CQ_row (out i)) (seq 0 (length (J a)))
  /\ SoluteBalance r_ = map (fun i => SB_col (out i)) (seq 0 (length (J a))).
Proof.
  clear Hshape HST0 Hn Hl2 Hfull.
  unfold r_. rewrite run_outs. unfold assemble.
  cbn [MS MQ MR C_Q SoluteBalance].
  destruct (Nat.ltb_spec 0 (numsol_ a)) as [_|]; [|lia].
  rewrite !map_map. repeat split; reflexivity.
Qed.

Lemma run_MS_cols (t : nat) :
  (t <= length (J a))%nat ->
  cols (numsol_ a) (max_age_ ST0 + 1) (nth t (MS r_) []).
Proof.
  intro Ht. destruct run_solute_arrays as (-> & _).
  destruct t as [|i]; cbn [nth].
  - apply (MS_last_cols a ST0 alpha_ k1_ C_eq_ C_J_ C_old_ Hshape HST0 Hn Hfull Hl2 0).
    lia.
  - rewrite nth_map_seq by lia. unfold out.
    rewrite <- (MS_last_S a ST0 alpha_ k1_ C_eq_ C_J_ C_old_ Hfull).
    apply MS_last_cols; assumption.
Qed.

Lemma run_MR_cols (t : nat) :
  (t <= length (J a))%nat ->
  cols (numsol_ a) (max_age_ ST0 + 1) (nth t (MR r_) []).
Proof.
  intro Ht. destruct run_solute_arrays as (_ & _ & -> & _).
  destruct t as [|i]; cbn [nth]; [apply repeat_zeros_cols|].
  rewrite nth_map_seq by lia. unfold out. apply out_MR_cols; assumption.
Qed.

Lemma run_MQ_fluxes (t : nat) :
  (t <= length (J a))%nat ->
  fluxes (numflux_ a) (numsol_ a) (max_age_ ST0 + 1) (nth t (MQ r_) []).
Proof.
  intro Ht. destruct run_solute_arrays as (_ & -> & _).
  destruct t as [|i]; cbn [nth].
  - split; [apply repeat_length|]. intros q Hq.
    rewrite (nth_indep _ [] (repeat (Np.zeros (max_age_ ST0 + 1)) (numsol_ a)))
      by (rewrite repeat_length; exact Hq).
    rewrite nth_repeat. apply repeat_zeros_cols.
  - rewrite nth_map_seq by lia. unfold out.
    rewrite (out_MQ_col a ST0 alpha_ k1_ C_eq_ C_J_ C_old_ Hfull).
    split; [rewrite length_map; apply acc_MQ_length; assumption|].
    intros q Hq. rewrite nth_map_maps.
    eapply cols_map; [|apply acc_MQ_cols; eassumption].
    intros c0 Hc. rewrite cumsum_length. exact Hc.
Qed.

Lemma run_CQ_cols (i : nat) :
  (i < length (J a))%nat -> cols (numflux_ a) (numsol_ a) (nth i (C_Q r_) []).
Proof.
  intro Hi. destruct run_solute_arrays as (_ & _ & _ & -> & _).
  rewrite nth_map_seq by exact Hi.
  unfold out. rewrite out_CQ_row, Hfull. apply cols_map_seq.
  intros q Hq. rewrite length_map, length_seq. reflexivity.
Qed.

Lemma run_SB_cols (i : nat) :
  (i < length (J a))%nat -> cols (numsol_ a) (max_age_ ST0) (nth i (SoluteBalance r_) []).
Proof.
  intro Hi. destruct run_solute_arrays as (_ & _ & _ & _ & ->).
  rewrite nth_map_seq by exact Hi. unfold out.
  rewrite (out_SB_col a ST0 alpha_ k1_ C_eq_ C_J_ C_old_ Hfull).
  apply cols_map_seq. intros s Hs. cbv zeta.
  apply (SB_column_length (dt a) (max_age_ ST0) (numflux_ a)).
  - unfold max_age_. lia.
  - apply (cols_nth (numsol_ a)); [|exact Hs].
    apply MS_last_cols; auto. lia.
  - rewrite <- (MS_last_S a ST0 alpha_ k1_ C_eq_ C_J_ C_old_ Hfull).
    apply (cols_nth (numsol_ a)); [|exact Hs].
    apply MS_last_cols; auto.
  - apply (cols_nth (numsol_ a)); [|exact Hs]. apply out_MR_cols; assumption.
  - apply out_MQ_cols; assumption.
Qed.

End RunSoluteArrays.

(** X18.  The shapes of the solute arrays: for arguments of the
    expected shapes, a run with solutes and full outputs returns [MS],
    [MQ] and [MR] with [len(J)+1] columns of [max_age+1] ages for each
    solute (and each outflow, for [MQ]), [C_Q] with [len(J)] rows of
    [numflux] by [numsol] entries, and [SoluteBalance] with [len(J)]
    columns of [max_age] rows for each solute. *)
Theorem solute_output_shapes (a : args) (ST0 : list Qc) (r : result) :
  returns a ST0 r -> well_shaped a -> full_outputs a = true ->
  (0 < numsol_ a)%nat -> (2 <= length ST0)%nat ->
  let n := length (J a) in
  let m := (length ST0 - 1)%nat in
  let nq := length (rSAS_fun a) in
  let ns := numsol_ a in
  (length (MS r) = (n + 1)%nat
   /\ forall t, (t <= n)%nat -> cols ns (m + 1) (nth t (MS r) []))
  /\ (length (MQ r) = (n + 1)%nat
      /\ forall t, (t <= n)%nat -> fluxes nq ns (m + 1) (nth t (MQ r) []))
  /\ (length (MR r) = (n + 1)%nat
      /\ forall t, (t <= n)%nat -> cols ns (m + 1) (nth t (MR r) []))
  /\ (length (C_Q r) = n
      /\ forall i, (i < n)%nat -> cols nq ns (nth i (C_Q r) []))
  /\ (length (SoluteBalance r) = n
      /\ forall i, (i < n)%nat -> cols ns m (nth i (SoluteBalance r) [])).
Proof.
  intros Hr Hs Hf Hsol Hl2 n m nq ns.
  destruct (solve_RK4_returns a ST0 r Hr) as (Hn & _ & _ & ->).
  destruct Hr as [HST0 _].
  destruct (run_solute_arrays a ST0 (or_empty (alpha a)) (or_empty (k1 a))
              (or_empty (C_eq a)) (or_empty (C_J a)) (or_empty (C_old a)) Hsol)
    as (E1 & E2 & E3 & E4 & E5).
  split; [split|split; [split|split; [split|split; split]]].
  - rewrite E1. cbn [length]. rewrite length_map, length_seq. subst n. lia.
  - intros t Ht. apply run_MS_cols; assumption.
  - rewrite E2. cbn [length]. rewrite length_map, length_seq. subst n. lia.
  - intros t Ht. apply run_MQ_fluxes; assumption.
  - rewrite E3. cbn [length]. rewrite length_map, length_seq. subst n. lia.
  - intros t Ht. apply run_MR_cols; assumption.
  - rewrite E4. rewrite length_map, length_seq. reflexivity.
  - intros i Hi. apply run_CQ_cols; assumption.
  - rewrite E5. rewrite length_map, length_seq. reflexivity.
  - intros i Hi. apply run_SB_cols; assumption.
Qed.

(** X18 on [ex_solute]: two timesteps, three ages, one outflow, one
    solute. *)
Lemma solute_output_shapes_witness :
  let n := length (J ex_solute) in
  let m := 2%nat in
  let nq := length (rSAS_fun ex_solute) in
  let ns := numsol_ ex_solute in
  (length (MS ex_solute_result) = (n + 1)%nat
   /\ forall t, (t <= n)%nat -> cols ns (m + 1) (nth t (MS ex_solute_result) []))
  /\ (length (MQ ex_solute_result) = (n + 1)%nat
      /\ forall t, (t <= n)%nat ->
           fluxes nq ns (m + 1) (nth t (MQ ex_solute_result) []))
  /\ (length (MR ex_solute_result) = (n + 1)%nat
      /\ forall t, (t <= n)%nat -> cols ns (m + 1) (nth t (MR ex_solute_result) []))
  /\ (length (C_Q ex_solute_result) = n
      /\ forall i, (i < n)%nat -> cols nq ns (nth i (C_Q ex_solute_result) []))
  /\ (length (SoluteBalance ex_solute_result) = n
      /\ forall i, (i < n)%nat ->
           cols ns m (nth i (SoluteBalance ex_solute_result) [])).
Proof.
  apply (solute_output_shapes ex_solute [0; 1; qc 3 2] ex_solute_result).
  - exact ex_solute_returns.
  - exact ex_solute_shaped.
  - reflexivity.
  - cbn. lia.
  - cbn. lia.
Defined.

(** ** The zero-age rows of the solute arrays *)

Section SoluteZeroAge.

Variable funs : list rSASFunctionClass.
Variables M max_age numflux numsol n : nat.
Variable h : Qc.
Variable i : nat.
Variable Ji : Qc.
Variable Qi : list Qc.
Variable alpha_i : list (list Qc).
Variables k1_i C_eq_i C_J_i : list Qc.

Let upto (k : nat) (st : state) : state * accum :=
  substeps funs M max_age numflux numsol n h true i Ji Qi alpha_i k1_i C_eq_i C_J_i k st.

(** The bins of age 0 of [MR[:, i+1, s]] and [MQ[:, i+1, q, s]] never
    receive anything. *)
Lemma substeps_MR_acc_zero_age (k : nat) (st : state) (s : nat) :
  nth 0 (nth s (MR_acc (snd (upto k st))) []) 0 = 0.
Proof.
  induction k as [|k IH]; [apply nth_repeat_zeros|].
  unfold upto in *. rewrite substeps_S. cbn [substep snd MR_acc].
  destruct (Nat.lt_ge_cases s numsol) as [Hs|Hs].
  - rewrite nth_map_seq by exact Hs. rewrite nth0_fold_bins. exact IH.
  - rewrite (nth_overflow (map _ (seq 0 numsol)))
      by (rewrite length_map, length_seq; exact Hs).
    reflexivity.
Qed.

Lemma substeps_MQ_acc_zero_age (k : nat) (st : state) (q s : nat) :
  nth 0 (nth s (nth q (MQ_acc (snd (upto k st))) []) []) 0 = 0.
Proof.
  induction k as [|k IH].
  - cbn. destruct (Nat.lt_ge_cases q numflux) as [Hq|Hq].
    + rewrite (nth_indep _ [] (repeat (Np.zeros (max_age + 1)) numsol))
        by (rewrite repeat_length; exact Hq).
      rewrite nth_repeat. apply nth_repeat_zeros.
    + rewrite (nth_overflow (repeat _ numflux)) by (rewrite repeat_length; exact Hq).
      destruct s; reflexivity.
  - unfold upto in *. rewrite substeps_S. cbn [substep snd MQ_acc].
    destruct (Nat.lt_ge_cases q numflux) as [Hq|Hq].
    + rewrite nth_map_seq by exact Hq.
      destruct (Nat.lt_ge_cases s numsol) as [Hs|Hs].
      * rewrite nth_map_seq by exact Hs. rewrite nth0_fold_bins. exact IH.
      * rewrite (nth_overflow (map _ (seq 0 numsol)))
          by (rewrite length_map, length_seq; exact Hs).
        reflexivity.
    + rewrite (nth_overflow (map _ (seq 0 numflux)))
        by (rewrite length_map, length_seq; exact Hq).
      destruct s; reflexivity.
Qed.

End SoluteZeroAge.

Section RunSoluteZeroAge.

Variable a : args.
Variable ST0 : list Qc.
Variable alpha_ : list (list (list Qc)).
Variables k1_ C_eq_ C_J_ : list (list Qc).
Variable C_old_ : list Qc.

Hypothesis Hfull : full_outputs a = true.
Hypothesis Hsol : (0 < numsol_ a)%nat.

Let at_ (i : nat) : loop_state := state_at a ST0 alpha_ k1_ C_eq_ C_J_ C_old_ i.
Let out (i : nat) : column_out :=
  snd (timestep a ST0 alpha_ k1_ C_eq_ C_J_ C_old_ i (at_ i)).
Let r_ : result := run a ST0 alpha_ k1_ C_eq_ C_J_ C_old_.

Lemma MS_sample_zero_age (mS : list (list Qc)) (s : nat) :
  nth 0 (nth s (MS_sample a ST0 mS) []) 0 = 0.
Proof.
  unfold MS_sample. destruct (Nat.lt_ge_cases s (numsol_ a)) as [Hs|Hs].
  - rewrite nth_map_seq by exact Hs. apply nth0_every. reflexivity.
  - rewrite (nth_overflow (map _ (seq 0 (numsol_ a))))
      by (rewrite length_map, length_seq; exact Hs).
    reflexivity.
Qed.

Lemma run_solute_zero_age (t q s : nat) :
  (t <= length (J a))%nat ->
  MS_at r_ 0 t s = 0 /\ MQ_at r_ 0 t q s = 0 /\ MR_at r_ 0 t s = 0.
Proof.
  intro Ht. unfold MS_at, MQ_at, MR_at.
  destruct (run_solute_arrays a ST0 alpha_ k1_ C_eq_ C_J_ C_old_ Hsol)
    as (E1 & E2 & E3 & _).
  fold r_ in E1, E2, E3. rewrite E1, E2, E3.
  destruct t as [|i]; cbn [nth].
  - split; [apply MS_sample_zero_age|]. split; [|apply nth_repeat_zeros].
    destruct (Nat.lt_ge_cases q (numflux_ a)) as [Hq|Hq].
    + rewrite (nth_indep _ [] (repeat (Np.zeros (max_age_ ST0 + 1)) (numsol_ a)))
        by (rewrite repeat_length; exact Hq).
      rewrite nth_repeat. apply nth_repeat_zeros.
    + rewrite (nth_overflow (repeat _ (numflux_ a)))
        by (rewrite repeat_length; exact Hq).
      destruct s; reflexivity.
  - rewrite !nth_map_seq by lia.
    unfold timestep, store. cbn [snd]. rewrite Hfull. cbn [MS_col MQ_col MR_col].
    split; [apply MS_sample_zero_age|]. split.
    + rewrite nth_map_map_cumsum. apply nth0_cumsum.
      unfold run_substeps. rewrite Hfull. apply substeps_MQ_acc_zero_age.
    + rewrite nth_map_cumsum. apply nth0_cumsum.
      unfold run_substeps. rewrite Hfull. apply substeps_MR_acc_zero_age.
Qed.

End RunSoluteZeroAge.

(** X20.  The zero-age rows of the solute arrays are zero: in every run
    with solutes and full outputs, [MS[0, t, s] = 0], [MQ[0, t, q, s] = 0]
    and [MR[0, t, s] = 0] at every output time, for every outflow and
    solute. *)
Theorem zero_age_solutes (a : args) (ST0 : list Qc) (r : result) (t q s : nat) :
  returns a ST0 r -> full_outputs a = true -> (0 < numsol_ a)%nat ->
  (t <= length (J a))%nat ->
  MS_at r 0 t s = 0 /\ MQ_at r 0 t q s = 0 /\ MR_at r 0 t s = 0.
Proof.
  intros Hr Hf Hsol Ht.
  destruct (solve_RK4_returns a ST0 r Hr) as (_ & _ & _ & ->).
  apply run_solute_zero_age; assumption.
Qed.

(** X20 on [ex_solute], at the last output time. *)
Lemma zero_age_solutes_witness :
  MS_at ex_solute_result 0 2 0 = 0 /\ MQ_at ex_solute_result 0 2 0 0 = 0
  /\ MR_at ex_solute_result 0 2 0 = 0.
Proof.
  apply (zero_age_solutes ex_solute [0; 1; qc 3 2] ex_solute_result 2 0 0).
  - exact ex_solute_returns.
  - reflexivity.
  - cbn. lia.
  - cbn. lia.
Defined.

(** * The integrator in binary64 *)

Module F64Facts.

Import PrimFloat F64.
Local Open Scope float_scope.

(** ** Arrays *)























(** ** The initial condition *)



(** ** The aggregation of substep cells into output age bins *)

Section Bins.

Variables M max_age n : nat.

Hypothesis Hage : (1 <= max_age)%nat.
Hypothesis HMn : M = (max_age * n)%nat.




End Bins.

Section Accumulation.

Variable funs : list rSASFunctionClass.
Variables M max_age numflux numsol n : nat.
Variables h : float.
Variable i : nat.
Variable Ji : float.
Variable Qi : list float.
Variable alpha_i : list (list float).
Variables k1_i C_eq_i C_J_i : list float.
Variable st0 : state.

Hypothesis Hage : (1 <= max_age)%nat.
Hypothesis HMn : M = (max_age * n)%nat.

Let upto (full : bool) (k : nat) : state * accum :=
  substeps funs M max_age numflux numsol n h full i Ji Qi alpha_i k1_i C_eq_i C_J_i k st0.







End Accumulation.

(** ** The time loop *)

Section RunFacts.

Variable a : args.
Variable ST0 : list float.
Variable alpha_ : list (list (list float)).
Variables k1_ C_eq_ C_J_ : list (list float).
Variable C_old_ : list float.

Hypothesis Hfull : full_outputs a = true.
Hypothesis Hn : (1 <= n_substeps a)%nat.
Hypothesis Hage : (1 <= max_age_ ST0)%nat.

Let at_ (i : nat) : loop_state := state_at a ST0 alpha_ k1_ C_eq_ C_J_ C_old_ i.
Let out (i : nat) : column_out :=
  snd (timestep a ST0 alpha_ k1_ C_eq_ C_J_ C_old_ i (at_ i)).
Let acc (i : nat) : accum :=
  snd (run_substeps a ST0 alpha_ k1_ C_eq_ C_J_ i (n_substeps a) (work (at_ i))).
Let r_ : result := run a ST0 alpha_ k1_ C_eq_ C_J_ C_old_.












End RunFacts.


(** ** The first column *)



(** ** The increments of the stored distribution *)



(** ** The water balance *)





(** ** The statements on concrete runs *)

#[local] Set Warnings "-inexact-float".

(** Two floats that compare different are different. *)
Ltac f64_neq :=
  match goal with
  | |- ?x <> ?y =>
      let H := fresh in
      intro H; apply (f_equal (fun v => v =? y)) in H; vm_compute in H; discriminate H
  end.








(** The rows of [WaterBalance] are small and not identically zero (the
    docstring: "within tolerances of zero"): on [ex_quarters] the entry
    of timestep 1, age 2 is [-2.2204460492503131e-16]. *)
Lemma water_balance_residual :
  WB_at ex_quarters_result 2 1 = -2.2204460492503131e-16
  /\ WB_at ex_quarters_result 2 1 <> 0.
Proof. split; [vm_compute; reflexivity|f64_neq]. Qed.

End F64Facts.
